(** * Solar dashboard: the data-preparation pipeline of [app/utils.py] and
      [app/main.py], embedded over a small model of the dataframe library.

    Conventions of the embedding.
    - A cell is a number, a string or the missing-value marker.  A number
      cell is given by its value, a rational; the infinities are not cell
      values here.
    - What the library computes in floating point on the numbers of a group
      (mean, median, standard deviation, rounding, order) is not fixed by
      the program: the kernels are parameters of the aggregations, and the
      properties hold for every kernel.  One implementation on IEEE 754
      binary64 is given and evaluates the samples.
    - A dataframe is its ordered column labels and its rows in order; a row
      maps a column label to a cell.  Row index labels are not modelled:
      every operation below is positional.
    - Dataframes are objects: they live in a store and are handled through
      references, so that [df.copy()] and the in-place assignment
      [out[c] = ...] can be told apart.
    - Library calls that can raise are modelled with the exception they
      raise.
    - Text is a string of bytes, in UTF-8. *)

From Stdlib Require Import ZArith QArith List Lia Ascii.
From Stdlib Require Floats.SpecFloat.
From stdpp Require Import base option list sorting gmap strings.

Set Default Proof Using "Type".
#[local] Set Warnings "-clear-no-such-hyp".

(** ** The dataframe library, as far as the program uses it *)
Module Pandas.

#[export] Instance Qlt_dec (x y : Q) : Decision (x < y)%Q :=
  Z.lt_dec (Qnum x * QDen y)%Z (Qnum y * QDen x)%Z.
#[export] Instance Qeq_dec (x y : Q) : Decision (x == y)%Q :=
  Z.eq_dec (Qnum x * QDen y)%Z (Qnum y * QDen x)%Z.
#[export] Instance Qle_dec (x y : Q) : Decision (x <= y)%Q :=
  Z.le_dec (Qnum x * QDen y)%Z (Qnum y * QDen x)%Z.

Inductive value :=
  | Num (q : Q)
  | Str (s : string)
  | NaN.

Abbreviation row := (gmap string value).

Record DataFrame := mkDF {
  columns : list string;
  rows : list row
}.

(** A series is a column taken out of a frame: its cells in row order. *)
Abbreviation Series := (list value).

Inductive exn :=
  | KeyError (k : string)
  | TypeError
  | ValueError
  | ParseError (msg : string)
  | DuplicateWidgetID (key : string).

(** The cell of a row under a label; a label the row does not carry reads as
    missing. *)
Definition cell (r : row) (c : string) : value := default NaN (r !! c).

Definition has_column (c : string) (d : DataFrame) : bool :=
  bool_decide (c ∈ columns d).

(** *** The object store and its monad *)

Abbreviation ref := nat.
Abbreviation store := (list DataFrame).

(** A computation reads and updates the store and either returns or raises;
    the store survives an exception, as in Python. *)
Definition M (A : Type) : Type := store → (exn + A) * store.

Definition ret {A} (a : A) : M A := λ σ, (inr a, σ).
Definition raise {A} (e : exn) : M A := λ σ, (inl e, σ).
Definition bind {A B} (m : M A) (k : A → M B) : M B :=
  λ σ, match m σ with
       | (inr a, σ') => k a σ'
       | (inl e, σ') => (inl e, σ')
       end.

(** [try: m except Exception as e: h e] *)
Definition try_except {A} (m : M A) (h : exn → M A) : M A :=
  λ σ, match m σ with
       | (inr a, σ') => (inr a, σ')
       | (inl e, σ') => h e σ'
       end.

#[export] Instance M_ret : MRet M := @ret.
#[export] Instance M_bind : MBind M := λ A B k m, bind m k.

Fixpoint for_each {A} (xs : list A) (body : A → M unit) : M unit :=
  match xs with
  | [] => ret tt
  | x :: xs' => body x ;; for_each xs' body
  end.

(** Allocation of a new frame object. *)
Definition alloc (d : DataFrame) : M ref := λ σ, (inr (length σ), σ ++ [d]).

(** Reading the object behind a reference. *)
Definition deref (l : ref) : M DataFrame :=
  λ σ, match σ !! l with
       | Some d => (inr d, σ)
       | None => (inl (KeyError "dangling reference"), σ)
       end.

(** In-place update of the object behind a reference. *)
Definition assign (l : ref) (d : DataFrame) : M unit :=
  λ σ, (inr tt, <[l := d]> σ).

(** *** Frame operations *)

(** [df.copy()] *)
Definition copy (l : ref) : M ref := d ← deref l; alloc d.

(** [df.columns] *)
Definition get_columns (l : ref) : M (list string) :=
  d ← deref l; ret (columns d).

Definition column (c : string) (d : DataFrame) : Series :=
  (λ r, cell r c) <$> rows d.

(** [df[c]] for a column label [c] *)
Definition getitem (l : ref) (c : string) : M Series :=
  d ← deref l;
  if has_column c d then ret (column c d) else raise (KeyError c).

Definition set_column (c : string) (s : Series) (d : DataFrame) : DataFrame :=
  {| columns := if has_column c d then columns d else columns d ++ [c];
     rows := zip_with (λ r v, <[c := v]> r) (rows d) s |}.

(** [df[c] = s] for a series [s]: in place; a series of the wrong length is
    refused. *)
Definition setitem (l : ref) (c : string) (s : Series) : M unit :=
  d ← deref l;
  if bool_decide (length s = length (rows d))
  then assign l (set_column c s d)
  else raise ValueError.

(** [df[c] = v] for a scalar [v]: the value is written in every row. *)
Definition setitem_scalar (l : ref) (c : string) (v : value) : M unit :=
  d ← deref l; assign l (set_column c (replicate (length (rows d)) v) d).

Fixpoint mask_rows (rs : list row) (mask : list bool) : list row :=
  match rs, mask with
  | r :: rs', b :: mask' =>
      if b then r :: mask_rows rs' mask' else mask_rows rs' mask'
  | _, _ => []
  end.

(** [df[mask]] for a boolean series [mask]: a new frame with the rows at
    which the mask holds. *)
Definition select (l : ref) (mask : list bool) : M ref :=
  d ← deref l;
  if bool_decide (length mask = length (rows d))
  then alloc {| columns := columns d; rows := mask_rows (rows d) mask |}
  else raise ValueError.

(** *** Series operations *)

(** [pd.to_numeric(s, errors="coerce")], cell by cell.  The library's
    number parser is a parameter. *)
Definition to_numeric_value (parse : string → option Q) (v : value) : value :=
  match v with
  | Num q => Num q
  | Str s => match parse s with Some q => Num q | None => NaN end
  | NaN => NaN
  end.

Definition to_numeric (parse : string → option Q) (s : Series) : Series :=
  to_numeric_value parse <$> s.

(** [v > threshold] on one cell: a missing cell compares false, a string
    cannot be ordered against a number. *)
Definition gt_value (threshold : Q) (v : value) : exn + bool :=
  match v with
  | Num q => inr (bool_decide (threshold < q)%Q)
  | NaN => inr false
  | Str _ => inl TypeError
  end.

(** [s > threshold]: the boolean mask, or the first exception. *)
Fixpoint series_gt (s : Series) (threshold : Q) : exn + list bool :=
  match s with
  | [] => inr []
  | v :: s' =>
      match gt_value threshold v with
      | inl e => inl e
      | inr b =>
          match series_gt s' threshold with
          | inl e => inl e
          | inr bs => inr (b :: bs)
          end
      end
  end.

Definition lift {A} (r : exn + A) : M A :=
  match r with inl e => raise e | inr a => ret a end.

(** Computations that only read: they return or raise. *)
Definition bindE {A B} (m : exn + A) (k : A → exn + B) : exn + B :=
  match m with inl e => inl e | inr a => k a end.

Notation "'do' x <- m ; k" := (bindE m (λ x, k))
  (at level 10, x name, m at level 100, k at level 200).

Fixpoint mapE {A B} (f : A → exn + B) (xs : list A) : exn + list B :=
  match xs with
  | [] => inr []
  | x :: xs' => do y <- f x; do ys <- mapE f xs'; inr (y :: ys)
  end.

(** [s.isin(labels)]: a cell is in the list when it is one of its strings. *)
Definition isin (labels : list string) (s : Series) : list bool :=
  (λ v, match v with
        | Str x => bool_decide (x ∈ labels)
        | _ => false
        end) <$> s.

(** *** Reading and concatenating frames *)

(** [pd.read_csv(src)]: the outcome of parsing a source is given with the
    source, either the parser's error message or the table read; a table
    read is a new object. *)
Definition read_csv (outcome : string + DataFrame) : M ref :=
  match outcome with
  | inl msg => raise (ParseError msg)
  | inr d => alloc d
  end.

(** The union of the column labels of the frames, in order of first
    appearance. *)
Definition union_columns (ds : list DataFrame) : list string :=
  foldl (λ seen c, if bool_decide (c ∈ seen) then seen else seen ++ [c])
        [] (ds ≫= columns).

(** A row laid out on the labels [cols]: labels it lacks are missing. *)
Definition reindex (cols : list string) (r : row) : row :=
  list_to_map ((λ c, (c, cell r c)) <$> cols).

Definition concat_frames (ds : list DataFrame) : DataFrame :=
  {| columns := union_columns ds;
     rows := ds ≫= (λ d, reindex (union_columns ds) <$> rows d) |}.

Fixpoint deref_all (ls : list ref) : M (list DataFrame) :=
  match ls with
  | [] => ret []
  | l :: ls' => d ← deref l; ds ← deref_all ls'; ret (d :: ds)
  end.

(** [pd.concat(dfs, ignore_index=True)]: refuses an empty list. *)
Definition concat (ls : list ref) : M ref :=
  match ls with
  | [] => raise ValueError
  | _ => ds ← deref_all ls; alloc (concat_frames ds)
  end.

(** *** Grouping and aggregation *)

(** The group key of a row: its string under the grouping label.  Rows with
    a missing key belong to no group. *)
Definition key_of (by_col : string) (r : row) : option string :=
  match cell r by_col with
  | Str s => Some s
  | _ => None
  end.

#[export] Instance string_le_dec (a b : string) :
  Decision (String.leb a b = true) := bool_eq_dec _ _.

Definition group_keys (by_col : string) (d : DataFrame) : list string :=
  merge_sort (λ a b, String.leb a b = true)
    (remove_dups (omap (key_of by_col) (rows d))).

Definition group_rows (by_col k : string) (d : DataFrame) : list row :=
  filter (λ r, key_of by_col r = Some k) (rows d).

(** [df.groupby(by_col)]: the groups in ascending order of their key, each
    with its rows in their order in the frame. *)
Definition groupby (by_col : string) (d : DataFrame)
    : exn + list (string * list row) :=
  if has_column by_col d
  then inr ((λ k, (k, group_rows by_col k d)) <$> group_keys by_col d)
  else inl (KeyError by_col).

(** The numbers of a series, missing cells skipped; a string cell makes
    every numeric reduction raise. *)
Fixpoint numbers (s : Series) : exn + list Q :=
  match s with
  | [] => inr []
  | Str _ :: _ => inl TypeError
  | NaN :: s' => numbers s'
  | Num q :: s' =>
      match numbers s' with
      | inl e => inl e
      | inr qs => inr (q :: qs)
      end
  end.

(** The library reduces and rounds in binary floating point.  What its
    kernels compute on the numbers of a group is the library's business,
    not the program's, so the kernels are parameters: the type of the
    floats that are not NaN; the float mean, median and sample standard
    deviation of a list of numbers, [None] standing for NaN; rounding to a
    number of decimals; and the order of two floats. *)
Class Numerics := {
  float : Type;
  float_mean : list Q → option float;
  float_median : list Q → option float;
  float_std : list Q → option float;
  round : nat → float → float;
  float_le : float → float → bool
}.

(** The reductions of the numbers of a group.  The library answers NaN
    before any arithmetic when the group holds no number and, for the
    sample standard deviation, when it holds fewer than two. *)
Definition mean {N : Numerics} (qs : list Q) : option float :=
  match qs with
  | [] => None
  | _ => float_mean qs
  end.

Definition median {N : Numerics} (qs : list Q) : option float :=
  match qs with
  | [] => None
  | _ => float_median qs
  end.

Definition std {N : Numerics} (qs : list Q) : option float :=
  if bool_decide (2 ≤ length qs) then float_std qs else None.

(** [s.sort_values(ascending=False)] on a series indexed by labels that
    holds no NaN.  The library reverses the series, sorts it in ascending
    order and reverses the outcome; on the short series of this program
    its sort is an insertion sort, which keeps equal values in order, so
    entries with equal values stay in the order of the series. *)
Fixpoint insert_asc {N : Numerics} (x : string * float)
    (l : list (string * float)) : list (string * float) :=
  match l with
  | [] => [x]
  | y :: l' => if float_le x.2 y.2 then x :: l else y :: insert_asc x l'
  end.

Definition sort_asc {N : Numerics} (s : list (string * float))
    : list (string * float) :=
  foldr insert_asc [] s.

Definition sort_values_desc {N : Numerics} (s : list (string * float))
    : list (string * float) :=
  reverse (sort_asc (reverse s)).

(** [s.dropna()] on a series indexed by labels. *)
Definition dropna {A} (s : list (string * option A)) : list (string * A) :=
  omap (λ kv, (λ x, (kv.1, x)) <$> kv.2) s.

(** [s.dropna()] on a column: the cells that are not missing, in order. *)
Definition is_missing (v : value) : bool :=
  match v with
  | NaN => true
  | _ => false
  end.

Definition dropna_values (s : Series) : Series :=
  filter (λ v, is_missing v = false) s.

(** Equality of two cells that are not missing, as [unique] sees it. *)
Definition value_eqb (a b : value) : bool :=
  match a, b with
  | Num x, Num y => bool_decide (x == y)%Q
  | Str x, Str y => bool_decide (x = y)
  | _, _ => false
  end.

(** [s.unique().tolist()] on a column without missing cells: the first
    occurrence of each value, in order. *)
Definition unique (s : Series) : list value :=
  foldl (λ seen v, if existsb (value_eqb v) seen then seen else seen ++ [v])
        [] s.

Definition string_of (v : value) : option string :=
  match v with
  | Str s => Some s
  | _ => None
  end.

Definition rational_of (v : value) : option Q :=
  match v with
  | Num q => Some q
  | _ => None
  end.

(** [sorted(vs)] on a list without missing values: strings sort among
    themselves, numbers among themselves, and a list that mixes the two
    cannot be ordered. *)
Definition sorted (vs : list value) : exn + list value :=
  match mapM string_of vs with
  | Some ss => inr (Str <$> merge_sort (λ a b, String.leb a b = true) ss)
  | None =>
      match mapM rational_of vs with
      | Some qs => inr (Num <$> merge_sort Qle qs)
      | None => inl TypeError
      end
  end.

End Pandas.

(** ** Paths and directory listings *)
Module Pathlib.

(** What a path names on disk: a regular file, or a directory with the names
    of its entries in the order the system lists them. *)
Inductive node :=
  | File
  | Dir (entries : list string).

(** A file system maps a path to what it names, if anything. *)
Abbreviation filesystem := (string → option node).

Definition exists_ (fs : filesystem) (p : string) : bool :=
  bool_decide (is_Some (fs p)).

(** Shell-style matching of a name against a pattern in which [*] stands for
    any run of characters; every other character stands for itself (the
    patterns of this program use no other wildcard). *)
Fixpoint glob_match (pat name : string) : bool :=
  match pat with
  | EmptyString => bool_decide (name = EmptyString)
  | String c pat' =>
      if bool_decide (c = "*"%char)
      then (fix star (name : string) : bool :=
              glob_match pat' name
              || match name with
                 | EmptyString => false
                 | String _ name' => star name'
                 end) name
      else match name with
           | EmptyString => false
           | String d name' => bool_decide (c = d) && glob_match pat' name'
           end
  end.

(** [str(p / name)] *)
Definition joinpath (p name : string) : string :=
  if bool_decide (p = ".") then name
  else if bool_decide (p = "/") then p +:+ name
  else p +:+ "/" +:+ name.

(** [list(p.glob(pat))]: the paths of the entries of the directory [p] whose
    name matches, in listing order; nothing when [p] is not a directory. *)
Definition glob (fs : filesystem) (p pat : string) : list string :=
  match fs p with
  | Some (Dir entries) =>
      joinpath p <$> filter (λ name, glob_match pat name = true) entries
  | _ => []
  end.

End Pathlib.

(** ** Insertion-ordered dictionaries with string keys *)
Module Dict.

Abbreviation dict V := (list (string * V)).

(** [d[k] = v]: a known key keeps its place, a new key goes last. *)
Fixpoint set {V} (k : string) (v : V) (d : dict V) : dict V :=
  match d with
  | [] => [(k, v)]
  | (k', v') :: d' =>
      if bool_decide (k = k') then (k, v) :: d' else (k', v') :: set k v d'
  end.

Fixpoint get {V} (k : string) (d : dict V) : option V :=
  match d with
  | [] => None
  | (k', v') :: d' => if bool_decide (k = k') then Some v' else get k d'
  end.

Definition keys {V} (d : dict V) : list string := d.*1.

End Dict.

(** ** [app/utils.py] *)
Module Utils.
Import Pandas Pathlib.

Definition coerce_numeric (parse : string → option Q)
    (df : ref) (cols : list string) : M ref :=
  out ← copy df;
  for_each cols (λ c,
    cs ← get_columns out;
    if bool_decide (c ∈ cs)
    then s ← getitem out c; setitem out c (to_numeric parse s)
    else ret tt) ;;
  ret out.

Definition daylight_filter (df : ref) (ghi_col : string) (threshold : Q)
    : M ref :=
  cs ← get_columns df;
  if bool_decide (ghi_col ∉ cs)
  then copy df
  else
    s ← getitem df ghi_col;
    mask ← lift (series_gt s threshold);
    sub ← select df mask;
    copy sub.

Definition globs : Dict.dict (list string) :=
  [ ("Benin", ["benin*clean.csv"; "benin_*.csv"; "benin.csv"]);
    ("Togo", ["togo*clean.csv"; "togo_*.csv"; "togo.csv"]);
    ("Sierra Leone",
       ["sierraleone*clean.csv"; "sierra*clean.csv"; "sierraleone.csv"]) ].

(** The inner loop over the patterns of one country: the first pattern with a
    match sets the entry and leaves the loop. *)
Fixpoint try_patterns (fs : filesystem) (data_dir country : string)
    (patterns : list string) (mapping : Dict.dict string)
    : Dict.dict string :=
  match patterns with
  | [] => mapping
  | pat :: patterns' =>
      match glob fs data_dir pat with
      | found0 :: _ => Dict.set country found0 mapping
      | [] => try_patterns fs data_dir country patterns' mapping
      end
  end.

Definition find_country_files (fs : filesystem) (data_dir : string)
    : Dict.dict string :=
  let mapping := [] in
  if negb (exists_ fs data_dir) then mapping
  else
    foldl (λ mapping '(country, patterns),
             try_patterns fs data_dir country patterns mapping)
          mapping globs.

End Utils.

(** ** [app/main.py] *)
Module Main.
Import Pandas Pathlib Utils.

(** *** String methods used for the label guess *)

(** [s.split(sep)[0]] for a one-character separator: what comes before its
    first occurrence, the whole string when there is none. *)
Fixpoint split_head (sep : ascii) (s : string) : string :=
  match s with
  | EmptyString => EmptyString
  | String c s' =>
      if bool_decide (c = sep) then EmptyString
      else String c (split_head sep s')
  end.

(** [s.replace(a, b)] for one-character [a] and [b] *)
Fixpoint replace (a b : ascii) (s : string) : string :=
  match s with
  | EmptyString => EmptyString
  | String c s' => String (if bool_decide (c = a) then b else c) (replace a b s')
  end.

Definition is_lower (c : ascii) : bool :=
  (97 <=? nat_of_ascii c)%nat && (nat_of_ascii c <=? 122)%nat.
Definition is_upper (c : ascii) : bool :=
  (65 <=? nat_of_ascii c)%nat && (nat_of_ascii c <=? 90)%nat.
Definition to_upper (c : ascii) : ascii :=
  if is_lower c then ascii_of_nat (nat_of_ascii c - 32) else c.
Definition to_lower (c : ascii) : ascii :=
  if is_upper c then ascii_of_nat (nat_of_ascii c + 32) else c.

(** [s.title()] on ASCII text: a letter that follows a letter is lowered, a
    letter that follows anything else is raised. *)
Fixpoint title_from (previous_is_cased : bool) (s : string) : string :=
  match s with
  | EmptyString => EmptyString
  | String c s' =>
      if is_lower c
      then String (if previous_is_cased then c else to_upper c)
                  (title_from true s')
      else if is_upper c
      then String (if previous_is_cased then to_lower c else c)
                  (title_from true s')
      else String c (title_from false s')
  end.

(** Text is given by its bytes in UTF-8; it is ASCII when every byte is
    below 128. *)
Fixpoint ascii_text (s : string) : bool :=
  match s with
  | EmptyString => true
  | String c s' => (nat_of_ascii c <? 128)%nat && ascii_text s'
  end.

(** On text that holds a character outside ASCII, title-casing consults
    the character database of the interpreter, which is no part of the
    program: it is a parameter. *)
Class Unicode := {
  unicode_title : string → string
}.

(** [s.title()] *)
Definition title {U : Unicode} (s : string) : string :=
  if ascii_text s then title_from false s else unicode_title s.

(** [f.name.split(".")[0].replace("_", " ").title()] *)
Definition guess {U : Unicode} (name : string) : string :=
  title (replace "_" " " (split_head "." name)).

(** *** Data input *)

Inductive mode :=
  | UseLocal
  | Upload.

(** An uploaded file: its name and the outcome of parsing its content. *)
Record uploaded := mkUpload {
  name : string;
  content : string + DataFrame
}.

(** [str(e)]; the message of a refused widget key is cut after its first
    sentence. *)
Definition exn_str (e : exn) : string :=
  match e with
  | ParseError msg => msg
  | KeyError k => "'" +:+ k +:+ "'"
  | TypeError => "unsupported operand"
  | ValueError => "invalid value"
  | DuplicateWidgetID key =>
      "There are multiple widgets with the same key='" +:+ key +:+ "'."
  end.

(** [st.sidebar.text_input(label, value=default, key=key)]: the content of
    the box, which [text_input] gives from the name of the file and the
    value the box is filled with at first.  Within one run of the script a
    key belongs to one widget: the call raises when [key] is among the keys
    taken before it. *)
Definition sidebar_text_input (text_input : string → string → string)
    (keys : list string) (key name default : string) : M string :=
  if bool_decide (key ∈ keys) then raise (DuplicateWidgetID key)
  else mret (text_input name default).

(** [f"lbl_{f.name}"] *)
Definition widget_key (f : uploaded) : string := "lbl_" +:+ name f.

(** The loop over the detected files.  [disk] gives the outcome of parsing
    the file at a path. *)
Fixpoint load_detected (disk : string → string + DataFrame)
    (items : list (string * string))
    (dfs : list ref) (status_msgs : list string)
    : M (list ref * list string) :=
  match items with
  | [] => mret (dfs, status_msgs)
  | (country, path) :: items' =>
      st ← try_except
        (df ← read_csv (disk path);
         setitem_scalar df "Country" (Str country);;
         mret (dfs ++ [df],
               status_msgs ++ ["Loaded: " +:+ country +:+ " ← " +:+ path]))
        (λ e,
         mret (dfs,
               status_msgs ++
                 ["❌ Failed to read " +:+ path +:+ ": " +:+ exn_str e]));
      load_detected disk items' st.1 st.2
  end.

(** The loop over the uploaded files.  [text_input name default] is what
    the label box of the file called [name] holds: [default] unless the user
    typed a label.  [keys] are the widget keys taken so far in the run. *)
Fixpoint load_uploads {U : Unicode} (text_input : string → string → string)
    (files : list uploaded) (keys : list string)
    (dfs : list ref) (status_msgs : list string)
    : M (list ref * list string) :=
  match files with
  | [] => mret (dfs, status_msgs)
  | f :: files' =>
      st ← try_except
        (df ← read_csv (content f);
         label ← sidebar_text_input text_input keys (widget_key f)
                   (name f) (guess (name f));
         setitem_scalar df "Country" (Str label);;
         mret (keys ++ [widget_key f],
               dfs ++ [df],
               status_msgs ++
                 ["Loaded upload: " +:+ label +:+ " (" +:+ name f +:+ ")"]))
        (λ e,
         mret (keys,
               dfs,
               status_msgs ++
                 ["❌ Failed to read " +:+ name f +:+ ": " +:+ exn_str e]));
      load_uploads text_input files' st.1.1 st.1.2 st.2
  end.

(** Lines 34-63: the frames loaded and the status messages, by source.  No
    widget before the upload loop has a key of its own. *)
Definition load {U : Unicode} (choice : mode) (detected : Dict.dict string)
    (disk : string → string + DataFrame)
    (text_input : string → string → string) (files : list uploaded)
    : M (list ref * list string) :=
  match choice with
  | UseLocal =>
      match detected with
      | [] => mret ([], [])
      | _ => load_detected disk detected [] []
      end
  | Upload => load_uploads text_input files [] [] []
  end.

(** Lines 72-76: with nothing loaded the script stops and there is no
    unified table; otherwise the frames are concatenated. *)
Definition unify (dfs : list ref) : M (option ref) :=
  match dfs with
  | [] => mret None
  | _ => df_all ← concat dfs; mret (Some df_all)
  end.

Definition ingest {U : Unicode} (choice : mode)
    (detected : Dict.dict string)
    (disk : string → string + DataFrame)
    (text_input : string → string → string) (files : list uploaded)
    : M (option ref * list string) :=
  st ← load choice detected disk text_input files;
  df_all ← unify st.1;
  mret (df_all, st.2).

(** The data-input part of the script from its start: the files are
    detected under [./data]. *)
Definition data_input {U : Unicode} (fs : filesystem) (choice : mode)
    (disk : string → string + DataFrame)
    (text_input : string → string → string) (files : list uploaded)
    : M (option ref * list string) :=
  ingest choice (find_country_files fs "data") disk text_input files.

(** *** Filters *)

Definition metrics_available (cols : list string) : list string :=
  filter (λ c, c ∈ cols) ["GHI"; "DNI"; "DHI"].

(** Line 87: the options of the country selector. *)
Definition countries (df_all : ref) : M (list value) :=
  country ← getitem df_all "Country";
  lift (sorted (unique (dropna_values country))).

(** Lines 81-91: the script stops when the unified table has no metric
    column, or no country label; otherwise the selectors get their
    options. *)
Inductive halt :=
  | NoMetrics
  | NoCountries.

Definition options (df_all : ref) : M (halt + list string * list value) :=
  cols ← get_columns df_all;
  match metrics_available cols with
  | [] => mret (inl NoMetrics)
  | _ =>
      labels ← countries df_all;
      match labels with
      | [] => mret (inl NoCountries)
      | _ => mret (inr (metrics_available cols, labels))
      end
  end.

(** Lines 100-103: the filtered view. *)
Definition view (parse : string → option Q) (df_all : ref)
    (selected_countries : list string) (daylight_only : bool) (ghi_thr : Q)
    : M ref :=
  cols ← get_columns df_all;
  country ← getitem df_all "Country";
  sub ← select df_all (isin selected_countries country);
  df_view ← copy sub;
  df_view ← coerce_numeric parse df_view (metrics_available cols ++ ["GHI"]);
  cols' ← get_columns df_view;
  if daylight_only && bool_decide ("GHI" ∈ cols')
  then daylight_filter df_view "GHI" ghi_thr
  else mret df_view.

(** *** Aggregation *)

Definition cells (c : string) (rs : list row) : Series :=
  (λ r, cell r c) <$> rs.

(** One block of the summary: mean, median and standard deviation. *)
Definition stats (A : Type) : Type := (option A * option A * option A)%type.

(** [.agg(["mean", "median", "std"])] on one column of one group *)
Definition agg {N : Numerics} (s : Series) : exn + stats float :=
  do qs <- numbers s;
  inr (mean qs, median qs, std qs).

(** [.round(2)] on one block: a missing entry stays missing. *)
Definition round_stats {N : Numerics} (st : stats float) : stats float :=
  (round 2 <$> st.1.1, round 2 <$> st.1.2, round 2 <$> st.2).

(** [df_view.groupby("Country")[metrics].agg(["mean", "median", "std"])] *)
Definition agg_table {N : Numerics} (df_view : DataFrame)
    (metrics : list string)
    : exn + list (string * list (string * stats float)) :=
  do groups <- groupby "Country" df_view;
  match filter (λ m, has_column m df_view = false) metrics with
  | m :: _ => inl (KeyError m)
  | [] =>
      mapE (λ g, do blocks <- mapE (λ m, do st <- agg (cells m g.2);
                                          inr (m, st)) metrics;
                 inr (g.1, blocks))
           groups
  end.

(** [.round(2)] on the aggregated table *)
Definition round_table {N : Numerics}
    (t : list (string * list (string * stats float)))
    : list (string * list (string * stats float)) :=
  (λ g : string * list (string * stats float),
     (g.1, (λ b : string * stats float, (b.1, round_stats b.2)) <$> g.2)) <$> t.

(** Lines 122-126 *)
Definition summary {N : Numerics} (df_view : DataFrame)
    (metrics : list string)
    : exn + list (string * list (string * stats float)) :=
  do t <- agg_table df_view metrics;
  inr (round_table t).

(** [df_view.groupby("Country")["GHI"].mean()] *)
Definition group_means {N : Numerics} (df_view : DataFrame)
    : exn + list (string * option float) :=
  do groups <- groupby "Country" df_view;
  mapE (λ g, do qs <- numbers (cells "GHI" g.2); inr (g.1, mean qs)) groups.

(** Lines 132-139 and 150: the ranking, or nothing when the view has no
    GHI column. *)
Definition rank {N : Numerics} (df_view : DataFrame)
    : exn + option (list (string * float)) :=
  if has_column "GHI" df_view
  then
    do means <- group_means df_view;
    inr (Some ((λ kv : string * float, (kv.1, round 2 kv.2))
                 <$> sort_values_desc (dropna means)))
  else inr None.

End Main.

(** ** What the stateful functions compute, as functions on frame values *)
Module Content.
Import Pandas Pathlib Utils Main.

(** A cell that a numeric column can hold: a number or the missing-value
    marker. *)
Definition numeric (v : value) : Prop :=
  match v with
  | Str _ => False
  | _ => True
  end.

#[export] Instance numeric_dec v : Decision (numeric v).
Proof. destruct v; simpl; apply _. Defined.

(** One turn of the loop of [coerce_numeric]. *)
Definition coerce_column (parse : string → option Q) (d : DataFrame)
    (c : string) : DataFrame :=
  if has_column c d
  then set_column c (to_numeric parse (column c d)) d
  else d.

Definition coerce_frame (parse : string → option Q) (cols : list string)
    (d : DataFrame) : DataFrame :=
  foldl (coerce_column parse) d cols.

(** The same turn and loop, seen on one row. *)
Definition coerce_cell (parse : string → option Q) (r : row) (c : string)
    : row :=
  <[c := to_numeric_value parse (cell r c)]> r.

Definition coerce_row (parse : string → option Q) (cs : list string)
    (r : row) : row :=
  foldl (coerce_cell parse) r cs.

(** The rows that the daylight filter keeps: a number above the threshold. *)
Definition greater (threshold : Q) (c : string) (r : row) : Prop :=
  match cell r c with
  | Num q => (threshold < q)%Q
  | _ => False
  end.

#[export] Instance greater_dec threshold c r : Decision (greater threshold c r).
Proof. unfold greater. destruct (cell r c); apply _. Defined.

Definition filter_frame (threshold : Q) (c : string) (d : DataFrame)
    : DataFrame :=
  {| columns := columns d; rows := filter (greater threshold c) (rows d) |}.

(** The numbers a group holds under a column: the cells of the rows of the
    group that are numbers, in row order. *)
Definition number_of (v : value) : option Q :=
  match v with
  | Num q => Some q
  | _ => None
  end.

Definition group_numbers (c k : string) (d : DataFrame) : list Q :=
  omap (λ r, number_of (cell r c)) (group_rows "Country" k d).


(** The rows the country selection keeps: a label among the selected. *)
Definition in_selection (selected_countries : list string) (r : row) : Prop :=
  match cell r "Country" with
  | Str k => k ∈ selected_countries
  | _ => False
  end.

#[export] Instance in_selection_dec selected_countries r :
  Decision (in_selection selected_countries r).
Proof. unfold in_selection. destruct (cell r "Country"); apply _. Defined.

(** The filtered view as a frame value: the rows of the selected countries,
    the metric columns coerced, the daylight filter applied when it is on
    and the view has a GHI column. *)
Definition select_countries (selected_countries : list string)
    (d : DataFrame) : DataFrame :=
  {| columns := columns d;
     rows := mask_rows (rows d) (isin selected_countries (column "Country" d)) |}.

Definition view_frame (parse : string → option Q)
    (selected_countries : list string) (daylight_only : bool) (ghi_thr : Q)
    (d : DataFrame) : DataFrame :=
  let coerced :=
    coerce_frame parse (metrics_available (columns d) ++ ["GHI"])
                 (select_countries selected_countries d) in
  if daylight_only && bool_decide ("GHI" ∈ columns coerced)
  then filter_frame ghi_thr "GHI" coerced
  else coerced.

(** The first pattern of a list with a match, and its first match. *)
Fixpoint first_hit (fs : filesystem) (data_dir : string)
    (patterns : list string) : option string :=
  match patterns with
  | [] => None
  | pat :: patterns' =>
      match glob fs data_dir pat with
      | found0 :: _ => Some found0
      | [] => first_hit fs data_dir patterns'
      end
  end.

(** The label of an entry of the pattern table when one of its patterns has
    a match. *)
Definition hit (fs : filesystem) (data_dir : string)
    (entry : string * list string) : option string :=
  match first_hit fs data_dir entry.2 with
  | Some _ => Some entry.1
  | None => None
  end.

(** A frame with its label column set, as the loading loops leave it. *)
Definition tag (country : string) (d : DataFrame) : DataFrame :=
  set_column "Country" (replicate (length (rows d)) (Str country)) d.

(** What one detected file contributes: its labelled frame when it parses,
    and its status message. *)
Definition labelled (disk : string → string + DataFrame)
    (item : string * string) : option DataFrame :=
  match disk item.2 with
  | inr d => Some (tag item.1 d)
  | inl _ => None
  end.

Definition status_of (disk : string → string + DataFrame)
    (item : string * string) : string :=
  match disk item.2 with
  | inr _ => "Loaded: " +:+ item.1 +:+ " ← " +:+ item.2
  | inl msg => "❌ Failed to read " +:+ item.2 +:+ ": " +:+ msg
  end.

(** The same for an uploaded file whose label box is accepted; its label
    is what the box holds. *)
Definition upload_label {U : Unicode} (text_input : string → string → string)
    (f : uploaded) : string :=
  text_input (name f) (guess (name f)).

Definition uploaded_frame {U : Unicode}
    (text_input : string → string → string)
    (f : uploaded) : option DataFrame :=
  match content f with
  | inr d => Some (tag (upload_label text_input f) d)
  | inl _ => None
  end.

Definition upload_status {U : Unicode}
    (text_input : string → string → string)
    (f : uploaded) : string :=
  match content f with
  | inr _ =>
      "Loaded upload: " +:+ upload_label text_input f
        +:+ " (" +:+ name f +:+ ")"
  | inl msg => "❌ Failed to read " +:+ name f +:+ ": " +:+ msg
  end.

(** The files that parse, in order, each with its label and its table. *)
Definition parsed_files (disk : string → string + DataFrame)
    (detected : list (string * string)) : list (string * DataFrame) :=
  omap (λ item, match disk item.2 with
                | inr d => Some (item.1, d)
                | inl _ => None
                end) detected.

Definition parsed_uploads {U : Unicode}
    (text_input : string → string → string)
    (files : list uploaded) : list (string * DataFrame) :=
  omap (λ f, match content f with
             | inr d => Some (upload_label text_input f, d)
             | inl _ => None
             end) files.

(** The upload loop, file by file, from the widget keys taken before it.
    A file that does not parse leaves no trace but its status entry.  A
    file that parses is read into a new object; it is loaded when the key
    of its label box is free, and the key is taken from then on; otherwise
    its object is dropped and its status entry reports the refusal. *)
Fixpoint loaded_uploads {U : Unicode}
    (text_input : string → string → string)
    (keys : list string) (files : list uploaded) : list (string * DataFrame) :=
  match files with
  | [] => []
  | f :: files' =>
      match content f with
      | inr d =>
          if bool_decide (widget_key f ∈ keys)
          then loaded_uploads text_input keys files'
          else (upload_label text_input f, d)
               :: loaded_uploads text_input (keys ++ [widget_key f]) files'
      | inl _ => loaded_uploads text_input keys files'
      end
  end.

Fixpoint upload_objects {U : Unicode}
    (text_input : string → string → string)
    (keys : list string) (files : list uploaded) : list DataFrame :=
  match files with
  | [] => []
  | f :: files' =>
      match content f with
      | inr d =>
          if bool_decide (widget_key f ∈ keys)
          then d :: upload_objects text_input keys files'
          else tag (upload_label text_input f) d
               :: upload_objects text_input (keys ++ [widget_key f]) files'
      | inl _ => upload_objects text_input keys files'
      end
  end.

Fixpoint upload_refs (next : ref) (keys : list string)
    (files : list uploaded) : list ref :=
  match files with
  | [] => []
  | f :: files' =>
      match content f with
      | inr d =>
          if bool_decide (widget_key f ∈ keys)
          then upload_refs (S next) keys files'
          else next :: upload_refs (S next) (keys ++ [widget_key f]) files'
      | inl _ => upload_refs next keys files'
      end
  end.

Fixpoint upload_log {U : Unicode}
    (text_input : string → string → string)
    (keys : list string) (files : list uploaded) : list string :=
  match files with
  | [] => []
  | f :: files' =>
      match content f with
      | inr d =>
          if bool_decide (widget_key f ∈ keys)
          then ("❌ Failed to read " +:+ name f +:+ ": "
                  +:+ exn_str (DuplicateWidgetID (widget_key f)))
               :: upload_log text_input keys files'
          else ("Loaded upload: " +:+ upload_label text_input f
                  +:+ " (" +:+ name f +:+ ")")
               :: upload_log text_input (keys ++ [widget_key f]) files'
      | inl msg =>
          ("❌ Failed to read " +:+ name f +:+ ": " +:+ msg)
          :: upload_log text_input keys files'
      end
  end.

(** An upload that parses. *)
Definition parses (f : uploaded) : Prop :=
  match content f with
  | inr _ => True
  | inl _ => False
  end.

#[export] Instance parses_dec f : Decision (parses f).
Proof. unfold parses. destruct (content f); apply _. Defined.

(** A table whose rows all carry a label: it has the label column and every
    row holds a string under it. *)
Definition labelled_table (d : DataFrame) : Prop :=
  "Country" ∈ columns d ∧
  Forall (λ r, ∃ k, cell r "Country" = Str k) (rows d).

(** A status entry reports a failure when it starts with the cross mark. *)
Definition is_failure (entry : string) : bool :=
  match entry with
  | String "226" (String "157" (String "140" _)) => true
  | _ => false
  end.


Fixpoint has_char (a : ascii) (s : string) : bool :=
  match s with
  | EmptyString => false
  | String c s' => bool_decide (c = a) || has_char a s'
  end.

(** The label the specification words describe: the file name without its
    extension (its last dot and what follows it), underscores turned into
    spaces, title-cased. *)
Fixpoint strip_extension (s : string) : string :=
  match s with
  | EmptyString => EmptyString
  | String c s' =>
      if bool_decide (c = "."%char) && negb (has_char "." s')
      then EmptyString
      else String c (strip_extension s')
  end.

Definition spec_label {U : Unicode} (name : string) : string :=
  title (replace "_" " " (strip_extension name)).

End Content.

(** ** The binary64 kernels

    One implementation of the numeric kernels, on the Standard Library's
    specification of IEEE 754 arithmetic at precision 53: the reductions as
    the library's group kernels compute them and rounding as [numpy] does
    it.  The samples are evaluated with it. *)
Module Float64.
Import SpecFloat Pandas.

Definition prec : Z := 53.
Definition emax : Z := 1024.

Abbreviation binary64 := spec_float.

Definition add : binary64 → binary64 → binary64 := SFadd prec emax.
Definition sub : binary64 → binary64 → binary64 := SFsub prec emax.
Definition mul : binary64 → binary64 → binary64 := SFmul prec emax.
Definition div : binary64 → binary64 → binary64 := SFdiv prec emax.
Definition sqrt : binary64 → binary64 := SFsqrt prec emax.

Definition is_nan (x : binary64) : bool :=
  match x with
  | S754_nan => true
  | _ => false
  end.

(** The float of an integer. *)
Definition of_Z (z : Z) : binary64 := binary_normalize prec emax z 0 false.

(** The float nearest to a rational: the quotient of its numerator by its
    denominator, rounded once. *)
Definition of_Q (q : Q) : binary64 :=
  match Qnum q with
  | Z0 => S754_zero false
  | Zpos n => div (S754_finite false n 0) (S754_finite false (Qden q) 0)
  | Zneg n => div (S754_finite true n 0) (S754_finite false (Qden q) 0)
  end.

(** The floats that are not NaN, by their value. *)
Inductive float64 :=
  | Finite (q : Q)
  | Infinity (negative : bool).

Definition rational (s : bool) (m : positive) (e : Z) : Q :=
  let n := if s then Zneg m else Zpos m in
  match e with
  | Z0 => inject_Z n
  | Zpos p => inject_Z (n * 2 ^ Zpos p)
  | Zneg p => Qred (n # (2 ^ p))
  end.

Definition of_spec (x : binary64) : option float64 :=
  match x with
  | S754_zero _ => Some (Finite 0)
  | S754_infinity s => Some (Infinity s)
  | S754_nan => None
  | S754_finite s m e => Some (Finite (rational s m e))
  end.

Definition to_spec (x : float64) : binary64 :=
  match x with
  | Finite q => of_Q q
  | Infinity s => S754_infinity s
  end.

(** [numpy.rint]: the nearest integer, ties to the even one. *)
Definition rint (x : binary64) : binary64 :=
  match x with
  | S754_finite s m (Zneg k) =>
      let d := (2 ^ Zpos k)%Z in
      let f := (Zpos m / d)%Z in
      let twice := (2 * (Zpos m mod d))%Z in
      let n := if (twice <? d)%Z then f
               else if (d <? twice)%Z then (f + 1)%Z
               else if Z.even f then f else (f + 1)%Z in
      binary_normalize prec emax (if s then - n else n)%Z 0 s
  | _ => x
  end.

(** [numpy.round(x, decimals)]: scale, round to an integer, scale back. *)
Definition around (decimals : nat) (x : binary64) : binary64 :=
  let scale := of_Z (10 ^ Z.of_nat decimals) in
  div (rint (mul x scale)) scale.

(** The mean kernel: a compensated sum of the numbers in order, divided by
    their count. *)
Definition kahan_step (acc : binary64 * binary64) (val : binary64)
    : binary64 * binary64 :=
  let '(sumx, compensation) := acc in
  let y := sub val compensation in
  let t := add sumx y in
  let c := sub (sub t sumx) y in
  (t, if is_nan c then S754_zero false else c).

Definition group_mean (qs : list Q) : binary64 :=
  let sumx := (foldl kahan_step (S754_zero false, S754_zero false)
                     (of_Q <$> qs)).1 in
  div sumx (of_Z (Z.of_nat (length qs))).

(** The median kernel: the middle number, or the half sum of the two middle
    numbers. *)
Definition group_median (qs : list Q) : binary64 :=
  let sorted := merge_sort Qle qs in
  let n := length qs in
  if Nat.even n
  then match sorted !! (n / 2 - 1)%nat, sorted !! (n / 2)%nat with
       | Some a, Some b => div (add (of_Q b) (of_Q a)) (of_Z 2)
       | _, _ => S754_nan
       end
  else match sorted !! (n / 2)%nat with
       | Some a => of_Q a
       | None => S754_nan
       end.

(** The variance kernel: one pass that updates the running mean and the sum
    of squared deviations. *)
Definition welford_step (acc : Z * binary64 * binary64) (val : binary64)
    : Z * binary64 * binary64 :=
  let '(nobs, mean, m2) := acc in
  let nobs' := (nobs + 1)%Z in
  let mean' := add mean (div (sub val mean) (of_Z nobs')) in
  (nobs', mean', add m2 (mul (sub val mean') (sub val mean))).

Definition group_std (qs : list Q) : binary64 :=
  let '(nobs, _, m2) :=
    foldl welford_step (0%Z, S754_zero false, S754_zero false) (of_Q <$> qs) in
  sqrt (div m2 (of_Z (nobs - 1))).

Definition leb (x y : float64) : bool :=
  match x, y with
  | Infinity true, _ => true
  | _, Infinity false => true
  | Finite a, Finite b => bool_decide (Qnum a * QDen b <= Qnum b * QDen a)%Z
  | _, _ => false
  end.



(** [x.round(decimals)] on a float that is not NaN; the outcome is not NaN
    either. *)
Definition round_value (decimals : nat) (x : float64) : float64 :=
  default x (of_spec (around decimals (to_spec x))).

Definition numerics : Numerics :=
  {| float := float64;
     float_mean := λ qs, of_spec (group_mean qs);
     float_median := λ qs, of_spec (group_median qs);
     float_std := λ qs, of_spec (group_std qs);
     round := round_value;
     float_le := leb |}.

End Float64.

(** ** Sample data *)
Module Examples.
Import Pandas Pathlib Utils Main Content.

(** A number parser for the samples: unsigned decimal integers only. *)
Definition digit (c : ascii) : option Z :=
  let n := nat_of_ascii c in
  if (48 <=? n)%nat && (n <=? 57)%nat then Some (Z.of_nat (n - 48)) else None.

Fixpoint digits_from (acc : Z) (s : string) : option Z :=
  match s with
  | EmptyString => Some acc
  | String c s' =>
      match digit c with
      | Some d => digits_from (10 * acc + d) s'
      | None => None
      end
  end.

Definition parse_digits (s : string) : option Q :=
  match s with
  | EmptyString => None
  | _ => inject_Z <$> digits_from 0 s
  end.

(** A table as read from a file: a text column next to the readings, and
    readings that are not all numbers. *)
Definition reading (ghi note : value) : row :=
  list_to_map [("GHI", ghi); ("Note", note)].

Definition readings : DataFrame :=
  {| columns := ["GHI"; "Note"];
     rows := [ reading (Num 10) (Str "dawn");
               reading (Str "35") NaN;
               reading (Str "--") (Str "sensor off");
               reading NaN NaN;
               reading (Num (241 # 2)) (Str "noon") ] |}.

(** The same table with its readings already numeric. *)
Definition clean_readings : DataFrame :=
  {| columns := ["GHI"; "Note"];
     rows := [ reading (Num 10) (Str "dawn");
               reading (Num 35) NaN;
               reading NaN (Str "sensor off");
               reading NaN NaN;
               reading (Num (241 # 2)) (Str "noon") ] |}.

(** A filtered view of three countries: A with mean GHI 120.5, B with mean
    GHI 95, C with no GHI reading. *)
Definition sample (country : string) (ghi : value) : row :=
  list_to_map [("GHI", ghi); ("Country", Str country)].

Definition ranking_sample : DataFrame :=
  {| columns := ["GHI"; "Country"];
     rows := [ sample "B" (Num 95); sample "A" (Num 120); sample "C" NaN;
               sample "A" (Num 121); sample "C" NaN ] |}.


(** A unified table of two countries; every reading of B is below the
    default daylight threshold. *)
Definition two_countries : DataFrame :=
  {| columns := ["GHI"; "Country"];
     rows := [ sample "A" (Num 100); sample "B" (Num 10);
               sample "A" (Num 300); sample "B" (Num 15) ] |}.

(** Three detected files, the second of which does not parse. *)
Definition site (ghi : list Q) : DataFrame :=
  {| columns := ["GHI"];
     rows := (λ q, {["GHI" := Num q]}) <$> ghi |}.

Definition sample_disk (path : string) : string + DataFrame :=
  if bool_decide (path = "data/benin_clean.csv") then inr (site [100; 10]%Q)
  else if bool_decide (path = "data/sierraleone_clean.csv")
  then inr clean_readings
  else inl "Error tokenizing data".

Definition sample_detected : Dict.dict string :=
  [ ("Benin", "data/benin_clean.csv");
    ("Togo", "data/togo_clean.csv");
    ("Sierra Leone", "data/sierraleone_clean.csv") ].

(** Three uploads, the second of which does not parse. *)
Definition sample_uploads : list uploaded :=
  [ mkUpload "benin.csv" (inr (site [100; 10]%Q));
    mkUpload "togo.csv" (inl "Error tokenizing data");
    mkUpload "sierra_leone_clean.csv" (inr clean_readings) ].

(** Three uploads again: one does not parse and the two others have the
    same name. *)
Definition same_name_uploads : list uploaded :=
  [ mkUpload "site.csv" (inr (site [100; 10]%Q));
    mkUpload "togo.csv" (inl "Error tokenizing data");
    mkUpload "site.csv" (inr (site [300; 20; 5]%Q)) ].

(** The unified table of the first and the third file of the samples, under
    two labels. *)
Definition unified_row (ghi note : value) (country : string) : row :=
  list_to_map [("GHI", ghi); ("Country", Str country); ("Note", note)].

Definition unified_sample (first third : string) : DataFrame :=
  {| columns := ["GHI"; "Country"; "Note"];
     rows := [ unified_row (Num 100) NaN first;
               unified_row (Num 10) NaN first;
               unified_row (Num 10) (Str "dawn") third;
               unified_row (Num 35) NaN third;
               unified_row NaN (Str "sensor off") third;
               unified_row NaN NaN third;
               unified_row (Num (241 # 2)) (Str "noon") third ] |}.

(** The names of the samples are ASCII, so that the character database is
    never consulted: any will do. *)
Definition no_database : Unicode := {| unicode_title := λ s, s |}.

(** No label is typed by the user. *)
Definition keep_default (name default : string) : string := default.

(** A file system whose only directory is [data]. *)
Definition data_holding (entries : list string) : filesystem :=
  λ p, if bool_decide (p = "data") then Some (Dir entries) else None.

End Examples.

(** ** Facts about the library model *)
Module PandasFacts.
Import Pandas Content.

Lemma bind_ok {A B} (m : M A) (k : A → M B) σ a σ' :
  m σ = (inr a, σ') → (m ≫= k) σ = k a σ'.
Proof. intros H. unfold mbind, M_bind, bind. by rewrite H. Qed.

Lemma bind_raise {A B} (m : M A) (k : A → M B) σ e σ' :
  m σ = (inl e, σ') → (m ≫= k) σ = (inl e, σ').
Proof. intros H. unfold mbind, M_bind, bind. by rewrite H. Qed.

Lemma deref_ok σ l d : σ !! l = Some d → deref l σ = (inr d, σ).
Proof. intros H. unfold deref. by rewrite H. Qed.

Lemma copy_ok σ l d :
  σ !! l = Some d → copy l σ = (inr (length σ), σ ++ [d]).
Proof. intros H. unfold copy. by rewrite (bind_ok _ _ _ _ _ (deref_ok _ _ _ H)). Qed.

Lemma get_columns_ok σ l d :
  σ !! l = Some d → get_columns l σ = (inr (columns d), σ).
Proof.
  intros H. unfold get_columns.
  by rewrite (bind_ok _ _ _ _ _ (deref_ok _ _ _ H)).
Qed.

Lemma getitem_ok σ l d c :
  σ !! l = Some d → c ∈ columns d → getitem l c σ = (inr (column c d), σ).
Proof.
  intros H Hc. unfold getitem.
  rewrite (bind_ok _ _ _ _ _ (deref_ok _ _ _ H)).
  unfold has_column. by rewrite bool_decide_eq_true_2.
Qed.

Lemma setitem_ok σ l d c s :
  σ !! l = Some d → length s = length (rows d) →
  setitem l c s σ = (inr tt, <[l := set_column c s d]> σ).
Proof.
  intros H Hlen. unfold setitem.
  rewrite (bind_ok _ _ _ _ _ (deref_ok _ _ _ H)).
  by rewrite bool_decide_eq_true_2.
Qed.

Lemma setitem_scalar_ok σ l d c v :
  σ !! l = Some d →
  setitem_scalar l c v σ
  = (inr tt, <[l := set_column c (replicate (length (rows d)) v) d]> σ).
Proof.
  intros H. unfold setitem_scalar.
  by rewrite (bind_ok _ _ _ _ _ (deref_ok _ _ _ H)).
Qed.

Lemma select_ok σ l d mask :
  σ !! l = Some d → length mask = length (rows d) →
  select l mask σ
  = (inr (length σ),
     σ ++ [{| columns := columns d; rows := mask_rows (rows d) mask |}]).
Proof.
  intros H Hlen. unfold select.
  rewrite (bind_ok _ _ _ _ _ (deref_ok _ _ _ H)).
  by rewrite bool_decide_eq_true_2.
Qed.

(** The newest object of a store is the one just appended. *)
Lemma lookup_snoc (σ : store) d : (σ ++ [d]) !! length σ = Some d.
Proof. by rewrite lookup_app_r, Nat.sub_diag. Qed.

Lemma insert_snoc (σ : store) d d' : <[length σ := d']> (σ ++ [d]) = σ ++ [d'].
Proof. by rewrite insert_app_r_alt, Nat.sub_diag. Qed.

Lemma lookup_snoc_old (σ : store) d l :
  l < length σ → (σ ++ [d]) !! l = σ !! l.
Proof. intros. by rewrite lookup_app_l. Qed.

End PandasFacts.

(** ** Facts about [app/utils.py] *)
Module UtilsFacts.
Import Pandas Pathlib Utils Content PandasFacts.

Section Coerce.
Context (parse : string → option Q).

Lemma to_numeric_value_idem v :
  to_numeric_value parse (to_numeric_value parse v) = to_numeric_value parse v.
Proof. destruct v as [q|s|]; simpl; [done| |done]. by destruct (parse s). Qed.

Lemma to_numeric_value_numeric v : numeric (to_numeric_value parse v).
Proof. destruct v as [q|s|]; simpl; [done| |done]. by destruct (parse s). Qed.

Lemma cell_insert r c c' v :
  cell (<[c := v]> r) c' = if decide (c = c') then v else cell r c'.
Proof. unfold cell. rewrite lookup_insert. by destruct (decide (c = c')). Qed.

Lemma coerce_column_columns d c :
  columns (coerce_column parse d c) = columns d.
Proof.
  unfold coerce_column. destruct (has_column c d) eqn:E; [|done].
  simpl. by rewrite E.
Qed.

Lemma coerce_column_rows d c :
  c ∈ columns d →
  rows (coerce_column parse d c) = (λ r, coerce_cell parse r c) <$> rows d.
Proof.
  intros Hc. unfold coerce_column, has_column.
  rewrite bool_decide_eq_true_2 by done. simpl.
  unfold to_numeric, column. rewrite <- list_fmap_compose.
  rewrite zip_with_fmap_r, zip_with_diag. done.
Qed.

Lemma coerce_column_absent d c : c ∉ columns d → coerce_column parse d c = d.
Proof.
  intros Hc. unfold coerce_column, has_column.
  by rewrite bool_decide_eq_false_2.
Qed.

Lemma coerce_frame_eq cols d :
  coerce_frame parse cols d
  = {| columns := columns d;
       rows := coerce_row parse (filter (.∈ columns d) cols) <$> rows d |}.
Proof.
  revert d. induction cols as [|c cols IH]; intros d.
  - simpl. rewrite list_fmap_id. by destruct d.
  - unfold coerce_frame in *. simpl. rewrite IH, coerce_column_columns.
    f_equal. destruct (decide (c ∈ columns d)) as [Hc|Hc].
    + rewrite coerce_column_rows, filter_cons_True by done.
      by rewrite <- list_fmap_compose.
    + by rewrite coerce_column_absent, filter_cons_False.
Qed.

Lemma coerce_row_lookup cs r c :
  coerce_row parse cs r !! c
  = if decide (c ∈ cs) then Some (to_numeric_value parse (cell r c))
    else r !! c.
Proof.
  revert r. induction cs as [|a cs IH]; intros r.
  - by rewrite decide_False by apply not_elem_of_nil.
  - unfold coerce_row in *. simpl. rewrite IH. unfold coerce_cell.
    rewrite cell_insert, lookup_insert.
    rewrite (decide_ext (c ∈ a :: cs) (c = a ∨ c ∈ cs)) by apply elem_of_cons.
    destruct (decide (a = c)) as [->|Hne], (decide (c ∈ cs)) as [Hin|Hin];
      rewrite ?to_numeric_value_idem;
      destruct (decide (_ ∨ _)) as [Hor|Hor]; try done; exfalso;
      first [ apply Hor; by auto | destruct Hor; by auto ].
Qed.

Lemma coerce_row_cell cs r c :
  cell (coerce_row parse cs r) c
  = if decide (c ∈ cs) then to_numeric_value parse (cell r c) else cell r c.
Proof. unfold cell at 1. rewrite coerce_row_lookup. by destruct (decide _). Qed.

Lemma coerce_row_idem cs r :
  coerce_row parse cs (coerce_row parse cs r) = coerce_row parse cs r.
Proof.
  apply map_eq. intros c. rewrite !coerce_row_lookup, coerce_row_cell.
  destruct (decide (c ∈ cs)); [|done].
  by rewrite to_numeric_value_idem.
Qed.

Lemma coerce_frame_idem cols d :
  coerce_frame parse cols (coerce_frame parse cols d)
  = coerce_frame parse cols d.
Proof.
  rewrite (coerce_frame_eq cols (coerce_frame _ _ _)).
  rewrite !coerce_frame_eq. simpl. f_equal.
  rewrite <- list_fmap_compose. apply list_fmap_ext.
  intros i r _. simpl. apply coerce_row_idem.
Qed.

(** The loop of [coerce_numeric] works on the copy alone. *)
Lemma coerce_loop σ d0 cols :
  for_each cols (λ c,
    cs ← get_columns (length σ);
    if bool_decide (c ∈ cs)
    then s ← getitem (length σ) c;
         setitem (length σ) c (to_numeric parse s)
    else ret tt) (σ ++ [d0])
  = (inr tt, σ ++ [coerce_frame parse cols d0]).
Proof.
  revert d0. induction cols as [|c cols IH]; intros d0; [done|].
  simpl.
  assert (Hout : (σ ++ [d0]) !! length σ = Some d0) by apply lookup_snoc.
  erewrite bind_ok; [apply (IH (coerce_column parse d0 c))|].
  rewrite (bind_ok _ _ _ _ _ (get_columns_ok _ _ _ Hout)).
  destruct (decide (c ∈ columns d0)) as [Hc|Hc].
  - rewrite bool_decide_eq_true_2 by done.
    rewrite (bind_ok _ _ _ _ _ (getitem_ok _ _ _ _ Hout Hc)).
    rewrite (setitem_ok _ _ d0).
    + rewrite insert_snoc. unfold coerce_column, has_column.
      by rewrite bool_decide_eq_true_2.
    + done.
    + unfold to_numeric, column. by rewrite !length_fmap.
  - rewrite bool_decide_eq_false_2 by done.
    by rewrite coerce_column_absent.
Qed.

Lemma coerce_numeric_run σ l d cols :
  σ !! l = Some d →
  coerce_numeric parse l cols σ
  = (inr (length σ), σ ++ [coerce_frame parse cols d]).
Proof.
  intros H. unfold coerce_numeric.
  rewrite (bind_ok _ _ _ _ _ (copy_ok _ _ _ H)).
  by rewrite (bind_ok _ _ _ _ _ (coerce_loop σ d cols)).
Qed.

End Coerce.

Lemma series_gt_numeric s threshold :
  Forall numeric s →
  series_gt s threshold
  = inr ((λ v, match v with
               | Num q => bool_decide (threshold < q)%Q
               | _ => false
               end) <$> s).
Proof.
  induction 1 as [|v s Hv _ IH]; [done|].
  simpl. rewrite IH. by destruct v.
Qed.

Lemma series_gt_string s threshold :
  ¬ Forall numeric s → series_gt s threshold = inl TypeError.
Proof.
  induction s as [|v s IH]; intros Hs.
  - by destruct Hs.
  - destruct v as [q|x|]; simpl; [|done|].
    + rewrite IH; [done|]. intros ?. apply Hs. by constructor.
    + rewrite IH; [done|]. intros ?. apply Hs. by constructor.
Qed.

Lemma mask_rows_greater threshold c rs :
  mask_rows rs ((λ v, match v with
                      | Num q => bool_decide (threshold < q)%Q
                      | _ => false
                      end) <$> ((λ r, cell r c) <$> rs))
  = filter (greater threshold c) rs.
Proof.
  induction rs as [|r rs IH]; [done|].
  rewrite !fmap_cons, filter_cons. cbn [mask_rows]. rewrite IH.
  destruct (decide (greater threshold c r)) as [H|H]; unfold greater in H;
    destruct (cell r c) as [q|x|]; try done.
  - by rewrite bool_decide_eq_true_2.
  - by rewrite bool_decide_eq_false_2.
Qed.

Lemma greater_iff threshold c r :
  greater threshold c r ↔ ∃ q, cell r c = Num q ∧ (threshold < q)%Q.
Proof.
  unfold greater. destruct (cell r c) as [q|x|].
  - split; [eauto|]. by intros (q' & [= ->] & ?).
  - split; [done|]. by intros (? & ? & ?).
  - split; [done|]. by intros (? & ? & ?).
Qed.

Lemma daylight_filter_absent σ l d c threshold :
  σ !! l = Some d → c ∉ columns d →
  daylight_filter l c threshold σ = (inr (length σ), σ ++ [d]).
Proof.
  intros H Hc. unfold daylight_filter.
  rewrite (bind_ok _ _ _ _ _ (get_columns_ok _ _ _ H)).
  rewrite bool_decide_eq_true_2 by done. by apply copy_ok.
Qed.

Lemma daylight_filter_numeric σ l d c threshold :
  σ !! l = Some d → c ∈ columns d → Forall numeric (column c d) →
  daylight_filter l c threshold σ
  = (inr (S (length σ)),
     σ ++ [filter_frame threshold c d; filter_frame threshold c d]).
Proof.
  intros H Hc Hnum. unfold daylight_filter.
  rewrite (bind_ok _ _ _ _ _ (get_columns_ok _ _ _ H)).
  rewrite bool_decide_eq_false_2 by (by intros ?).
  rewrite (bind_ok _ _ _ _ _ (getitem_ok _ _ _ _ H Hc)).
  rewrite (series_gt_numeric _ _ Hnum). simpl.
  erewrite bind_ok; [|reflexivity].
  erewrite bind_ok; [|apply select_ok; [done|]].
  - unfold column. rewrite mask_rows_greater.
    erewrite copy_ok; [|apply lookup_snoc].
    rewrite length_app, Nat.add_1_r, <- app_assoc. done.
  - unfold column. by rewrite !length_fmap.
Qed.

Lemma daylight_filter_string σ l d c threshold :
  σ !! l = Some d → c ∈ columns d → ¬ Forall numeric (column c d) →
  daylight_filter l c threshold σ = (inl TypeError, σ).
Proof.
  intros H Hc Hstr. unfold daylight_filter.
  rewrite (bind_ok _ _ _ _ _ (get_columns_ok _ _ _ H)).
  rewrite bool_decide_eq_false_2 by (by intros ?).
  rewrite (bind_ok _ _ _ _ _ (getitem_ok _ _ _ _ H Hc)).
  by rewrite (series_gt_string _ _ Hstr).
Qed.

(** Raising the threshold keeps fewer rows. *)
Lemma filter_greater_sublist t1 t2 c rs :
  (t1 < t2)%Q →
  filter (greater t2 c) rs `sublist_of` filter (greater t1 c) rs.
Proof.
  intros Hlt. induction rs as [|r rs IH]; [done|].
  rewrite !filter_cons.
  destruct (decide (greater t2 c r)) as [H2|H2].
  - rewrite decide_True.
    + by apply sublist_skip.
    + unfold greater in *. destruct (cell r c); try done.
      by eapply Qlt_trans.
  - destruct (decide (greater t1 c r)); [by apply sublist_cons|done].
Qed.

(** *** The file locator *)

Lemma dict_get_set_eq {V} k (v : V) d : Dict.get k (Dict.set k v d) = Some v.
Proof.
  induction d as [|[k' v'] d IH]; simpl.
  - by rewrite bool_decide_eq_true_2.
  - destruct (decide (k = k')) as [->|Hne].
    + rewrite bool_decide_eq_true_2 by done. simpl.
      by rewrite bool_decide_eq_true_2.
    + rewrite bool_decide_eq_false_2 by done. simpl.
      by rewrite bool_decide_eq_false_2.
Qed.

Lemma dict_get_set_ne {V} k k' (v : V) d :
  k ≠ k' → Dict.get k' (Dict.set k v d) = Dict.get k' d.
Proof.
  intros Hne. induction d as [|[k0 v0] d IH]; simpl.
  - by rewrite bool_decide_eq_false_2.
  - destruct (decide (k = k0)) as [->|Hne0].
    + rewrite bool_decide_eq_true_2 by done. simpl.
      by rewrite !bool_decide_eq_false_2.
    + rewrite bool_decide_eq_false_2 by done. simpl. by rewrite IH.
Qed.

Lemma dict_get_None {V} k (d : Dict.dict V) :
  k ∉ d.*1 → Dict.get k d = None.
Proof.
  induction d as [|[k' v'] d IH]; [done|]. simpl. intros Hk.
  rewrite bool_decide_eq_false_2; [apply IH|]; set_solver.
Qed.

Section Locate.
Context (fs : filesystem) (data_dir : string).

Lemma try_patterns_first_hit country patterns mapping :
  try_patterns fs data_dir country patterns mapping
  = match first_hit fs data_dir patterns with
    | Some path => Dict.set country path mapping
    | None => mapping
    end.
Proof.
  induction patterns as [|pat patterns IH]; [done|].
  simpl. by destruct (glob fs data_dir pat).
Qed.

Lemma first_hit_Some patterns path :
  first_hit fs data_dir patterns = Some path ↔
  ∃ pre pat post,
    patterns = pre ++ pat :: post ∧
    Forall (λ p, glob fs data_dir p = []) pre ∧
    head (glob fs data_dir pat) = Some path.
Proof.
  induction patterns as [|p patterns IH]; simpl.
  - split; [done|]. intros (pre & pat & post & E & _).
    by destruct pre.
  - destruct (glob fs data_dir p) as [|f found] eqn:Eg.
    + rewrite IH. split.
      * intros (pre & pat & post & -> & Hpre & Hhd).
        exists (p :: pre), pat, post. by repeat constructor.
      * intros (pre & pat & post & E & Hpre & Hhd).
        destruct pre as [|p' pre]; simplify_eq/=.
        -- by rewrite Eg in Hhd.
        -- exists pre, pat, post. by inversion Hpre.
    + split.
      * intros [= ->]. exists [], p, patterns. by rewrite Eg.
      * intros (pre & pat & post & E & Hpre & Hhd).
        destruct pre as [|p' pre]; simplify_eq/=.
        -- rewrite Eg in Hhd. by simplify_eq/=.
        -- inversion Hpre; congruence.
Qed.

(** The outer loop sets, for each country of the table, the first hit of its
    patterns and nothing else. *)
Lemma locate_loop (table : Dict.dict (list string)) mapping country :
  NoDup table.*1 →
  (∀ k, k ∈ table.*1 → Dict.get k mapping = None) →
  Dict.get country
    (foldl (λ mapping '(country, patterns),
              try_patterns fs data_dir country patterns mapping)
           mapping table)
  = match Dict.get country table with
    | Some patterns => first_hit fs data_dir patterns
    | None => Dict.get country mapping
    end.
Proof.
  revert mapping. induction table as [|[k ps] table IH]; intros mapping Hnd Hfresh.
  - done.
  - simpl in *. apply NoDup_cons in Hnd as [Hk Hnd].
    rewrite IH; [|done|].
    + rewrite try_patterns_first_hit.
      destruct (decide (country = k)) as [->|Hne].
      * rewrite bool_decide_eq_true_2 by done.
        rewrite (dict_get_None k table) by done.
        destruct (first_hit fs data_dir ps).
        -- apply dict_get_set_eq.
        -- apply Hfresh. set_solver.
      * rewrite bool_decide_eq_false_2 by done.
        destruct (Dict.get country table); [done|].
        destruct (first_hit fs data_dir ps); [|done].
        by rewrite dict_get_set_ne.
    + intros k' Hk'. rewrite try_patterns_first_hit.
      destruct (first_hit fs data_dir ps).
      * rewrite dict_get_set_ne; [apply Hfresh; set_solver|].
        intros ->. done.
      * apply Hfresh. set_solver.
Qed.

Lemma glob_absent pat : fs data_dir = None → glob fs data_dir pat = [].
Proof. intros H. unfold glob. by rewrite H. Qed.

Lemma first_hit_absent patterns :
  fs data_dir = None → first_hit fs data_dir patterns = None.
Proof.
  intros H. induction patterns as [|p ps IH]; [done|].
  simpl. by rewrite glob_absent.
Qed.

Lemma find_country_files_get country :
  Dict.get country (find_country_files fs data_dir)
  = match Dict.get country globs with
    | Some patterns => first_hit fs data_dir patterns
    | None => None
    end.
Proof.
  unfold find_country_files, exists_.
  destruct (fs data_dir) as [n|] eqn:E.
  - rewrite bool_decide_eq_true_2 by eauto. cbn [negb].
    rewrite locate_loop; [done| |done].
    unfold globs. simpl. repeat (apply NoDup_cons; split; [set_solver|]).
    apply NoDup_nil_2.
  - rewrite bool_decide_eq_false_2 by (by intros [? ?]). cbn [negb Dict.get].
    destruct (Dict.get country globs); [|done].
    by rewrite first_hit_absent.
Qed.

End Locate.

End UtilsFacts.

(** ** The specification of [app/utils.py] *)
Module UtilsSpec.
Import Pandas Pathlib Utils Content Examples PandasFacts UtilsFacts.

(** C4.  [coerce_numeric] never raises.  It returns a frame with the columns
    of its input, no more and no fewer; each column named in [cols] that the
    input has is replaced by its numeric version, which holds numbers and
    missing cells only: a number or a missing cell stays, a string that
    parses becomes its number, a string that does not parse becomes missing.
    A name in [cols] that the input lacks leaves every row as it is under
    that name. *)
Theorem coerce_numeric_spec (parse : string → option Q) (σ : store) (df : ref)
    (d : DataFrame) (cols : list string) :
  σ !! df = Some d →
  ∃ out σ' d',
    coerce_numeric parse df cols σ = (inr out, σ') ∧
    σ' !! out = Some d' ∧
    columns d' = columns d ∧
    (∀ c, c ∈ cols → c ∈ columns d →
       column c d' = to_numeric parse (column c d) ∧
       Forall numeric (column c d') ∧
       ∀ i v, column c d !! i = Some v →
         column c d' !! i
         = Some match v with
                | Num q => Num q
                | NaN => NaN
                | Str s => match parse s with
                           | Some q => Num q
                           | None => NaN
                           end
                end) ∧
    (∀ c, c ∈ cols → c ∉ columns d →
       (c ∉ columns d') ∧
       ((λ r : row, r !! c) <$> rows d') = ((λ r : row, r !! c) <$> rows d)).
Proof.
  intros H. exists (length σ), (σ ++ [coerce_frame parse cols d]), (coerce_frame parse cols d).
  split; [by apply coerce_numeric_run|].
  split; [apply lookup_snoc|].
  rewrite coerce_frame_eq. simpl. split; [done|]. split.
  - intros c Hc Hd.
    assert (E : column c {| columns := columns d;
                            rows := coerce_row parse (filter (.∈ columns d) cols) <$> rows d |}
                = to_numeric parse (column c d)).
    { unfold column, to_numeric. simpl. rewrite <- !list_fmap_compose.
      apply list_fmap_ext. intros i r _. simpl.
      rewrite coerce_row_cell, decide_True; [done|].
      apply list_elem_of_filter. done. }
    rewrite E. split; [done|]. split.
    + unfold to_numeric. apply Forall_fmap, Forall_true.
      intros v. apply to_numeric_value_numeric.
    + intros i v Hv. unfold to_numeric. rewrite list_lookup_fmap, Hv.
      simpl. by destruct v.
  - intros c Hc Hd. split; [done|].
    rewrite <- list_fmap_compose. apply list_fmap_ext. intros i r _. simpl.
    rewrite coerce_row_lookup, decide_False; [done|].
    intros [? ?]%list_elem_of_filter. done.
Qed.

Lemma coerce_numeric_spec_witness :
  [readings] !! 0 = Some readings ∧
  ∃ out σ' d',
    coerce_numeric parse_digits 0 ["GHI"; "DNI"] [readings] = (inr out, σ') ∧
    σ' !! out = Some d' ∧
    columns d' = columns readings ∧
    (∀ c, c ∈ ["GHI"; "DNI"] → c ∈ columns readings →
       column c d' = to_numeric parse_digits (column c readings) ∧
       Forall numeric (column c d') ∧
       ∀ i v, column c readings !! i = Some v →
         column c d' !! i
         = Some match v with
                | Num q => Num q
                | NaN => NaN
                | Str s => match parse_digits s with
                           | Some q => Num q
                           | None => NaN
                           end
                end) ∧
    (∀ c, c ∈ ["GHI"; "DNI"] → c ∉ columns readings →
       (c ∉ columns d') ∧
       ((λ r : row, r !! c) <$> rows d')
       = ((λ r : row, r !! c) <$> rows readings)).
Proof.
  split; [reflexivity|].
  apply (coerce_numeric_spec parse_digits [readings] 0 readings ["GHI"; "DNI"]).
  reflexivity.
Defined.

(** C5.  Coercing the result of a coercion over the same names gives a frame
    equal to that result. *)
Theorem coerce_numeric_idempotent (parse : string → option Q) (σ : store)
    (df : ref) (d : DataFrame) (cols : list string) :
  σ !! df = Some d →
  ∃ out1 σ1 out2 σ2 t,
    coerce_numeric parse df cols σ = (inr out1, σ1) ∧
    coerce_numeric parse out1 cols σ1 = (inr out2, σ2) ∧
    σ1 !! out1 = Some t ∧
    σ2 !! out2 = Some t.
Proof.
  intros H.
  pose proof (coerce_numeric_run parse σ df d cols H) as E1.
  pose proof (lookup_snoc σ (coerce_frame parse cols d)) as H1.
  pose proof (coerce_numeric_run parse _ _ _ cols H1) as E2.
  eexists _, _, _, _, _. split; [exact E1|]. split; [exact E2|].
  split; [exact H1|]. rewrite coerce_frame_idem. apply lookup_snoc.
Qed.

Lemma coerce_numeric_idempotent_witness :
  [readings] !! 0 = Some readings ∧
  ∃ out1 σ1 out2 σ2 t,
    coerce_numeric parse_digits 0 ["GHI"; "DNI"] [readings] = (inr out1, σ1) ∧
    coerce_numeric parse_digits out1 ["GHI"; "DNI"] σ1 = (inr out2, σ2) ∧
    σ1 !! out1 = Some t ∧
    σ2 !! out2 = Some t.
Proof.
  split; [reflexivity|].
  apply (coerce_numeric_idempotent parse_digits [readings] 0 readings).
  reflexivity.
Defined.

(** C10.  [coerce_numeric] returns a new object and leaves every object of
    the store, its input among them, as it was.  The result has the columns
    and the number of rows of the input, and row by row, in the same order,
    the cells under every name outside [cols] are those of the input. *)
Theorem coerce_numeric_frame (parse : string → option Q) (σ : store)
    (df : ref) (d : DataFrame) (cols : list string) :
  σ !! df = Some d →
  ∃ out σ' d',
    coerce_numeric parse df cols σ = (inr out, σ') ∧
    σ !! out = None ∧
    (∀ l d0, σ !! l = Some d0 → σ' !! l = Some d0) ∧
    σ' !! out = Some d' ∧
    columns d' = columns d ∧
    length (rows d') = length (rows d) ∧
    (∀ c, c ∉ cols → column c d' = column c d) ∧
    (∀ i r, rows d !! i = Some r →
       ∃ r', rows d' !! i = Some r' ∧ ∀ c, c ∉ cols → r' !! c = r !! c).
Proof.
  intros H. exists (length σ), (σ ++ [coerce_frame parse cols d]), (coerce_frame parse cols d).
  split; [by apply coerce_numeric_run|].
  split; [by apply lookup_ge_None|].
  split; [intros l d0 Hl; by apply lookup_app_l_Some|].
  split; [apply lookup_snoc|].
  rewrite coerce_frame_eq. simpl. split; [done|].
  split; [by rewrite length_fmap|].
  assert (Hout : ∀ c, c ∉ cols → c ∉ filter (.∈ columns d) cols).
  { intros c Hc [? ?]%list_elem_of_filter. done. }
  split.
  - intros c Hc. unfold column. simpl. rewrite <- list_fmap_compose.
    apply list_fmap_ext. intros i r _. simpl.
    rewrite coerce_row_cell, decide_False; auto.
  - intros i r Hr. eexists. rewrite list_lookup_fmap, Hr. split; [done|].
    intros c Hc. rewrite coerce_row_lookup, decide_False; auto.
Qed.

Lemma coerce_numeric_frame_witness :
  [readings] !! 0 = Some readings ∧
  ∃ out σ' d',
    coerce_numeric parse_digits 0 ["GHI"; "DNI"] [readings] = (inr out, σ') ∧
    [readings] !! out = None ∧
    (∀ l d0, [readings] !! l = Some d0 → σ' !! l = Some d0) ∧
    σ' !! out = Some d' ∧
    columns d' = columns readings ∧
    length (rows d') = length (rows readings) ∧
    (∀ c, c ∉ ["GHI"; "DNI"] → column c d' = column c readings) ∧
    (∀ i r, rows readings !! i = Some r →
       ∃ r', rows d' !! i = Some r' ∧
             ∀ c, c ∉ ["GHI"; "DNI"] → r' !! c = r !! c).
Proof.
  split; [reflexivity|].
  apply (coerce_numeric_frame parse_digits [readings] 0 readings).
  reflexivity.
Defined.

(** C3, as the code has it.  Without the column the filter returns a new
    object equal to its input.  With the column, and numbers or missing
    cells in it, the filter returns a new frame with the same columns whose
    rows are, in order, the rows holding a number strictly above the
    threshold: a row whose cell is missing is left out.  With a string in
    the column the comparison raises and nothing is returned.  The store is
    otherwise left as it was. *)
Theorem daylight_filter_spec (σ : store) (df : ref) (d : DataFrame)
    (ghi_col : string) (threshold : Q) :
  σ !! df = Some d →
  (ghi_col ∉ columns d →
     ∃ out σ',
       daylight_filter df ghi_col threshold σ = (inr out, σ') ∧
       σ !! out = None ∧
       σ' !! out = Some d ∧
       (∀ l d0, σ !! l = Some d0 → σ' !! l = Some d0)) ∧
  (ghi_col ∈ columns d → Forall numeric (column ghi_col d) →
     ∃ out σ' d',
       daylight_filter df ghi_col threshold σ = (inr out, σ') ∧
       σ !! out = None ∧
       σ' !! out = Some d' ∧
       (∀ l d0, σ !! l = Some d0 → σ' !! l = Some d0) ∧
       columns d' = columns d ∧
       rows d' = filter (greater threshold ghi_col) (rows d) ∧
       (∀ r, r ∈ rows d' ↔
             r ∈ rows d ∧ ∃ q, cell r ghi_col = Num q ∧ (threshold < q)%Q) ∧
       (∀ r, r ∈ rows d' → cell r ghi_col ≠ NaN)) ∧
  (ghi_col ∈ columns d → ¬ Forall numeric (column ghi_col d) →
     daylight_filter df ghi_col threshold σ = (inl TypeError, σ)).
Proof.
  intros H. split; [|split].
  - intros Hc. exists (length σ), (σ ++ [d]).
    split; [by apply daylight_filter_absent|].
    split; [by apply lookup_ge_None|]. split; [apply lookup_snoc|].
    intros l d0 Hl. by apply lookup_app_l_Some.
  - intros Hc Hnum.
    exists (S (length σ)), (σ ++ [filter_frame threshold ghi_col d;
                                  filter_frame threshold ghi_col d]),
      (filter_frame threshold ghi_col d).
    split; [by apply daylight_filter_numeric|].
    split; [apply lookup_ge_None; lia|].
    split; [by rewrite lookup_app_r by lia; rewrite Nat.sub_succ_l, Nat.sub_diag|].
    split; [intros l d0 Hl; by apply lookup_app_l_Some|].
    split; [done|]. split; [done|]. simpl. split.
    + intros r. by rewrite list_elem_of_filter, greater_iff, (comm and).
    + intros r [Hg _]%list_elem_of_filter E. unfold greater in Hg.
      by rewrite E in Hg.
  - intros Hc Hstr. by apply (daylight_filter_string σ df d).
Qed.

Lemma daylight_filter_spec_witness :
  [clean_readings] !! 0 = Some clean_readings ∧
  "GHI" ∈ columns clean_readings ∧
  Forall numeric (column "GHI" clean_readings) ∧
  ∃ out σ' d',
    daylight_filter 0 "GHI" 20 [clean_readings] = (inr out, σ') ∧
    [clean_readings] !! out = None ∧
    σ' !! out = Some d' ∧
    (∀ l d0, [clean_readings] !! l = Some d0 → σ' !! l = Some d0) ∧
    columns d' = columns clean_readings ∧
    rows d' = filter (greater 20 "GHI") (rows clean_readings) ∧
    (∀ r, r ∈ rows d' ↔
          r ∈ rows clean_readings ∧ ∃ q, cell r "GHI" = Num q ∧ (20 < q)%Q) ∧
    (∀ r, r ∈ rows d' → cell r "GHI" ≠ NaN).
Proof.
  assert (H0 : [clean_readings] !! 0 = Some clean_readings) by reflexivity.
  assert (Hc : "GHI" ∈ columns clean_readings)
    by (apply (bool_decide_unpack _); vm_compute; exact I).
  assert (Hn : Forall numeric (column "GHI" clean_readings))
    by (apply (bool_decide_unpack _); vm_compute; exact I).
  split; [exact H0|]. split; [exact Hc|]. split; [exact Hn|].
  exact (proj1 (proj2 (daylight_filter_spec [clean_readings] 0 clean_readings
                         "GHI" 20 H0)) Hc Hn).
Defined.

(** C3, as the claim has it, fails on a column that holds a string: the
    filter does not leave the row out, it raises. *)
Lemma daylight_filter_string_counterexample :
  [readings] !! 0 = Some readings ∧
  "GHI" ∈ columns readings ∧
  daylight_filter 0 "GHI" 20 [readings] = (inl TypeError, [readings]) ∧
  ¬ ∃ out σ', daylight_filter 0 "GHI" 20 [readings] = (inr out, σ').
Proof.
  split; [reflexivity|].
  split; [apply (bool_decide_unpack _); vm_compute; exact I|].
  split; [reflexivity|]. intros (out & σ' & E). vm_compute in E. discriminate E.
Qed.

(** C6.  For thresholds [t1 < t2] the filter at both thresholds returns or
    at both raises (on a string in the column); when it returns, the rows
    kept at [t2] are, in order, among the rows kept at [t1]. *)
Theorem daylight_filter_antitone (σ : store) (df : ref) (d : DataFrame)
    (ghi_col : string) (t1 t2 : Q) :
  σ !! df = Some d → (t1 < t2)%Q →
  (∃ out1 σ1 d1 out2 σ2 d2,
     daylight_filter df ghi_col t1 σ = (inr out1, σ1) ∧
     σ1 !! out1 = Some d1 ∧
     daylight_filter df ghi_col t2 σ = (inr out2, σ2) ∧
     σ2 !! out2 = Some d2 ∧
     rows d2 `sublist_of` rows d1 ∧
     (∀ r, r ∈ rows d2 → r ∈ rows d1)) ∨
  (daylight_filter df ghi_col t1 σ = (inl TypeError, σ) ∧
   daylight_filter df ghi_col t2 σ = (inl TypeError, σ)).
Proof.
  intros H Hlt.
  destruct (decide (ghi_col ∈ columns d)) as [Hc|Hc].
  - destruct (decide (Forall numeric (column ghi_col d))) as [Hnum|Hstr].
    + left.
      exists (S (length σ)), (σ ++ [filter_frame t1 ghi_col d; filter_frame t1 ghi_col d]),
        (filter_frame t1 ghi_col d),
        (S (length σ)), (σ ++ [filter_frame t2 ghi_col d; filter_frame t2 ghi_col d]),
        (filter_frame t2 ghi_col d).
      assert (Hl : ∀ x, (σ ++ [x; x]) !! S (length σ) = Some x).
      { intros x. by rewrite lookup_app_r by lia; rewrite Nat.sub_succ_l, Nat.sub_diag. }
      split; [by apply daylight_filter_numeric|]. split; [apply Hl|].
      split; [by apply daylight_filter_numeric|]. split; [apply Hl|].
      pose proof (filter_greater_sublist t1 t2 ghi_col (rows d) Hlt) as Hsub.
      split; [exact Hsub|]. intros r Hr. by eapply elem_of_sublist.
    + right. split; by apply (daylight_filter_string σ df d).
  - left. exists (length σ), (σ ++ [d]), d, (length σ), (σ ++ [d]), d.
    split; [by apply daylight_filter_absent|]. split; [apply lookup_snoc|].
    split; [by apply daylight_filter_absent|]. split; [apply lookup_snoc|].
    done.
Qed.

Lemma daylight_filter_antitone_witness :
  [clean_readings] !! 0 = Some clean_readings ∧ (20 < 50)%Q ∧
  ((∃ out1 σ1 d1 out2 σ2 d2,
      daylight_filter 0 "GHI" 20 [clean_readings] = (inr out1, σ1) ∧
      σ1 !! out1 = Some d1 ∧
      daylight_filter 0 "GHI" 50 [clean_readings] = (inr out2, σ2) ∧
      σ2 !! out2 = Some d2 ∧
      rows d2 `sublist_of` rows d1 ∧
      (∀ r, r ∈ rows d2 → r ∈ rows d1)) ∨
   (daylight_filter 0 "GHI" 20 [clean_readings] = (inl TypeError, [clean_readings]) ∧
    daylight_filter 0 "GHI" 50 [clean_readings] = (inl TypeError, [clean_readings]))).
Proof.
  split; [reflexivity|]. split; [reflexivity|].
  apply (daylight_filter_antitone [clean_readings] 0 clean_readings "GHI" 20 50);
    reflexivity.
Defined.

Lemma dict_keys_get {V} k (d : Dict.dict V) :
  k ∈ Dict.keys d ↔ ∃ v, Dict.get k d = Some v.
Proof.
  unfold Dict.keys. induction d as [|[k' v'] d IH]; simpl.
  - split; [by intros ?%elem_of_nil|by intros [? ?]].
  - rewrite elem_of_cons, IH. destruct (decide (k = k')) as [->|Hne].
    + rewrite bool_decide_eq_true_2 by done. split; eauto.
    + rewrite bool_decide_eq_false_2 by done. split; [by intros [?|?]|eauto].
Qed.

Lemma head_filter_unique {A} (P : A → Prop) `{!∀ x, Decision (P x)} l x :
  x ∈ l → P x → Forall (λ y, P y → y = x) l → head (filter P l) = Some x.
Proof.
  induction l as [|y l IH]; intros Hin HP Hall.
  - by apply elem_of_nil in Hin.
  - apply Forall_cons in Hall as [Hy Hall]. rewrite filter_cons.
    destruct (decide (P y)) as [HPy|HPy].
    + simpl. by rewrite Hy.
    + apply IH; [|done|done].
      apply elem_of_cons in Hin as [->|Hin]; done.
Qed.

(** C7.  The locator is a total function.  An absent directory gives the
    empty mapping.  A label is mapped to a path exactly when it is a
    recognised label and the path is the first match of the first of its
    patterns that has a match; so the mapping holds only labels with a
    match.  In a directory holding [benin_clean.csv] and [benin.csv], where
    no other entry matches [benin*clean.csv], the label Benin is mapped to
    the path of [benin_clean.csv]. *)
Theorem find_country_files_spec (fs : filesystem) (data_dir : string) :
  (fs data_dir = None → find_country_files fs data_dir = []) ∧
  (∀ country path,
     Dict.get country (find_country_files fs data_dir) = Some path ↔
     ∃ patterns pre pat post,
       Dict.get country globs = Some patterns ∧
       patterns = pre ++ pat :: post ∧
       Forall (λ p, glob fs data_dir p = []) pre ∧
       head (glob fs data_dir pat) = Some path) ∧
  (∀ country,
     country ∈ Dict.keys (find_country_files fs data_dir) ↔
     ∃ path, Dict.get country (find_country_files fs data_dir) = Some path) ∧
  (∀ entries,
     fs data_dir = Some (Dir entries) →
     "benin_clean.csv" ∈ entries →
     "benin.csv" ∈ entries →
     Forall (λ e, glob_match "benin*clean.csv" e = true → e = "benin_clean.csv")
            entries →
     Dict.get "Benin" (find_country_files fs data_dir)
     = Some (joinpath data_dir "benin_clean.csv")).
Proof.
  split; [|split; [|split]].
  - intros H. unfold find_country_files, exists_.
    rewrite H. by rewrite bool_decide_eq_false_2 by (by intros [? ?]).
  - intros country path. rewrite find_country_files_get.
    destruct (Dict.get country globs) as [patterns|].
    + rewrite first_hit_Some. split.
      * intros (pre & pat & post & ? & ? & ?). by exists patterns, pre, pat, post.
      * intros (ps & pre & pat & post & [= <-] & ? & ? & ?). by exists pre, pat, post.
    + split; [done|]. by intros (? & ? & ? & ? & ? & _).
  - intros country. apply dict_keys_get.
  - intros entries Hdir Hclean _ Hall. rewrite find_country_files_get.
    cbn [globs Dict.get]. rewrite bool_decide_eq_true_2 by done.
    cbn [first_hit].
    replace (glob fs data_dir "benin*clean.csv")
      with (joinpath data_dir <$> filter (λ name, glob_match "benin*clean.csv" name = true) entries)
      by (unfold glob; by rewrite Hdir).
    pose proof (head_filter_unique (λ name, glob_match "benin*clean.csv" name = true)
                  entries "benin_clean.csv" Hclean eq_refl Hall) as Hhd.
    destruct (filter _ entries) as [|f found]; [done|].
    simpl in *. by simplify_eq.
Qed.

Lemma find_country_files_spec_witness :
  data_holding ["benin.csv"; "benin_clean.csv"] "data"
  = Some (Dir ["benin.csv"; "benin_clean.csv"]) ∧
  Dict.get "Benin" (find_country_files (data_holding ["benin.csv"; "benin_clean.csv"]) "data")
  = Some "data/benin_clean.csv".
Proof.
  split; [reflexivity|].
  apply (proj2 (proj2 (proj2 (find_country_files_spec
           (data_holding ["benin.csv"; "benin_clean.csv"]) "data")))
           ["benin.csv"; "benin_clean.csv"]).
  - reflexivity.
  - apply (bool_decide_unpack _); vm_compute; exact I.
  - apply (bool_decide_unpack _); vm_compute; exact I.
  - apply (bool_decide_unpack _); vm_compute; exact I.
Defined.

End UtilsSpec.

(** ** Facts about [app/main.py] *)
Module MainFacts.
Import Pandas Pathlib Utils Main Content Examples PandasFacts UtilsFacts.

(** *** The label guess *)

Lemma split_head_no_sep sep s :
  has_char sep s = false → split_head sep s = s.
Proof.
  induction s as [|c s IH]; [done|]. simpl.
  destruct (decide (c = sep)) as [->|Hne].
  - by rewrite bool_decide_eq_true_2.
  - rewrite !bool_decide_eq_false_2 by done. simpl. intros H. by rewrite IH.
Qed.

Lemma split_head_app sep stem rest :
  has_char sep stem = false →
  split_head sep (stem +:+ String sep rest) = stem.
Proof.
  induction stem as [|c stem IH]; simpl.
  - intros _. by rewrite bool_decide_eq_true_2.
  - destruct (decide (c = sep)) as [->|Hne].
    + by rewrite bool_decide_eq_true_2.
    + rewrite !bool_decide_eq_false_2 by done. simpl. intros H. by rewrite IH.
Qed.

Lemma has_char_app a s t :
  has_char a (s +:+ t) = has_char a s || has_char a t.
Proof.
  induction s as [|c s IH]; [done|]. simpl. rewrite IH. by rewrite orb_assoc.
Qed.

Lemma strip_extension_no_dot s :
  has_char "." s = false → strip_extension s = s.
Proof.
  induction s as [|c s IH]; [done|]. cbn [has_char strip_extension].
  destruct (bool_decide (c = "."%char)); [done|].
  simpl. intros H. by rewrite IH.
Qed.

Lemma strip_extension_app stem ext :
  has_char "." ext = false →
  strip_extension (stem +:+ String "." ext) = stem.
Proof.
  intros Hext. induction stem as [|c stem IH].
  - simpl. by rewrite Hext.
  - change (String c stem +:+ String "." ext)
      with (String c (stem +:+ String "." ext)).
    cbn [strip_extension]. rewrite IH, has_char_app.
    replace (has_char "." (String "." ext)) with true by done.
    by rewrite orb_true_r, andb_false_r.
Qed.

(** *** Data input *)

Lemma try_ok {A} (m : M A) h σ a σ' :
  m σ = (inr a, σ') → try_except m h σ = (inr a, σ').
Proof. intros H. unfold try_except. by rewrite H. Qed.

Lemma try_raise {A} (m : M A) h σ e σ' :
  m σ = (inl e, σ') → try_except m h σ = h e σ'.
Proof. intros H. unfold try_except. by rewrite H. Qed.

Lemma load_detected_run disk items dfs status σ :
  load_detected disk items dfs status σ
  = (inr (dfs ++ seq (length σ) (length (omap (labelled disk) items)),
          status ++ (status_of disk <$> items)),
     σ ++ omap (labelled disk) items).
Proof.
  revert dfs status σ.
  induction items as [|[country path] items IH]; intros dfs status σ.
  - simpl. by rewrite !app_nil_r.
  - cbn [load_detected].
    match goal with
    | |- (try_except ?m ?h ≫= ?k) σ = _ =>
        assert (Hbody : try_except m h σ
                        = match disk path with
                          | inl msg =>
                              (inr (dfs, status ++ [status_of disk (country, path)]), σ)
                          | inr d =>
                              (inr (dfs ++ [length σ],
                                    status ++ [status_of disk (country, path)]),
                               σ ++ [tag country d])
                          end)
    end.
    { unfold try_except, status_of. cbn [fst snd].
      destruct (disk path) as [msg|d]; [reflexivity|].
      cbn [read_csv].
      erewrite bind_ok; [|reflexivity].
      erewrite bind_ok; [|apply (setitem_scalar_ok _ _ d); apply lookup_snoc].
      by rewrite insert_snoc. }
    unfold labelled at 1 2. cbn [omap list_omap fmap list_fmap fst snd].
    fold (labelled disk).
    destruct (disk path) as [msg|d] eqn:E.
    + erewrite bind_ok; [|exact Hbody].
      cbn [fst snd]. rewrite IH. by rewrite <- !app_assoc.
    + erewrite bind_ok; [|exact Hbody].
      cbn [fst snd]. rewrite IH.
      rewrite length_app, Nat.add_1_r. cbn [length seq].
      by rewrite <- !app_assoc.
Qed.

Lemma deref_all_seq (σ : store) (frames : list DataFrame) :
  deref_all (seq (length σ) (length frames)) (σ ++ frames)
  = (inr frames, σ ++ frames).
Proof.
  revert σ. induction frames as [|f frames IH]; intros σ; [done|].
  cbn [length seq deref_all].
  erewrite bind_ok.
  2:{ apply deref_ok. by rewrite lookup_app_r, Nat.sub_diag. }
  specialize (IH (σ ++ [f])).
  rewrite length_app, Nat.add_1_r, <- app_assoc in IH. cbn [app] in IH.
  erewrite bind_ok; [|exact IH]. done.
Qed.

(** Directory-scan mode as a whole: the frames of the files that parse, in
    order, each labelled; one status entry per file; and the concatenation
    of the frames when there is one at least. *)
Lemma ingest_local_run {U : Unicode} detected disk text_input files σ :
  ingest UseLocal detected disk text_input files σ
  = let frames := omap (labelled disk) detected in
    let status := status_of disk <$> detected in
    match frames with
    | [] => (inr (None, status), σ)
    | _ => (inr (Some (length σ + length frames), status),
            σ ++ frames ++ [concat_frames frames])
    end.
Proof.
  unfold ingest, load.
  assert (E : (match detected with
               | [] => mret ([], [])
               | _ => load_detected disk detected [] []
               end) σ
              = (inr (seq (length σ) (length (omap (labelled disk) detected)),
                      status_of disk <$> detected),
                 σ ++ omap (labelled disk) detected)).
  { destruct detected as [|item detected].
    - simpl. by rewrite app_nil_r.
    - by rewrite load_detected_run. }
  erewrite bind_ok; [|exact E]. cbn [fst snd]. cbn zeta.
  destruct (omap (labelled disk) detected) as [|f frames] eqn:Ef.
  - simpl. by rewrite app_nil_r.
  - unfold unify. cbn [length seq].
    erewrite bind_ok.
    2:{ erewrite bind_ok.
        2:{ unfold concat. erewrite bind_ok.
            2:{ apply (deref_all_seq σ (f :: frames)). }
            reflexivity. }
        reflexivity. }
    unfold alloc. rewrite length_app. by rewrite <- app_assoc.
Qed.

Lemma rows_tag country d :
  rows (tag country d) = (λ r : row, <["Country" := Str country]> r) <$> rows d.
Proof. unfold tag, set_column. simpl. by rewrite zip_with_replicate_r_eq. Qed.

Lemma columns_tag country d : "Country" ∈ columns (tag country d).
Proof.
  unfold tag, set_column, has_column. simpl.
  destruct (decide ("Country" ∈ columns d)).
  - by rewrite bool_decide_eq_true_2.
  - rewrite bool_decide_eq_false_2 by done. set_solver.
Qed.

Lemma union_loop_elem (seen cs : list string) c :
  c ∈ foldl (λ seen c, if bool_decide (c ∈ seen) then seen else seen ++ [c])
            seen cs
  ↔ c ∈ seen ∨ c ∈ cs.
Proof.
  revert seen. induction cs as [|a cs IH]; intros seen; simpl.
  - set_solver.
  - rewrite IH. destruct (decide (a ∈ seen)).
    + rewrite bool_decide_eq_true_2 by done. set_solver.
    + rewrite bool_decide_eq_false_2 by done. set_solver.
Qed.

Lemma union_columns_elem ds c :
  c ∈ union_columns ds ↔ ∃ d, d ∈ ds ∧ c ∈ columns d.
Proof.
  unfold union_columns. rewrite union_loop_elem, list_elem_of_bind.
  split.
  - intros [?%elem_of_nil|(d & ? & ?)]; [done|eauto].
  - intros (d & ? & ?). right. eauto.
Qed.

Lemma reindex_lookup cols r c :
  reindex cols r !! c = if decide (c ∈ cols) then Some (cell r c) else None.
Proof.
  unfold reindex. induction cols as [|a cols IH].
  - rewrite fmap_nil, list_to_map_nil, lookup_empty.
    destruct (decide (c ∈ [])) as [H|H]; [by apply elem_of_nil in H|done].
  - rewrite fmap_cons, list_to_map_cons, lookup_insert, IH. cbn [fst snd].
    rewrite (decide_ext (c ∈ a :: cols) (c = a ∨ c ∈ cols)) by apply elem_of_cons.
    destruct (decide (a = c)) as [->|Hne], (decide (c ∈ cols)) as [Hin|Hin];
      destruct (decide (_ ∨ _)) as [Hor|Hor]; try done; exfalso;
      first [ apply Hor; by auto | destruct Hor; by auto ].
Qed.

Lemma reindex_cell cols r c :
  c ∈ cols → cell (reindex cols r) c = cell r c.
Proof. intros Hc. unfold cell at 1. by rewrite reindex_lookup, decide_True. Qed.

Lemma labelled_parsed disk items parsed :
  Forall2 (λ item d, disk item.2 = inr d) items parsed →
  omap (labelled disk) items = zip_with (λ item d, tag item.1 d) items parsed.
Proof.
  induction 1 as [|item d items parsed E _ IH]; [done|].
  cbn [zip_with]. rewrite <- IH. cbn [omap list_omap].
  unfold labelled at 1. by rewrite E.
Qed.

Lemma status_parsed disk items parsed :
  Forall2 (λ item d, disk item.2 = inr d) items parsed →
  status_of disk <$> items
  = (λ item, "Loaded: " +:+ item.1 +:+ " ← " +:+ item.2) <$> items.
Proof.
  induction 1 as [|item d items parsed E _ IH]; [done|].
  rewrite !fmap_cons, <- IH. unfold status_of at 1. by rewrite E.
Qed.

Lemma rows_concat_tagged cols (items : list (string * string)) parsed :
  zip_with (λ item d, tag item.1 d) items parsed
    ≫= (λ d, reindex cols <$> rows d)
  = mjoin (zip_with
             (λ item d,
                (λ r : row, reindex cols (<["Country" := Str item.1]> r))
                <$> rows d)
             items parsed).
Proof.
  revert parsed. induction items as [|item items IH]; intros [|d parsed];
    [done..|].
  cbn [zip_with mbind list_bind mjoin list_join]. rewrite rows_tag.
  rewrite <- list_fmap_compose. f_equal. apply IH.
Qed.

Lemma loaded_not_failure (items : list (string * string)) :
  filter (λ e, is_failure e = true)
         ((λ item, "Loaded: " +:+ item.1 +:+ " ← " +:+ item.2) <$> items)
  = [].
Proof.
  induction items as [|item items IH]; [done|].
  rewrite fmap_cons, filter_cons_False; [done|]. by simpl.
Qed.

(** *** Data input: the files that parse and the table they give *)

Lemma labelled_parsed_files disk detected :
  omap (labelled disk) detected
  = (λ p, tag p.1 p.2) <$> parsed_files disk detected.
Proof.
  unfold parsed_files. induction detected as [|item detected IH]; [done|].
  cbn [omap list_omap]. unfold labelled at 1.
  destruct (disk item.2); [exact IH|].
  rewrite fmap_cons. cbn [fst snd]. f_equal. exact IH.
Qed.

Lemma failures_and_parsed disk detected :
  length (filter (λ e, is_failure e = true) (status_of disk <$> detected))
  + length (parsed_files disk detected)
  = length detected.
Proof.
  unfold parsed_files. induction detected as [|item detected IH]; [done|].
  rewrite fmap_cons. cbn [omap list_omap length]. unfold status_of at 1.
  destruct (disk item.2) as [msg|d].
  - rewrite filter_cons_True by done. cbn [length]. lia.
  - rewrite filter_cons_False by done. cbn [length]. lia.
Qed.

(** The concatenation of labelled frames. *)
Lemma concat_tagged_rows (ps : list (string * DataFrame)) r :
  r ∈ rows (concat_frames ((λ p, tag p.1 p.2) <$> ps)) →
  ∃ p r0,
    p ∈ ps ∧ r0 ∈ rows p.2 ∧
    r = reindex (union_columns ((λ p, tag p.1 p.2) <$> ps))
                (<["Country" := Str p.1]> r0).
Proof.
  cbn [concat_frames rows].
  intros (f & Hr & Hf)%list_elem_of_bind.
  apply list_elem_of_fmap in Hf as (p & -> & Hp).
  apply list_elem_of_fmap in Hr as (r1 & -> & Hr1).
  rewrite rows_tag in Hr1. apply list_elem_of_fmap in Hr1 as (r0 & -> & Hr0).
  by exists p, r0.
Qed.

Lemma concat_tagged_length (ps : list (string * DataFrame)) :
  length (rows (concat_frames ((λ p, tag p.1 p.2) <$> ps)))
  = sum_list ((λ p, length (rows p.2)) <$> ps).
Proof.
  cbn [concat_frames rows].
  generalize (union_columns ((λ p, tag p.1 p.2) <$> ps)). intros cols.
  induction ps as [|p ps IH]; [done|].
  rewrite !fmap_cons. cbn [mbind list_bind sum_list sum_list_with].
  rewrite length_app, length_fmap, rows_tag, length_fmap. f_equal. exact IH.
Qed.

Lemma columns_tag_elem country d c :
  c ∈ columns (tag country d) ↔ c = "Country" ∨ c ∈ columns d.
Proof.
  unfold tag, set_column, has_column. simpl.
  destruct (decide ("Country" ∈ columns d)) as [H|H].
  - rewrite bool_decide_eq_true_2 by done. split; [by right|].
    by intros [->|?].
  - rewrite bool_decide_eq_false_2 by done.
    rewrite elem_of_app, list_elem_of_singleton. tauto.
Qed.

Lemma concat_tagged_columns (ps : list (string * DataFrame)) c :
  ps ≠ [] →
  c ∈ columns (concat_frames ((λ p, tag p.1 p.2) <$> ps)) ↔
  c = "Country" ∨ ∃ p, p ∈ ps ∧ c ∈ columns p.2.
Proof.
  intros Hne. cbn [concat_frames columns]. rewrite union_columns_elem. split.
  - intros (f & (p & -> & Hp)%list_elem_of_fmap & Hc).
    apply columns_tag_elem in Hc as [->|Hc]; [by left|]. right. eauto.
  - intros [->|(p & Hp & Hc)].
    + destruct ps as [|p ps]; [done|]. exists (tag p.1 p.2). split.
      * rewrite fmap_cons. apply elem_of_cons. by left.
      * apply columns_tag.
    + exists (tag p.1 p.2). split.
      * apply list_elem_of_fmap. eauto.
      * apply columns_tag_elem. by right.
Qed.

Lemma concat_tagged_labelled (ps : list (string * DataFrame)) :
  ps ≠ [] →
  labelled_table (concat_frames ((λ p, tag p.1 p.2) <$> ps)) ∧
  ∀ r, r ∈ rows (concat_frames ((λ p, tag p.1 p.2) <$> ps)) →
       ∃ p, p ∈ ps ∧ cell r "Country" = Str p.1.
Proof.
  intros Hne.
  assert (Hc : "Country" ∈ columns (concat_frames ((λ p, tag p.1 p.2) <$> ps)))
    by (apply concat_tagged_columns; [done|by left]).
  assert (Hrows : ∀ r, r ∈ rows (concat_frames ((λ p, tag p.1 p.2) <$> ps)) →
                       ∃ p, p ∈ ps ∧ cell r "Country" = Str p.1).
  { intros r (p & r0 & Hp & _ & ->)%concat_tagged_rows.
    exists p. split; [done|]. rewrite reindex_cell by exact Hc.
    unfold cell. by rewrite lookup_insert_eq. }
  split; [|exact Hrows]. split; [exact Hc|].
  apply Forall_forall. intros r Hr.
  destruct (Hrows r Hr) as (p & _ & E). eauto.
Qed.

(** *** Data input: the upload loop *)

Lemma load_uploads_run {U : Unicode} text_input files keys dfs status σ :
  load_uploads text_input files keys dfs status σ
  = (inr (dfs ++ upload_refs (length σ) keys files,
          status ++ upload_log text_input keys files),
     σ ++ upload_objects text_input keys files).
Proof.
  revert keys dfs status σ.
  induction files as [|f files IH]; intros keys dfs status σ.
  - simpl. by rewrite !app_nil_r.
  - cbn [load_uploads upload_refs upload_log upload_objects].
    match goal with
    | |- (try_except ?m ?h ≫= ?k) σ = _ =>
        assert (Hbody : try_except m h σ
          = match content f with
            | inl msg =>
                (inr (keys, dfs,
                      status ++ ["❌ Failed to read " +:+ name f +:+ ": " +:+ msg]),
                 σ)
            | inr d =>
                if bool_decide (widget_key f ∈ keys)
                then (inr (keys, dfs,
                           status ++
                             ["❌ Failed to read " +:+ name f +:+ ": "
                                +:+ exn_str (DuplicateWidgetID (widget_key f))]),
                      σ ++ [d])
                else (inr (keys ++ [widget_key f], dfs ++ [length σ],
                           status ++
                             ["Loaded upload: " +:+ upload_label text_input f
                                +:+ " (" +:+ name f +:+ ")"]),
                      σ ++ [tag (upload_label text_input f) d])
            end)
    end.
    { unfold try_except, upload_label, sidebar_text_input.
      destruct (content f) as [msg|d]; [reflexivity|].
      cbn [read_csv].
      erewrite bind_ok; [|reflexivity].
      destruct (bool_decide (widget_key f ∈ keys)); [reflexivity|].
      erewrite bind_ok; [|reflexivity].
      erewrite bind_ok; [|apply (setitem_scalar_ok _ _ d); apply lookup_snoc].
      by rewrite insert_snoc. }
    destruct (content f) as [msg|d].
    + erewrite bind_ok; [|exact Hbody].
      cbn [fst snd]. rewrite IH. by rewrite <- !app_assoc.
    + destruct (bool_decide (widget_key f ∈ keys)).
      * erewrite bind_ok; [|exact Hbody].
        cbn [fst snd]. rewrite IH.
        rewrite length_app, Nat.add_1_r. by rewrite <- !app_assoc.
      * erewrite bind_ok; [|exact Hbody].
        cbn [fst snd]. rewrite IH.
        rewrite length_app, Nat.add_1_r. by rewrite <- !app_assoc.
Qed.

Lemma upload_refs_length {U : Unicode} text_input next keys files :
  length (upload_refs next keys files)
  = length (loaded_uploads text_input keys files).
Proof.
  revert next keys. induction files as [|f files IH]; intros next keys; [done|].
  cbn [upload_refs loaded_uploads].
  destruct (content f); [apply IH|].
  destruct (bool_decide _); [apply IH|]. cbn [length]. by rewrite IH.
Qed.

Lemma deref_all_upload_refs {U : Unicode} text_input files keys (σ rest : store) :
  deref_all (upload_refs (length σ) keys files)
            (σ ++ upload_objects text_input keys files ++ rest)
  = (inr ((λ p, tag p.1 p.2) <$> loaded_uploads text_input keys files),
     σ ++ upload_objects text_input keys files ++ rest).
Proof.
  revert keys σ. induction files as [|f files IH]; intros keys σ; [done|].
  cbn [upload_refs upload_objects loaded_uploads].
  destruct (content f) as [msg|d]; [apply IH|].
  destruct (bool_decide (widget_key f ∈ keys)).
  - specialize (IH keys (σ ++ [d])).
    rewrite length_app, Nat.add_1_r, <- app_assoc in IH. exact IH.
  - cbn [deref_all]. erewrite bind_ok.
    2:{ apply deref_ok. by rewrite lookup_app_r, Nat.sub_diag. }
    specialize (IH (keys ++ [widget_key f])
                   (σ ++ [tag (upload_label text_input f) d])).
    rewrite length_app, Nat.add_1_r, <- app_assoc in IH. cbn [app] in IH.
    erewrite bind_ok; [|exact IH]. done.
Qed.

(** Upload mode as a whole. *)
Lemma ingest_upload_run {U : Unicode} detected disk text_input files σ :
  ingest Upload detected disk text_input files σ
  = let objects := upload_objects text_input [] files in
    let loaded := loaded_uploads text_input [] files in
    let status := upload_log text_input [] files in
    match loaded with
    | [] => (inr (None, status), σ ++ objects)
    | _ => (inr (Some (length σ + length objects), status),
            σ ++ objects ++ [concat_frames ((λ p, tag p.1 p.2) <$> loaded)])
    end.
Proof.
  unfold ingest, load. erewrite bind_ok; [|apply load_uploads_run].
  cbn [fst snd app]. cbn zeta.
  pose proof (upload_refs_length text_input (length σ) [] files) as Hlen.
  pose proof (deref_all_upload_refs text_input files [] σ []) as Hderef.
  rewrite app_nil_r in Hderef.
  destruct (loaded_uploads text_input [] files) as [|p ps] eqn:El.
  - destruct (upload_refs (length σ) [] files); [done|discriminate Hlen].
  - destruct (upload_refs (length σ) [] files) as [|l ls] eqn:Er;
      [discriminate Hlen|].
    unfold unify. erewrite bind_ok.
    2:{ erewrite bind_ok.
        2:{ unfold concat. erewrite bind_ok; [|exact Hderef]. reflexivity. }
        reflexivity. }
    unfold alloc. rewrite length_app. by rewrite <- app_assoc.
Qed.

Lemma upload_log_length {U : Unicode} text_input keys files :
  length (upload_log text_input keys files) = length files.
Proof.
  revert keys. induction files as [|f files IH]; intros keys; [done|].
  cbn [upload_log]. destruct (content f); [|destruct (bool_decide _)];
    cbn [length]; by rewrite IH.
Qed.

Lemma upload_failures_and_loaded {U : Unicode} text_input keys files :
  length (filter (λ e, is_failure e = true) (upload_log text_input keys files))
  + length (loaded_uploads text_input keys files)
  = length files.
Proof.
  revert keys. induction files as [|f files IH]; intros keys; [done|].
  cbn [upload_log loaded_uploads].
  destruct (content f) as [msg|d].
  - rewrite filter_cons_True by done. cbn [length]. rewrite <- (IH keys). lia.
  - destruct (bool_decide (widget_key f ∈ keys)).
    + rewrite filter_cons_True by done. cbn [length]. rewrite <- (IH keys). lia.
    + rewrite filter_cons_False by done. cbn [length].
      rewrite <- (IH (keys ++ [widget_key f])). lia.
Qed.

Lemma widget_key_inj f g : widget_key f = widget_key g ↔ name f = name g.
Proof.
  unfold widget_key. split; [|by intros ->].
  intros E. by simplify_eq/=.
Qed.

Lemma earlier_cons f0 files i f :
  (∀ j g, j < S i → (f0 :: files) !! j = Some g → parses g → name g ≠ name f)
  ↔ (parses f0 → name f0 ≠ name f) ∧
    (∀ j g, j < i → files !! j = Some g → parses g → name g ≠ name f).
Proof.
  split.
  - intros H. split.
    + intros Hp. apply (H 0 f0); [lia|done|done].
    + intros j g Hj Hg Hp. apply (H (S j) g); [lia|done|done].
  - intros [Hhead Hrest] [|j] g Hj Hg Hp.
    + simplify_eq/=. by apply Hhead.
    + apply (Hrest j g); [lia|done|done].
Qed.

(** Which uploads are loaded: those that parse, whose key was not taken
    before the loop, and whose name no earlier upload that parses has. *)
Lemma loaded_uploads_elem {U : Unicode} text_input keys files p :
  p ∈ loaded_uploads text_input keys files ↔
  ∃ i f d,
    files !! i = Some f ∧ content f = inr d ∧
    (widget_key f ∉ keys) ∧
    (∀ j g, j < i → files !! j = Some g → parses g → name g ≠ name f) ∧
    p = (upload_label text_input f, d).
Proof.
  revert keys. induction files as [|f0 files IH]; intros keys.
  { split; [by intros ?%elem_of_nil|]. by intros (i & f & d & ? & _). }
  cbn [loaded_uploads].
  (* the entries that come from the tail, under the condition [C] that the
     head puts on them *)
  assert (Htail : ∀ K,
    (∀ f, (widget_key f ∉ K) ↔
          (widget_key f ∉ keys) ∧ (parses f0 → name f0 ≠ name f)) →
    (p ∈ loaded_uploads text_input K files ↔
     ∃ i f d,
       (f0 :: files) !! S i = Some f ∧ content f = inr d ∧
       (widget_key f ∉ keys) ∧
       (∀ j g, j < S i → (f0 :: files) !! j = Some g → parses g →
               name g ≠ name f) ∧
       p = (upload_label text_input f, d))).
  { intros K HK. rewrite IH. split.
    - intros (i & f & d & Hi & Hc & Hk & Hearlier & ->).
      apply HK in Hk as [Hk Hhead].
      exists i, f, d. split; [done|]. split; [done|]. split; [done|].
      split; [|done]. by apply earlier_cons.
    - intros (i & f & d & Hi & Hc & Hk & Hearlier & ->).
      apply earlier_cons in Hearlier as [Hhead Hearlier].
      exists i, f, d. split; [done|]. split; [done|].
      split; [by apply HK|]. done. }
  destruct (content f0) as [msg|d0] eqn:E0.
  - rewrite (Htail keys).
    + split.
      * intros (i & H). by exists (S i).
      * intros ([|i] & f & d & Hi & Hc & Hrest).
        -- simplify_eq/=. congruence.
        -- by exists i, f, d.
    + intros f. split; [|by intros [? _]].
      intros Hk. split; [done|]. unfold parses. by rewrite E0.
  - assert (Hp0 : parses f0) by (unfold parses; by rewrite E0).
    destruct (decide (widget_key f0 ∈ keys)) as [Hin|Hin].
    + rewrite bool_decide_eq_true_2 by done. rewrite (Htail keys).
      * split.
        -- intros (i & H). by exists (S i).
        -- intros ([|i] & f & d & Hi & Hc & Hk & Hrest).
           ++ by simplify_eq/=.
           ++ by exists i, f, d.
      * intros f. split; [|by intros [? _]].
        intros Hk. split; [done|]. intros _ En. apply Hk.
        by rewrite <- (proj2 (widget_key_inj f0 f) En).
    + rewrite bool_decide_eq_false_2 by done.
      rewrite elem_of_cons, (Htail (keys ++ [widget_key f0])).
      * split.
        -- intros [->|(i & H)].
           ++ exists 0, f0, d0. split; [done|]. split; [done|].
              split; [done|]. split; [|done]. intros j g Hj. lia.
           ++ by exists (S i).
        -- intros ([|i] & f & d & Hi & Hc & Hk & Hearlier & Hp).
           ++ left. simplify_eq/=. congruence.
           ++ right. by exists i, f, d.
      * intros f. rewrite not_elem_of_app, list_elem_of_singleton.
        rewrite widget_key_inj. split.
        -- intros [Hk Hne]. split; [done|]. intros _ En. by apply Hne.
        -- intros [Hk Hne]. split; [done|]. intros En. by apply Hne.
Qed.

(** With no name repeated among the uploads that parse, no label box is
    refused: every upload that parses is loaded. *)
Lemma upload_distinct {U : Unicode} text_input keys files :
  (∀ f, f ∈ files → parses f → widget_key f ∉ keys) →
  NoDup (name <$> filter parses files) →
  loaded_uploads text_input keys files = parsed_uploads text_input files ∧
  upload_objects text_input keys files
  = omap (uploaded_frame text_input) files ∧
  upload_log text_input keys files = upload_status text_input <$> files.
Proof.
  revert keys. induction files as [|f files IH]; intros keys Hkeys Hnd; [done|].
  assert (Hhead :
    parsed_uploads text_input (f :: files)
    = match content f with
      | inr d => (upload_label text_input f, d) :: parsed_uploads text_input files
      | inl _ => parsed_uploads text_input files
      end ∧
    omap (uploaded_frame text_input) (f :: files)
    = match content f with
      | inr d => tag (upload_label text_input f) d
                 :: omap (uploaded_frame text_input) files
      | inl _ => omap (uploaded_frame text_input) files
      end).
  { unfold parsed_uploads, uploaded_frame. cbn [omap list_omap].
    by destruct (content f). }
  destruct Hhead as [-> ->]. rewrite fmap_cons. unfold upload_status at 1.
  cbn [loaded_uploads upload_objects upload_log].
  destruct (content f) as [msg|d] eqn:E.
  - assert (Hf : ¬ parses f)
      by (intros Hp; unfold parses in Hp; by rewrite E in Hp).
    rewrite filter_cons_False in Hnd by done.
    assert (Hkeys' : ∀ g, g ∈ files → parses g → widget_key g ∉ keys).
    { intros g Hg. apply Hkeys. by right. }
    destruct (IH keys Hkeys' Hnd) as (E1 & E2 & E3).
    by rewrite E1, E2, E3.
  - assert (Hf : parses f) by (unfold parses; by rewrite E).
    rewrite filter_cons_True in Hnd by done.
    rewrite fmap_cons in Hnd. apply NoDup_cons in Hnd as [Hnew Hnd].
    rewrite bool_decide_eq_false_2 by (apply Hkeys; [by left|done]).
    assert (Hkeys' : ∀ g, g ∈ files → parses g →
                          widget_key g ∉ keys ++ [widget_key f]).
    { intros g Hg Hp. apply not_elem_of_app. split.
      + apply Hkeys; [by right|done].
      + intros En%list_elem_of_singleton%widget_key_inj. apply Hnew.
        rewrite <- En. apply list_elem_of_fmap. exists g. split; [done|].
        by apply list_elem_of_filter. }
    destruct (IH _ Hkeys' Hnd) as (E1 & E2 & E3).
    by rewrite E1, E2, E3.
Qed.

(** The table of labelled frames given file by file. *)
Lemma zip_tagged {A} (label : A → string) (items : list A)
    (parsed : list DataFrame) :
  length items = length parsed →
  zip_with (λ item d, tag (label item) d) items parsed
  = (λ p, tag p.1 p.2) <$> zip (label <$> items) parsed.
Proof.
  revert parsed. induction items as [|item items IH]; intros [|d parsed] Hlen;
    try done.
  cbn. f_equal. apply IH. by injection Hlen.
Qed.

Lemma rows_concat_zip {A} (label : A → string) cols (items : list A) parsed :
  zip_with (λ item d, tag (label item) d) items parsed
    ≫= (λ d, reindex cols <$> rows d)
  = mjoin (zip_with
             (λ item d,
                (λ r : row, reindex cols (<["Country" := Str (label item)]> r))
                <$> rows d)
             items parsed).
Proof.
  revert parsed. induction items as [|item items IH]; intros [|d parsed];
    [done..|].
  cbn [zip_with mbind list_bind mjoin list_join]. rewrite rows_tag.
  rewrite <- list_fmap_compose. f_equal. apply IH.
Qed.

Lemma columns_concat_zip {A} (label : A → string) (items : list A) parsed c :
  length items = length parsed →
  parsed ≠ [] →
  c ∈ columns (concat_frames
                 (zip_with (λ item d, tag (label item) d) items parsed))
  ↔ c = "Country" ∨ ∃ d, d ∈ parsed ∧ c ∈ columns d.
Proof.
  intros Hlen Hne. rewrite zip_tagged by done.
  rewrite concat_tagged_columns.
  2:{ destruct items, parsed; try done. }
  split; (intros [->|H]; [by left|right]).
  - destruct H as ([k d] & Hp & Hc). exists d. split; [|done].
    apply elem_of_zip_r in Hp. done.
  - destruct H as (d & Hd & Hc).
    apply list_elem_of_lookup in Hd as [i Hi].
    destruct (lookup_lt_is_Some_2 (label <$> items) i) as [k Hk].
    { rewrite length_fmap, Hlen. by eapply lookup_lt_Some. }
    exists (k, d). split; [|done].
    apply list_elem_of_lookup. exists i. apply lookup_zip_with_Some.
    by exists k, d.
Qed.

Lemma uploaded_parsed_zip {U : Unicode} text_input files parsed :
  Forall2 (λ f d, content f = inr d) files parsed →
  omap (uploaded_frame text_input) files
  = zip_with (λ f d, tag (upload_label text_input f) d) files parsed ∧
  upload_status text_input <$> files
  = (λ f, "Loaded upload: " +:+ upload_label text_input f
            +:+ " (" +:+ name f +:+ ")") <$> files ∧
  filter parses files = files.
Proof.
  induction 1 as [|f d files parsed E _ (IH1 & IH2 & IH3)]; [done|].
  cbn [zip_with omap list_omap]. rewrite !fmap_cons, <- IH1, <- IH2.
  unfold uploaded_frame at 1, upload_status at 1. rewrite E.
  split; [done|]. split; [done|].
  rewrite filter_cons_True by (unfold parses; by rewrite E). by rewrite IH3.
Qed.

Lemma loaded_upload_not_failure {U : Unicode}
    (text_input : string → string → string) (files : list uploaded) :
  filter (λ e, is_failure e = true)
         ((λ f, "Loaded upload: " +:+ text_input (name f) (guess (name f))
                  +:+ " (" +:+ name f +:+ ")") <$> files)
  = [].
Proof.
  induction files as [|f files IH]; [done|].
  rewrite fmap_cons, filter_cons_False; [done|]. by simpl.
Qed.

End MainFacts.


(** ** Facts about grouping, sorting and rounding *)
Module AggFacts.
Import Pandas Main Content PandasFacts.

Lemma numbers_numeric s :
  Forall numeric s → numbers s = inr (omap number_of s).
Proof.
  induction 1 as [|v s Hv _ IH]; [done|].
  destruct v as [q|x|]; [|done|]; simpl; by rewrite IH.
Qed.

Lemma mapE_ok {A B} (f : A → exn + B) (g : A → B) xs :
  (∀ x, x ∈ xs → f x = inr (g x)) → mapE f xs = inr (g <$> xs).
Proof.
  induction xs as [|x xs IH]; intros H; [done|].
  simpl. rewrite H by (by left). simpl. rewrite IH; [done|].
  intros y Hy. apply H. by right.
Qed.

Lemma group_keys_elem by_col d k :
  k ∈ group_keys by_col d ↔ ∃ r, r ∈ rows d ∧ key_of by_col r = Some k.
Proof.
  unfold group_keys.
  by rewrite merge_sort_Permutation, elem_of_remove_dups, list_elem_of_omap.
Qed.


Lemma group_cells_numeric by_col c k d :
  Forall numeric (column c d) →
  Forall numeric (cells c (group_rows by_col k d)).
Proof.
  unfold column, cells, group_rows. rewrite !Forall_fmap, !Forall_forall.
  intros H r [_ Hr]%list_elem_of_filter. by apply H.
Qed.

Lemma groupby_ok by_col d :
  by_col ∈ columns d →
  groupby by_col d
  = inr ((λ k, (k, group_rows by_col k d)) <$> group_keys by_col d).
Proof.
  intros H. unfold groupby, has_column. by rewrite bool_decide_eq_true_2.
Qed.

Lemma omap_number_cells c (rs : list row) :
  omap number_of (cells c rs) = omap (λ r, number_of (cell r c)) rs.
Proof.
  induction rs as [|r rs IH]; [done|].
  unfold cells in *. rewrite fmap_cons. cbn [omap list_omap].
  fold (omap number_of ((λ r, cell r c) <$> rs)). by rewrite IH.
Qed.

Lemma group_numbers_eq c k d :
  Forall numeric (column c d) →
  numbers (cells c (group_rows "Country" k d)) = inr (group_numbers c k d).
Proof.
  intros H. rewrite numbers_numeric by (by apply group_cells_numeric).
  by rewrite omap_number_cells.
Qed.

Lemma group_means_run {N : Numerics} d :
  "Country" ∈ columns d → Forall numeric (column "GHI" d) →
  group_means d
  = inr ((λ k, (k, mean (group_numbers "GHI" k d)))
           <$> group_keys "Country" d).
Proof.
  intros Hc Hnum. unfold group_means. rewrite groupby_ok by done.
  cbn [bindE]. rewrite (mapE_ok _ (λ g : string * list row,
     (g.1, mean (omap (λ r, number_of (cell r "GHI")) g.2)))).
  - by rewrite <- list_fmap_compose.
  - intros g (k & -> & _)%list_elem_of_fmap. cbn [fst snd].
    by rewrite group_numbers_eq.
Qed.

Lemma dropna_elem {A} (s : list (string * option A)) k x :
  (k, x) ∈ dropna s ↔ (k, Some x) ∈ s.
Proof.
  unfold dropna. rewrite list_elem_of_omap. split.
  - intros ([k' [x'|]] & Hin & E); simplify_eq/=. done.
  - intros Hin. exists (k, Some x). done.
Qed.


(** *** Descending order on labelled values *)

Section Sorting.
Context {N : Numerics}.

Lemma insert_asc_perm x l : insert_asc x l ≡ₚ x :: l.
Proof.
  induction l as [|y l IH]; [done|]. cbn [insert_asc].
  destruct (float_le x.2 y.2); [done|]. rewrite IH. apply Permutation_swap.
Qed.

Lemma sort_asc_perm s : sort_asc s ≡ₚ s.
Proof.
  induction s as [|x s IH]; [done|].
  cbn [sort_asc foldr]. fold (sort_asc s). by rewrite insert_asc_perm, IH.
Qed.

Lemma sort_values_desc_perm s : sort_values_desc s ≡ₚ s.
Proof.
  unfold sort_values_desc. by rewrite reverse_Permutation, sort_asc_perm,
    reverse_Permutation.
Qed.

(** Sortedness needs what every float order gives: two floats that are not
    NaN compare one way or the other, transitively. *)
Context (float_le_total : ∀ x y : float,
           float_le x y = true ∨ float_le y x = true).
Context (float_le_trans : ∀ x y z : float,
           float_le x y = true → float_le y z = true → float_le x z = true).





End Sorting.

Lemma no_missing_metric d metrics :
  Forall (λ m, m ∈ columns d) metrics →
  filter (λ m, has_column m d = false) metrics = [].
Proof.
  induction 1 as [|m metrics Hm _ IH]; [done|].
  rewrite filter_cons_False; [done|].
  unfold has_column. by rewrite bool_decide_eq_true_2.
Qed.

Lemma agg_table_run {N : Numerics} d metrics :
  "Country" ∈ columns d →
  Forall (λ m, m ∈ columns d ∧ Forall numeric (column m d)) metrics →
  agg_table d metrics
  = inr ((λ k, (k, (λ m, ((m, (mean (group_numbers m k d),
                               median (group_numbers m k d),
                               std (group_numbers m k d)))
                            : string * stats float)) <$> metrics))
           <$> group_keys "Country" d).
Proof.
  intros Hc Hm. unfold agg_table. rewrite groupby_ok by done. cbn [bindE].
  rewrite no_missing_metric by (eapply Forall_impl; [exact Hm|]; by intros ? [? ?]).
  rewrite (mapE_ok _ (λ g : string * list row,
    (g.1, (λ m, ((m, (mean (omap (λ r, number_of (cell r m)) g.2),
                      median (omap (λ r, number_of (cell r m)) g.2),
                      std (omap (λ r, number_of (cell r m)) g.2)))
                   : string * stats float)) <$> metrics))).
  - by rewrite <- list_fmap_compose.
  - intros g (k & -> & _)%list_elem_of_fmap. cbn [fst snd].
    rewrite (mapE_ok _ (λ m,
       ((m, (mean (omap (λ r, number_of (cell r m)) (group_rows "Country" k d)),
             median (omap (λ r, number_of (cell r m)) (group_rows "Country" k d)),
             std (omap (λ r, number_of (cell r m)) (group_rows "Country" k d))))
          : string * stats float))).
    + done.
    + intros m Hin. rewrite Forall_forall in Hm. destruct (Hm m Hin) as [_ Hnum].
      unfold agg. by rewrite group_numbers_eq.
Qed.

(** The blocks of the summary and the entries of the ranking, in general. *)
Lemma summary_run {N : Numerics} d metrics :
  "Country" ∈ columns d →
  Forall (λ m, m ∈ columns d ∧ Forall numeric (column m d)) metrics →
  summary d metrics
  = inr ((λ k, (k, (λ m, ((m, (round 2 <$> mean (group_numbers m k d),
                               round 2 <$> median (group_numbers m k d),
                               round 2 <$> std (group_numbers m k d)))
                             : string * stats float)) <$> metrics))
           <$> group_keys "Country" d).
Proof.
  intros Hc Hm. unfold summary. rewrite agg_table_run by done. cbn [bindE].
  unfold round_table. rewrite <- list_fmap_compose. f_equal.
  apply list_fmap_ext. intros i k _. cbn [compose fst snd]. f_equal.
  rewrite <- list_fmap_compose. by apply list_fmap_ext.
Qed.

Lemma rank_run {N : Numerics} d :
  "Country" ∈ columns d → "GHI" ∈ columns d →
  Forall numeric (column "GHI" d) →
  rank d
  = inr (Some ((λ kv : string * float, (kv.1, round 2 kv.2))
                 <$> sort_values_desc
                       (dropna ((λ k, (k, mean (group_numbers "GHI" k d)))
                                  <$> group_keys "Country" d)))).
Proof.
  intros Hc Hg Hnum. unfold rank, has_column.
  rewrite bool_decide_eq_true_2 by done. by rewrite group_means_run.
Qed.

Lemma sorted_means_elem {N : Numerics} d k m :
  (k, m) ∈ sort_values_desc
             (dropna ((λ k, (k, mean (group_numbers "GHI" k d)))
                        <$> group_keys "Country" d))
  ↔ k ∈ group_keys "Country" d ∧ mean (group_numbers "GHI" k d) = Some m.
Proof.
  rewrite sort_values_desc_perm, dropna_elem, list_elem_of_fmap. split.
  - by intros (k' & [= -> E] & Hk).
  - intros [Hk E]. exists k. by rewrite E.
Qed.

Lemma ranking_elem {N : Numerics} d k x :
  (k, x) ∈ (λ kv : string * float, (kv.1, round 2 kv.2))
             <$> sort_values_desc
                   (dropna ((λ k, (k, mean (group_numbers "GHI" k d)))
                              <$> group_keys "Country" d))
  ↔ k ∈ group_keys "Country" d ∧
    ∃ m, mean (group_numbers "GHI" k d) = Some m ∧ x = round 2 m.
Proof.
  rewrite list_elem_of_fmap. split.
  - intros ([k' m] & [= -> ->] & [Hk E]%sorted_means_elem). eauto.
  - intros (Hk & m & E & ->). exists (k, m). split; [done|].
    by apply sorted_means_elem.
Qed.

Lemma mean_Some {N : Numerics} qs m :
  mean qs = Some m ↔ qs ≠ [] ∧ float_mean qs = Some m.
Proof. destruct qs; [by split; [|intros []]|]. by split; [|intros []]. Qed.

End AggFacts.

(** ** Facts about the binary64 kernels *)
Module Float64Facts.
Import Pandas Float64.

Lemma leb_total (x y : float64) : leb x y = true ∨ leb y x = true.
Proof.
  destruct x as [a|[]], y as [b|[]]; simpl; auto.
  destruct (Z.le_gt_cases (Qnum a * QDen b) (Qnum b * QDen a)) as [H|H].
  - left. by apply bool_decide_eq_true_2.
  - right. apply bool_decide_eq_true_2. lia.
Qed.


End Float64Facts.

(** ** Facts about the filtered view *)
Module ViewFacts.
Import Pandas Utils Main Content PandasFacts UtilsFacts.

Section View.
Context (parse : string → option Q).

Lemma coerce_frame_columns cols d :
  columns (coerce_frame parse cols d) = columns d.
Proof. by rewrite coerce_frame_eq. Qed.

Lemma coerce_frame_column cols d c :
  c ∈ cols → c ∈ columns d →
  column c (coerce_frame parse cols d) = to_numeric parse (column c d).
Proof.
  intros Hc Hd. rewrite coerce_frame_eq. unfold column, to_numeric. simpl.
  rewrite <- !list_fmap_compose. apply list_fmap_ext. intros i r _. simpl.
  rewrite coerce_row_cell, decide_True; [done|].
  by apply list_elem_of_filter.
Qed.

Lemma coerce_frame_numeric cols d c :
  c ∈ cols → c ∈ columns d →
  Forall numeric (column c (coerce_frame parse cols d)).
Proof.
  intros Hc Hd. rewrite coerce_frame_column by done.
  unfold to_numeric. apply Forall_fmap, Forall_true.
  intros v. apply to_numeric_value_numeric.
Qed.

Lemma filter_frame_numeric threshold c m d :
  Forall numeric (column m d) →
  Forall numeric (column m (filter_frame threshold c d)).
Proof.
  unfold column, filter_frame. simpl. rewrite !Forall_fmap, !Forall_forall.
  intros H r [_ Hr]%list_elem_of_filter. by apply H.
Qed.

Lemma metrics_available_elem cols m :
  m ∈ metrics_available cols ↔ m ∈ cols ∧ m ∈ ["GHI"; "DNI"; "DHI"].
Proof. unfold metrics_available. by rewrite list_elem_of_filter. Qed.

(** The view of a unified table is ready for the aggregations: it keeps the
    columns, and every metric column it has is numeric. *)
Lemma view_frame_ready selected_countries daylight_only ghi_thr d :
  let v := view_frame parse selected_countries daylight_only ghi_thr d in
  columns v = columns d ∧
  Forall (λ m, m ∈ columns v ∧ Forall numeric (column m v))
         (metrics_available (columns d)) ∧
  ("GHI" ∈ columns d → Forall numeric (column "GHI" v)).
Proof.
  cbn zeta. unfold view_frame.
  set (cols := metrics_available (columns d) ++ ["GHI"]).
  set (sub := select_countries selected_countries d).
  assert (Hcols : columns (coerce_frame parse cols sub) = columns d)
    by (by rewrite coerce_frame_columns).
  assert (Hnum : ∀ m, m ∈ cols → m ∈ columns d →
            Forall numeric (column m (coerce_frame parse cols sub))).
  { intros m Hm Hd. by apply coerce_frame_numeric. }
  assert (Hmetric : ∀ m, m ∈ metrics_available (columns d) →
            m ∈ cols ∧ m ∈ columns d).
  { intros m Hm. split.
    - unfold cols. apply elem_of_app. by left.
    - by apply metrics_available_elem in Hm as [? _]. }
  assert (Hghi : "GHI" ∈ cols).
  { unfold cols. apply elem_of_app. right. by apply list_elem_of_singleton. }
  destruct (daylight_only && bool_decide ("GHI" ∈ columns (coerce_frame parse cols sub))).
  - split; [exact Hcols|]. split.
    + apply Forall_forall. intros m Hm. destruct (Hmetric m Hm) as [H1 H2].
      split; [by rewrite <- Hcols in H2|].
      apply filter_frame_numeric. by apply Hnum.
    + intros Hd. apply filter_frame_numeric. by apply Hnum.
  - split; [exact Hcols|]. split.
    + apply Forall_forall. intros m Hm. destruct (Hmetric m Hm) as [H1 H2].
      split; [by rewrite Hcols|]. by apply Hnum.
    + intros Hd. by apply Hnum.
Qed.

(** Lines 100-103 return the view as a new object and leave the unified
    table, and every other object, as they were. *)
Lemma view_run σ df_all d selected_countries daylight_only ghi_thr :
  σ !! df_all = Some d →
  "Country" ∈ columns d →
  ∃ out σ',
    view parse df_all selected_countries daylight_only ghi_thr σ
    = (inr out, σ') ∧
    σ' !! out
    = Some (view_frame parse selected_countries daylight_only ghi_thr d) ∧
    (∀ l d0, σ !! l = Some d0 → σ' !! l = Some d0).
Proof.
  intros H Hc. unfold view.
  set (sub := select_countries selected_countries d).
  set (cols := metrics_available (columns d) ++ ["GHI"]).
  set (coerced := coerce_frame parse cols sub).
  set (σ3 := σ ++ [sub; sub; coerced]).
  assert (Hlen : length σ3 = S (S (S (length σ)))).
  { unfold σ3. rewrite length_app. simpl. lia. }
  assert (Hcoerced : σ3 !! S (S (length σ)) = Some coerced).
  { unfold σ3. rewrite lookup_app_r by lia.
    by replace (S (S (length σ)) - length σ) with 2 by lia. }
  assert (Hold : ∀ τ l d0, σ !! l = Some d0 → (σ ++ τ) !! l = Some d0).
  { intros τ l d0 Hl. by apply lookup_app_l_Some. }
  assert (Hsteps :
    ∀ k : ref → M ref,
      (cols ← get_columns df_all;
       country ← getitem df_all "Country";
       sub ← select df_all (isin selected_countries country);
       df_view ← copy sub;
       df_view ← coerce_numeric parse df_view
                   (metrics_available cols ++ ["GHI"]);
       k df_view) σ
      = k (S (S (length σ))) σ3).
  { intros k.
    rewrite (bind_ok _ _ _ _ _ (get_columns_ok _ _ _ H)).
    rewrite (bind_ok _ _ _ _ _ (getitem_ok _ _ _ _ H Hc)).
    erewrite bind_ok.
    2:{ apply select_ok; [exact H|]. unfold isin, column.
        by rewrite !length_fmap. }
    erewrite bind_ok; [|apply copy_ok, lookup_snoc].
    erewrite bind_ok.
    2:{ apply coerce_numeric_run.
        rewrite length_app, Nat.add_1_r.
        rewrite lookup_app_r by (rewrite length_app; simpl; lia).
        rewrite length_app, Nat.add_1_r, Nat.sub_diag. reflexivity. }
    rewrite !length_app. cbn [length]. rewrite !Nat.add_1_r.
    unfold σ3. by rewrite <- !app_assoc. }
  rewrite Hsteps.
  rewrite (bind_ok _ _ _ _ _ (get_columns_ok _ _ _ Hcoerced)).
  unfold view_frame. fold sub cols coerced.
  destruct (daylight_only && bool_decide ("GHI" ∈ columns coerced)) eqn:Eb.
  - apply andb_true_iff in Eb as [_ Hg%bool_decide_eq_true_1].
    exists (S (length σ3)),
      (σ3 ++ [filter_frame ghi_thr "GHI" coerced;
              filter_frame ghi_thr "GHI" coerced]).
    split.
    { apply daylight_filter_numeric; [exact Hcoerced|exact Hg|].
      apply coerce_frame_numeric;
        [|unfold coerced in Hg; by rewrite coerce_frame_columns in Hg].
      unfold cols. apply elem_of_app. right. by apply list_elem_of_singleton. }
    split.
    { rewrite lookup_app_r by lia.
      by replace (S (length σ3) - length σ3) with 1 by lia. }
    intros l d0 Hl. unfold σ3. rewrite <- app_assoc. by apply Hold.
  - exists (S (S (length σ))), σ3. split; [done|]. split; [exact Hcoerced|].
    intros l d0 Hl. by apply Hold.
Qed.

End View.
End ViewFacts.

(** ** The specification of [app/main.py] *)
Module MainSpec.
Import Pandas Pathlib Utils Main Content Examples PandasFacts UtilsFacts MainFacts
  AggFacts.

(** C8, as the code has it.  When exactly one of the input files fails to
    parse and one other file at least is given, ingestion returns the
    unified table: its columns are the label column and the columns of the
    other files, and its rows are the rows of the other files, file after
    file in order, each row carrying the label of its file under [Country]
    and laid out on the columns of the table.  The status log has one entry
    per file, in order; exactly one of them reports a failure, at the place
    of the failing file and with the parser's message.  This holds in
    directory-scan mode, and in upload mode when no two of the other files
    have the same name. *)
Theorem ingest_partial_failure {U : Unicode} (disk : string → string + DataFrame)
    (text_input : string → string → string) (σ : store) (msg : string)
    (parsed : list DataFrame) :
  parsed ≠ [] →
  (∀ (files : list uploaded) (before after : list (string * string))
     (country path : string),
     disk path = inl msg →
     Forall2 (λ item d, disk item.2 = inr d) (before ++ after) parsed →
     ∃ df_all σ' status u,
       ingest UseLocal (before ++ (country, path) :: after) disk text_input
              files σ
       = (inr (Some df_all, status), σ') ∧
       σ' !! df_all = Some u ∧
       (∀ c, c ∈ columns u ↔
             c = "Country" ∨ ∃ d, d ∈ parsed ∧ c ∈ columns d) ∧
       rows u
       = mjoin (zip_with
                  (λ item d,
                     (λ r : row,
                        reindex (columns u) (<["Country" := Str item.1]> r))
                     <$> rows d)
                  (before ++ after) parsed) ∧
       status
       = ((λ item, "Loaded: " +:+ item.1 +:+ " ← " +:+ item.2) <$> before)
         ++ ["❌ Failed to read " +:+ path +:+ ": " +:+ msg]
         ++ ((λ item, "Loaded: " +:+ item.1 +:+ " ← " +:+ item.2) <$> after) ∧
       length status = length (before ++ (country, path) :: after) ∧
       length (filter (λ e, is_failure e = true) status) = 1) ∧
  (∀ (detected : Dict.dict string) (before after : list uploaded)
     (f : uploaded),
     content f = inl msg →
     Forall2 (λ g d, content g = inr d) (before ++ after) parsed →
     NoDup (name <$> before ++ after) →
     ∃ df_all σ' status u,
       ingest Upload detected disk text_input (before ++ f :: after) σ
       = (inr (Some df_all, status), σ') ∧
       σ' !! df_all = Some u ∧
       (∀ c, c ∈ columns u ↔
             c = "Country" ∨ ∃ d, d ∈ parsed ∧ c ∈ columns d) ∧
       rows u
       = mjoin (zip_with
                  (λ g d,
                     (λ r : row,
                        reindex (columns u)
                          (<["Country" :=
                               Str (text_input (name g) (guess (name g)))]> r))
                     <$> rows d)
                  (before ++ after) parsed) ∧
       status
       = ((λ g, "Loaded upload: " +:+ text_input (name g) (guess (name g))
                  +:+ " (" +:+ name g +:+ ")") <$> before)
         ++ ["❌ Failed to read " +:+ name f +:+ ": " +:+ msg]
         ++ ((λ g, "Loaded upload: " +:+ text_input (name g) (guess (name g))
                     +:+ " (" +:+ name g +:+ ")") <$> after) ∧
       length status = length (before ++ f :: after) ∧
       length (filter (λ e, is_failure e = true) status) = 1).
Proof.
  intros Hne. split.
  - intros files before after country path Hfail Hothers.
    set (tagged := zip_with (λ item d, tag item.1 d) (before ++ after) parsed).
    assert (Hframes : omap (labelled disk) (before ++ (country, path) :: after)
                      = tagged).
    { rewrite omap_app. cbn [omap list_omap]. unfold labelled at 2.
      cbn [snd]. rewrite Hfail. rewrite <- omap_app.
      by apply labelled_parsed. }
    assert (Hlen : length (before ++ after) = length parsed)
      by (by apply Forall2_length in Hothers).
    assert (Htl : length tagged = length parsed).
    { unfold tagged. rewrite length_zip_with. lia. }
    assert (Hstatus : status_of disk <$> before ++ (country, path) :: after
      = ((λ item, "Loaded: " +:+ item.1 +:+ " ← " +:+ item.2) <$> before)
        ++ ["❌ Failed to read " +:+ path +:+ ": " +:+ msg]
        ++ ((λ item, "Loaded: " +:+ item.1 +:+ " ← " +:+ item.2) <$> after)).
    { apply Forall2_app_inv_l in Hothers as (p1 & p2 & H1 & H2 & _).
      rewrite fmap_app, fmap_cons.
      rewrite (status_parsed _ _ _ H1), (status_parsed _ _ _ H2).
      unfold status_of at 1. cbn [snd]. by rewrite Hfail. }
    exists (length σ + length tagged), (σ ++ tagged ++ [concat_frames tagged]),
      (status_of disk <$> before ++ (country, path) :: after),
      (concat_frames tagged).
    split.
    { rewrite ingest_local_run. cbn zeta. rewrite Hframes.
      destruct tagged as [|t ts] eqn:Et; [|done].
      destruct parsed; [done|]. simpl in Htl. lia. }
    split.
    { rewrite app_assoc, lookup_app_r by (rewrite length_app; lia).
      by rewrite length_app, Nat.sub_diag. }
    split; [intros c; by apply columns_concat_zip|].
    split; [cbn [concat_frames rows columns]; apply rows_concat_zip|].
    split; [exact Hstatus|].
    split; [by rewrite length_fmap|].
    rewrite Hstatus, !filter_app, !loaded_not_failure.
    rewrite filter_cons_True by done. done.
  - intros detected before after f Hfail Hothers Hnd.
    set (tagged := zip_with (λ g d, tag (upload_label text_input g) d)
                            (before ++ after) parsed).
    assert (Hlen : length (before ++ after) = length parsed)
      by (by apply Forall2_length in Hothers).
    assert (Htl : length tagged = length parsed).
    { unfold tagged. rewrite length_zip_with. lia. }
    assert (Hf : ¬ parses f)
      by (intros Hp; unfold parses in Hp; by rewrite Hfail in Hp).
    destruct (uploaded_parsed_zip text_input _ _ Hothers)
      as (Hzip & Hlog & Hall).
    assert (Hfilter : filter parses (before ++ f :: after) = before ++ after).
    { rewrite filter_app, filter_cons_False by done.
      by rewrite <- filter_app. }
    destruct (upload_distinct text_input [] (before ++ f :: after))
      as (Eloaded & Eobjects & Estatus).
    { intros g _ _. apply not_elem_of_nil. }
    { by rewrite Hfilter. }
    assert (Hframes : omap (uploaded_frame text_input) (before ++ f :: after)
                      = tagged).
    { rewrite omap_app. cbn [omap list_omap]. unfold uploaded_frame at 2.
      rewrite Hfail. by rewrite <- omap_app. }
    assert (Hloaded : (λ p, tag p.1 p.2)
                        <$> parsed_uploads text_input (before ++ f :: after)
                      = tagged).
    { rewrite <- Hframes. unfold parsed_uploads, uploaded_frame.
      generalize (before ++ f :: after). intros l.
      induction l as [|g l IH]; [done|]. cbn [omap list_omap].
      destruct (content g); [exact IH|]. rewrite fmap_cons. by f_equal. }
    assert (Hstatus : upload_status text_input <$> before ++ f :: after
      = ((λ g, "Loaded upload: " +:+ text_input (name g) (guess (name g))
                 +:+ " (" +:+ name g +:+ ")") <$> before)
        ++ ["❌ Failed to read " +:+ name f +:+ ": " +:+ msg]
        ++ ((λ g, "Loaded upload: " +:+ text_input (name g) (guess (name g))
                    +:+ " (" +:+ name g +:+ ")") <$> after)).
    { rewrite !fmap_app in Hlog.
      apply app_inj_1 in Hlog as [H1 H2]; [|by rewrite !length_fmap].
      rewrite fmap_app, fmap_cons, H1, H2.
      unfold upload_status at 1. by rewrite Hfail. }
    exists (length σ + length tagged), (σ ++ tagged ++ [concat_frames tagged]),
      (upload_status text_input <$> before ++ f :: after),
      (concat_frames tagged).
    split.
    { rewrite ingest_upload_run. cbn zeta.
      rewrite Eloaded, Eobjects, Estatus, Hframes.
      destruct (parsed_uploads text_input (before ++ f :: after)) eqn:Ep.
      - destruct tagged; [|done]. destruct parsed; [done|]. simpl in Htl. lia.
      - by rewrite Hloaded. }
    split.
    { rewrite app_assoc, lookup_app_r by (rewrite length_app; lia).
      by rewrite length_app, Nat.sub_diag. }
    split; [intros c; by apply columns_concat_zip|].
    split.
    { cbn [concat_frames rows columns].
      apply (rows_concat_zip (upload_label text_input)). }
    split; [exact Hstatus|].
    split; [by rewrite length_fmap|].
    rewrite Hstatus, !filter_app.
    rewrite !(loaded_upload_not_failure text_input).
    rewrite filter_cons_True by done. done.
Qed.

(** The three detected files of the sample, and three uploads, the second
    of each failing to parse.  The tables are written out: the readings of
    each file under its label, with the cells a file lacks missing. *)
Lemma ingest_partial_failure_witness :
  [site [100; 10]%Q; clean_readings] ≠ [] ∧
  sample_disk "data/togo_clean.csv" = inl "Error tokenizing data" ∧
  (∃ df_all σ',
     ingest (U := no_database) UseLocal sample_detected sample_disk keep_default [] []
     = (inr (Some df_all,
             ["Loaded: Benin ← data/benin_clean.csv";
              "❌ Failed to read data/togo_clean.csv: Error tokenizing data";
              "Loaded: Sierra Leone ← data/sierraleone_clean.csv"]), σ') ∧
     σ' !! df_all = Some (unified_sample "Benin" "Sierra Leone")) ∧
  (∃ df_all σ',
     ingest (U := no_database) Upload [] sample_disk keep_default sample_uploads []
     = (inr (Some df_all,
             ["Loaded upload: Benin (benin.csv)";
              "❌ Failed to read togo.csv: Error tokenizing data";
              "Loaded upload: Sierra Leone Clean (sierra_leone_clean.csv)"]),
        σ') ∧
     σ' !! df_all = Some (unified_sample "Benin" "Sierra Leone Clean")) ∧
  ∃ df_all σ' status u,
    ingest (U := no_database) UseLocal sample_detected sample_disk keep_default [] []
    = (inr (Some df_all, status), σ') ∧
    σ' !! df_all = Some u ∧
    (∀ c, c ∈ columns u ↔
          c = "Country" ∨
          ∃ d, d ∈ [site [100; 10]%Q; clean_readings] ∧ c ∈ columns d) ∧
    rows u
    = mjoin (zip_with
               (λ item d,
                  (λ r : row,
                     reindex (columns u) (<["Country" := Str item.1]> r))
                  <$> rows d)
               [("Benin", "data/benin_clean.csv");
                ("Sierra Leone", "data/sierraleone_clean.csv")]
               [site [100; 10]%Q; clean_readings]) ∧
    status
    = ["Loaded: Benin ← data/benin_clean.csv";
       "❌ Failed to read data/togo_clean.csv: Error tokenizing data";
       "Loaded: Sierra Leone ← data/sierraleone_clean.csv"] ∧
    length status = 3 ∧
    length (filter (λ e, is_failure e = true) status) = 1.
Proof.
  assert (Hne : [site [100; 10]%Q; clean_readings] ≠ []) by discriminate.
  split; [exact Hne|]. split; [reflexivity|].
  split; [eexists _, _; split; vm_compute; reflexivity|].
  split; [eexists _, _; split; vm_compute; reflexivity|].
  apply (proj1 (ingest_partial_failure (U := no_database) sample_disk keep_default []
                  "Error tokenizing data" [site [100; 10]%Q; clean_readings]
                  Hne)
           [] [("Benin", "data/benin_clean.csv")]
           [("Sierra Leone", "data/sierraleone_clean.csv")]
           "Togo" "data/togo_clean.csv").
  - reflexivity.
  - repeat constructor.
Defined.

(** C8, as the claim has it, fails in two ways.  When the only detected
    file does not parse, the status log has its one failure entry but no
    unified table is produced.  And in upload mode a file that parses is
    refused when an earlier upload has its name: of three uploads of which
    exactly one fails to parse, the two others having the same name, only
    one is loaded and the status log has two failure entries. *)
Lemma ingest_single_failure_counterexample :
  sample_disk "data/togo_clean.csv" = inl "Error tokenizing data" ∧
  ingest (U := no_database) UseLocal [("Togo", "data/togo_clean.csv")]
         sample_disk keep_default [] []
  = (inr (None,
          ["❌ Failed to read data/togo_clean.csv: Error tokenizing data"]),
     []) ∧
  (¬ ∃ df_all status σ',
      ingest (U := no_database) UseLocal [("Togo", "data/togo_clean.csv")]
             sample_disk keep_default [] []
      = (inr (Some df_all, status), σ')) ∧
  ∃ df_all status σ' u,
    ingest (U := no_database) Upload [] sample_disk keep_default
           same_name_uploads []
    = (inr (Some df_all, status), σ') ∧
    σ' !! df_all = Some u ∧
    length status = 3 ∧
    length (filter (λ e, is_failure e = true) status) = 2 ∧
    length (rows u) = 2.
Proof.
  split; [reflexivity|]. split; [reflexivity|]. split.
  - intros (df_all & status & σ' & E). vm_compute in E. discriminate E.
  - eexists _, _, _, _. split; [vm_compute; reflexivity|].
    split; [vm_compute; reflexivity|]. by vm_compute.
Qed.

(** C9, as the code has it.  The default label is the part of the file name
    before its first dot, underscores replaced by spaces, title-cased.  For
    a name with no dot or a single dot this is the name without its
    extension, treated the same way. *)
Theorem guess_spec {U : Unicode} (stem rest : string) :
  has_char "." stem = false →
  guess stem = title (replace "_" " " stem) ∧
  guess (stem +:+ "." +:+ rest) = title (replace "_" " " stem) ∧
  (has_char "." rest = false →
   guess (stem +:+ "." +:+ rest) = spec_label (stem +:+ "." +:+ rest)).
Proof.
  intros Hstem. unfold guess, spec_label.
  change (stem +:+ "." +:+ rest) with (stem +:+ String "." rest).
  rewrite split_head_no_sep, split_head_app by done.
  split; [done|]. split; [done|].
  intros Hrest. by rewrite strip_extension_app.
Qed.

Lemma guess_spec_witness :
  has_char "." "sierra_leone_clean" = false ∧
  guess (U := no_database) "sierra_leone_clean" = "Sierra Leone Clean" ∧
  guess (U := no_database) "sierra_leone_clean.csv" = "Sierra Leone Clean" ∧
  (has_char "." "csv" = false →
   guess (U := no_database) "sierra_leone_clean.csv"
   = spec_label (U := no_database) "sierra_leone_clean.csv").
Proof.
  split; [reflexivity|].
  apply (guess_spec (U := no_database) "sierra_leone_clean" "csv").
  reflexivity.
Defined.

(** C9, as the claim has it, fails on a name with a dot before its
    extension: the guess stops at the first dot. *)
Lemma guess_counterexample :
  guess (U := no_database) "benin.v2.csv" = "Benin" ∧
  spec_label (U := no_database) "benin.v2.csv" = "Benin.V2" ∧
  guess (U := no_database) "benin.v2.csv"
  ≠ spec_label (U := no_database) "benin.v2.csv".
Proof. split; [reflexivity|]. split; [reflexivity|]. discriminate. Qed.








End MainSpec.

(** ** Further properties of [app/utils.py] *)
Module UtilsExtra.
Import Pandas Pathlib Utils Content Examples PandasFacts UtilsFacts ViewFacts.

(** *** Numeric coercion *)

Lemma coerce_frame_names parse cols cols' d :
  (∀ c, c ∈ cols ↔ c ∈ cols') →
  coerce_frame parse cols d = coerce_frame parse cols' d.
Proof.
  intros Hsame. rewrite !coerce_frame_eq. f_equal.
  apply list_fmap_ext. intros i r _. apply map_eq. intros c.
  rewrite !coerce_row_lookup. apply decide_ext.
  rewrite !list_elem_of_filter. by rewrite Hsame.
Qed.

(** X1.  The frame [coerce_numeric] returns depends on the names it is
    given only as a set: two lists with the same members, in any order and
    with any repetition, give equal frames. *)
Theorem coerce_numeric_names (parse : string → option Q) (σ : store)
    (df : ref) (d : DataFrame) (cols cols' : list string) :
  σ !! df = Some d →
  (∀ c, c ∈ cols ↔ c ∈ cols') →
  ∃ out σ1 σ2 t,
    coerce_numeric parse df cols σ = (inr out, σ1) ∧
    coerce_numeric parse df cols' σ = (inr out, σ2) ∧
    σ1 !! out = Some t ∧
    σ2 !! out = Some t.
Proof.
  intros H Hsame.
  exists (length σ), (σ ++ [coerce_frame parse cols d]),
    (σ ++ [coerce_frame parse cols' d]), (coerce_frame parse cols d).
  split; [by apply coerce_numeric_run|].
  split; [by apply coerce_numeric_run|].
  split; [apply lookup_snoc|].
  rewrite (coerce_frame_names parse cols cols' d Hsame). apply lookup_snoc.
Qed.

Lemma coerce_numeric_names_witness :
  [readings] !! 0 = Some readings ∧
  (∀ c, c ∈ ["GHI"; "DNI"; "GHI"] ↔ c ∈ ["DNI"; "GHI"]) ∧
  ∃ out σ1 σ2 t,
    coerce_numeric parse_digits 0 ["GHI"; "DNI"; "GHI"] [readings]
    = (inr out, σ1) ∧
    coerce_numeric parse_digits 0 ["DNI"; "GHI"] [readings] = (inr out, σ2) ∧
    σ1 !! out = Some t ∧
    σ2 !! out = Some t.
Proof.
  assert (Hsame : ∀ c, c ∈ ["GHI"; "DNI"; "GHI"] ↔ c ∈ ["DNI"; "GHI"]).
  { intros c. rewrite !elem_of_cons, !elem_of_nil. tauto. }
  split; [reflexivity|]. split; [exact Hsame|].
  exact (coerce_numeric_names parse_digits [readings] 0 readings
           ["GHI"; "DNI"; "GHI"] ["DNI"; "GHI"] eq_refl Hsame).
Defined.

(** X2.  Coercing over one list of names and then coercing the result over
    a second list gives the frame that one coercion over both lists gives. *)
Theorem coerce_numeric_compose (parse : string → option Q) (σ : store)
    (df : ref) (d : DataFrame) (cols1 cols2 : list string) :
  σ !! df = Some d →
  ∃ out1 σ1 out2 σ2 out σ' t,
    coerce_numeric parse df cols1 σ = (inr out1, σ1) ∧
    coerce_numeric parse out1 cols2 σ1 = (inr out2, σ2) ∧
    coerce_numeric parse df (cols1 ++ cols2) σ = (inr out, σ') ∧
    σ2 !! out2 = Some t ∧
    σ' !! out = Some t.
Proof.
  intros H.
  pose proof (coerce_numeric_run parse σ df d cols1 H) as E1.
  pose proof (lookup_snoc σ (coerce_frame parse cols1 d)) as H1.
  pose proof (coerce_numeric_run parse _ _ _ cols2 H1) as E2.
  pose proof (coerce_numeric_run parse σ df d (cols1 ++ cols2) H) as E.
  eexists _, _, _, _, _, _, _.
  split; [exact E1|]. split; [exact E2|]. split; [exact E|].
  split; [apply lookup_snoc|].
  unfold coerce_frame. rewrite foldl_app. apply lookup_snoc.
Qed.

Lemma coerce_numeric_compose_witness :
  [readings] !! 0 = Some readings ∧
  ∃ out1 σ1 out2 σ2 out σ' t,
    coerce_numeric parse_digits 0 ["GHI"] [readings] = (inr out1, σ1) ∧
    coerce_numeric parse_digits out1 ["Note"] σ1 = (inr out2, σ2) ∧
    coerce_numeric parse_digits 0 (["GHI"] ++ ["Note"]) [readings]
    = (inr out, σ') ∧
    σ2 !! out2 = Some t ∧
    σ' !! out = Some t.
Proof.
  split; [reflexivity|].
  exact (coerce_numeric_compose parse_digits [readings] 0 readings
           ["GHI"] ["Note"] eq_refl).
Defined.

(** *** The daylight filter *)

Lemma filter_greater_twice t1 t2 c (rs : list row) :
  (t1 <= t2)%Q →
  filter (greater t2 c) (filter (greater t1 c) rs) = filter (greater t2 c) rs.
Proof.
  intros Hle. rewrite list_filter_filter. apply list_filter_iff.
  intros r. split; [by intros [? _]|]. intros H2. split; [done|].
  unfold greater in *. destruct (cell r c); try done.
  by eapply Qle_lt_trans.
Qed.

Lemma filter_frame_twice t1 t2 c d :
  (t1 <= t2)%Q →
  filter_frame t2 c (filter_frame t1 c d) = filter_frame t2 c d.
Proof.
  intros Hle. unfold filter_frame. simpl. by rewrite filter_greater_twice.
Qed.

(** Whether the filter returns is decided by the frame and the column. *)
Lemma daylight_filter_returns σ df d c threshold out σ' :
  σ !! df = Some d →
  daylight_filter df c threshold σ = (inr out, σ') →
  c ∉ columns d ∨ (c ∈ columns d ∧ Forall numeric (column c d)).
Proof.
  intros H E. destruct (decide (c ∈ columns d)) as [Hc|Hc]; [|by left].
  right. split; [done|].
  destruct (decide (Forall numeric (column c d))) as [Hn|Hn]; [done|].
  by rewrite (daylight_filter_string σ df d c threshold H Hc Hn) in E.
Qed.

(** X3.  Filtering the result of a filter again, on the same column and at
    a threshold that is not lower, gives the frame that filtering the input
    once at the second threshold gives; at the same threshold the second
    pass changes nothing. *)
Theorem daylight_filter_compose (σ : store) (df : ref) (d : DataFrame)
    (ghi_col : string) (t1 t2 : Q) (out1 : ref) (σ1 : store) :
  σ !! df = Some d →
  (t1 <= t2)%Q →
  daylight_filter df ghi_col t1 σ = (inr out1, σ1) →
  ∃ out2 σ2 out σ' t,
    daylight_filter out1 ghi_col t2 σ1 = (inr out2, σ2) ∧
    daylight_filter df ghi_col t2 σ = (inr out, σ') ∧
    σ2 !! out2 = Some t ∧
    σ' !! out = Some t.
Proof.
  intros H Hle E1.
  destruct (daylight_filter_returns _ _ _ _ _ _ _ H E1) as [Hc|[Hc Hn]].
  - rewrite (daylight_filter_absent σ df d ghi_col t1 H Hc) in E1.
    injection E1 as <- <-.
    exists (length (σ ++ [d])), ((σ ++ [d]) ++ [d]), (length σ), (σ ++ [d]), d.
    split; [apply daylight_filter_absent; [apply lookup_snoc|done]|].
    split; [by apply daylight_filter_absent|].
    split; apply lookup_snoc.
  - rewrite (daylight_filter_numeric σ df d ghi_col t1 H Hc Hn) in E1.
    injection E1 as <- <-.
    set (f1 := filter_frame t1 ghi_col d).
    assert (H1 : (σ ++ [f1; f1]) !! S (length σ) = Some f1).
    { rewrite lookup_app_r by lia.
      by replace (S (length σ) - length σ) with 1 by lia. }
    assert (Hn1 : Forall numeric (column ghi_col f1))
      by (by apply filter_frame_numeric).
    pose proof (daylight_filter_numeric _ _ _ ghi_col t2 H1 Hc Hn1) as E2.
    pose proof (daylight_filter_numeric σ df d ghi_col t2 H Hc Hn) as E.
    eexists _, _, _, _, (filter_frame t2 ghi_col d).
    split; [exact E2|]. split; [exact E|]. split.
    + rewrite lookup_app_r by lia.
      replace (S (length (σ ++ [f1; f1])) - length (σ ++ [f1; f1])) with 1
        by lia.
      unfold f1. by rewrite filter_frame_twice.
    + rewrite lookup_app_r by lia.
      by replace (S (length σ) - length σ) with 1 by lia.
Qed.

Lemma daylight_filter_compose_witness :
  [clean_readings] !! 0 = Some clean_readings ∧
  (20 <= 50)%Q ∧
  daylight_filter 0 "GHI" 20 [clean_readings]
  = (inr 2, [clean_readings; filter_frame 20 "GHI" clean_readings;
             filter_frame 20 "GHI" clean_readings]) ∧
  ∃ out2 σ2 out σ' t,
    daylight_filter 2 "GHI" 50
      [clean_readings; filter_frame 20 "GHI" clean_readings;
       filter_frame 20 "GHI" clean_readings]
    = (inr out2, σ2) ∧
    daylight_filter 0 "GHI" 50 [clean_readings] = (inr out, σ') ∧
    σ2 !! out2 = Some t ∧
    σ' !! out = Some t.
Proof.
  assert (E1 : daylight_filter 0 "GHI" 20 [clean_readings]
    = (inr 2, [clean_readings; filter_frame 20 "GHI" clean_readings;
               filter_frame 20 "GHI" clean_readings]))
    by (vm_compute; reflexivity).
  assert (Hle : (20 <= 50)%Q) by (vm_compute; discriminate).
  split; [reflexivity|]. split; [exact Hle|]. split; [exact E1|].
  exact (daylight_filter_compose [clean_readings] 0 clean_readings "GHI"
           20 50 2 _ eq_refl Hle E1).
Defined.

(** X4.  After a coercion that names the column, the daylight filter on
    that column never raises, whatever the column held before; every row it
    keeps holds a number strictly above the threshold, and the columns are
    those of the frame coerced. *)
Theorem coerce_then_filter (parse : string → option Q) (σ : store) (df : ref)
    (d : DataFrame) (cols : list string) (ghi_col : string) (threshold : Q) :
  σ !! df = Some d →
  ghi_col ∈ cols →
  ∃ out1 σ1 out2 σ2 t,
    coerce_numeric parse df cols σ = (inr out1, σ1) ∧
    daylight_filter out1 ghi_col threshold σ1 = (inr out2, σ2) ∧
    σ2 !! out2 = Some t ∧
    σ2 !! df = Some d ∧
    columns t = columns d ∧
    (ghi_col ∈ columns d →
     ∀ r, r ∈ rows t → ∃ q, cell r ghi_col = Num q ∧ (threshold < q)%Q).
Proof.
  intros H Hcol.
  set (c := coerce_frame parse cols d).
  pose proof (coerce_numeric_run parse σ df d cols H) as E1. fold c in E1.
  pose proof (lookup_snoc σ c) as H1.
  assert (Hdf : ∀ τ, (σ ++ τ) !! df = Some d)
    by (intros τ; by apply lookup_app_l_Some).
  destruct (decide (ghi_col ∈ columns d)) as [Hc|Hc].
  - assert (Hc' : ghi_col ∈ columns c)
      by (unfold c; by rewrite coerce_frame_columns).
    assert (Hn : Forall numeric (column ghi_col c))
      by (by apply coerce_frame_numeric).
    pose proof (daylight_filter_numeric _ _ _ ghi_col threshold H1 Hc' Hn) as E2.
    eexists _, _, _, _, (filter_frame threshold ghi_col c).
    split; [exact E1|]. split; [exact E2|]. split.
    { rewrite lookup_app_r by lia.
      by replace (S (length (σ ++ [c])) - length (σ ++ [c])) with 1 by lia. }
    split; [by rewrite <- app_assoc|].
    split; [unfold c; apply coerce_frame_columns|].
    intros _ r [Hg _]%list_elem_of_filter. by apply greater_iff.
  - assert (Hc' : ghi_col ∉ columns c)
      by (unfold c; by rewrite coerce_frame_columns).
    pose proof (daylight_filter_absent _ _ _ ghi_col threshold H1 Hc') as E2.
    eexists _, _, _, _, c.
    split; [exact E1|]. split; [exact E2|]. split; [apply lookup_snoc|].
    split; [by rewrite <- app_assoc|].
    split; [unfold c; apply coerce_frame_columns|]. done.
Qed.

Lemma coerce_then_filter_witness :
  [readings] !! 0 = Some readings ∧
  "GHI" ∈ ["GHI"; "DNI"] ∧
  ∃ out1 σ1 out2 σ2 t,
    coerce_numeric parse_digits 0 ["GHI"; "DNI"] [readings] = (inr out1, σ1) ∧
    daylight_filter out1 "GHI" 20 σ1 = (inr out2, σ2) ∧
    σ2 !! out2 = Some t ∧
    σ2 !! 0 = Some readings ∧
    columns t = columns readings ∧
    ("GHI" ∈ columns readings →
     ∀ r, r ∈ rows t → ∃ q, cell r "GHI" = Num q ∧ (20 < q)%Q).
Proof.
  assert (Hin : "GHI" ∈ ["GHI"; "DNI"])
    by (apply (bool_decide_unpack _); vm_compute; exact I).
  split; [reflexivity|]. split; [exact Hin|].
  exact (coerce_then_filter parse_digits [readings] 0 readings
           ["GHI"; "DNI"] "GHI" 20 eq_refl Hin).
Defined.

(** *** The file locator *)

Lemma dict_set_fresh {V} k (v : V) (d : Dict.dict V) :
  k ∉ Dict.keys d → Dict.set k v d = d ++ [(k, v)].
Proof.
  unfold Dict.keys. induction d as [|[k' v'] d IH]; [done|].
  simpl. intros Hk. rewrite bool_decide_eq_false_2 by set_solver.
  rewrite IH; [done|set_solver].
Qed.

Lemma dict_empty_get {V} (d : Dict.dict V) :
  d = [] ↔ ∀ k, Dict.get k d = None.
Proof.
  split; [by intros ->|]. destruct d as [|[k v] d]; [done|].
  intros H. specialize (H k). simpl in H.
  by rewrite bool_decide_eq_true_2 in H.
Qed.

Section LocateMore.
Context (fs : filesystem) (data_dir : string).

Lemma omap_hit_sublist (table : Dict.dict (list string)) :
  omap (hit fs data_dir) table `sublist_of` Dict.keys table.
Proof.
  unfold Dict.keys. induction table as [|[k ps] table IH]; [done|].
  cbn [omap list_omap fmap list_fmap fst].
  change (hit fs data_dir (k, ps))
    with (match first_hit fs data_dir ps with
          | Some _ => Some k
          | None => None
          end).
  destruct (first_hit fs data_dir ps).
  - by apply sublist_skip.
  - by apply sublist_cons.
Qed.

Lemma locate_loop_keys (table : Dict.dict (list string)) mapping :
  NoDup (Dict.keys table) →
  (∀ k, k ∈ Dict.keys table → k ∉ Dict.keys mapping) →
  Dict.keys
    (foldl (λ mapping '(country, patterns),
              try_patterns fs data_dir country patterns mapping)
           mapping table)
  = Dict.keys mapping ++ omap (hit fs data_dir) table.
Proof.
  unfold Dict.keys. revert mapping.
  induction table as [|[k ps] table IH]; intros mapping Hnd Hfresh.
  - simpl. by rewrite app_nil_r.
  - cbn [foldl]. cbn [fmap list_fmap fst] in Hnd, Hfresh.
    apply NoDup_cons in Hnd as [Hk Hnd].
    rewrite try_patterns_first_hit.
    cbn [omap list_omap].
    change (hit fs data_dir (k, ps))
      with (match first_hit fs data_dir ps with
            | Some _ => Some k
            | None => None
            end).
    destruct (first_hit fs data_dir ps) as [path|].
    + rewrite IH; [|done|].
      * rewrite dict_set_fresh by (apply Hfresh, elem_of_cons; by left).
        by rewrite fmap_app, <- app_assoc.
      * intros k' Hk'.
        rewrite dict_set_fresh by (apply Hfresh, elem_of_cons; by left).
        rewrite fmap_app. cbn [fmap list_fmap fst].
        intros [Hin|Hin%list_elem_of_singleton]%elem_of_app.
        -- eapply Hfresh; [apply elem_of_cons; by right|done].
        -- by subst k'.
    + rewrite IH; [done|done|].
      intros k' Hk'. apply Hfresh, elem_of_cons. by right.
Qed.

Lemma first_hit_None patterns :
  first_hit fs data_dir patterns = None ↔
  Forall (λ pat, glob fs data_dir pat = []) patterns.
Proof.
  induction patterns as [|pat patterns IH]; [done|].
  simpl. rewrite Forall_cons.
  destruct (glob fs data_dir pat) as [|f found]; [|by split; [|intros [? _]]].
  rewrite IH. tauto.
Qed.

Lemma glob_path pat path :
  path ∈ glob fs data_dir pat →
  ∃ entries name,
    fs data_dir = Some (Dir entries) ∧ name ∈ entries ∧
    glob_match pat name = true ∧ path = joinpath data_dir name.
Proof.
  unfold glob. destruct (fs data_dir) as [[|entries]|];
    [by intros ?%elem_of_nil| |by intros ?%elem_of_nil].
  intros (name & -> & [Hm Hin]%list_elem_of_filter)%list_elem_of_fmap.
  by exists entries, name.
Qed.

End LocateMore.

(** X5.  The mapping the locator returns lists its labels in the order
    Benin, Togo, Sierra Leone, each at most once, so it has at most three
    entries; and every path in it is the path, under the directory, of an
    entry of the directory whose name matches one of the patterns of its
    label. *)
Theorem find_country_files_entries (fs : filesystem) (data_dir : string) :
  Dict.keys (find_country_files fs data_dir)
    `sublist_of` ["Benin"; "Togo"; "Sierra Leone"] ∧
  length (find_country_files fs data_dir) ≤ 3 ∧
  ∀ country path,
    Dict.get country (find_country_files fs data_dir) = Some path →
    ∃ entries name patterns pat,
      fs data_dir = Some (Dir entries) ∧
      name ∈ entries ∧
      Dict.get country globs = Some patterns ∧
      pat ∈ patterns ∧
      glob_match pat name = true ∧
      path = joinpath data_dir name.
Proof.
  assert (Hkeys : Dict.keys (find_country_files fs data_dir)
                    `sublist_of` ["Benin"; "Togo"; "Sierra Leone"]).
  { unfold find_country_files. destruct (negb _); [apply sublist_nil_l|].
    rewrite locate_loop_keys.
    - apply (omap_hit_sublist fs data_dir globs).
    - unfold Dict.keys, globs. simpl.
      repeat (apply NoDup_cons; split; [set_solver|]). apply NoDup_nil_2.
    - intros k _. apply not_elem_of_nil. }
  split; [exact Hkeys|]. split.
  { apply sublist_length in Hkeys. unfold Dict.keys in Hkeys.
    rewrite length_fmap in Hkeys. exact Hkeys. }
  intros country path. rewrite find_country_files_get.
  destruct (Dict.get country globs) as [patterns|]; [|done].
  intros (pre & pat & post & -> & _ & Hhd)%first_hit_Some.
  assert (Hin : path ∈ glob fs data_dir pat).
  { destruct (glob fs data_dir pat); simplify_eq/=. apply elem_of_cons. by left. }
  apply glob_path in Hin as (entries & name & ? & ? & ? & ?).
  exists entries, name, (pre ++ pat :: post), pat.
  repeat split; try done. apply elem_of_app. right. apply elem_of_cons. by left.
Qed.

(** X7.  The locator returns the empty mapping exactly when none of the
    patterns of any label has a match; in particular when the path names a
    regular file, or a directory without entries. *)
Theorem find_country_files_empty (fs : filesystem) (data_dir : string) :
  (find_country_files fs data_dir = [] ↔
   ∀ country patterns pat,
     Dict.get country globs = Some patterns → pat ∈ patterns →
     glob fs data_dir pat = []) ∧
  (fs data_dir = Some File → find_country_files fs data_dir = []) ∧
  (fs data_dir = Some (Dir []) → find_country_files fs data_dir = []).
Proof.
  assert (Hiff : find_country_files fs data_dir = [] ↔
    ∀ country patterns pat,
      Dict.get country globs = Some patterns → pat ∈ patterns →
      glob fs data_dir pat = []).
  { rewrite dict_empty_get. split.
    - intros H country patterns pat Hg Hpat.
      specialize (H country). rewrite find_country_files_get, Hg in H.
      apply first_hit_None in H. rewrite Forall_forall in H. by apply H.
    - intros H country. rewrite find_country_files_get.
      destruct (Dict.get country globs) as [patterns|] eqn:Hg; [|done].
      apply first_hit_None, Forall_forall. intros pat Hpat. by eapply H. }
  split; [exact Hiff|]. split.
  - intros Hf. apply Hiff. intros. unfold glob. by rewrite Hf.
  - intros Hd. apply Hiff. intros. unfold glob. by rewrite Hd.
Qed.

(** *** Pattern matching and the names the docstring lists *)

Lemma glob_match_star_unfold p name :
  glob_match (String "*" p) name
  = glob_match p name
    || match name with
       | EmptyString => false
       | String _ name' => glob_match (String "*" p) name'
       end.
Proof. by destruct name. Qed.

Lemma glob_match_literal p :
  has_char "*" p = false → glob_match p p = true.
Proof.
  induction p as [|c p IH]; [done|]. cbn [has_char glob_match].
  destruct (bool_decide (c = "*"%char)); [done|]. cbn [orb]. intros Hp.
  by rewrite bool_decide_eq_true_2, IH.
Qed.

Lemma glob_match_prefix pre p name :
  has_char "*" pre = false →
  glob_match (pre +:+ p) (pre +:+ name) = glob_match p name.
Proof.
  induction pre as [|c pre IH]; [done|]. cbn [has_char].
  destruct (bool_decide (c = "*"%char)) eqn:E; [done|]. cbn [orb]. intros Hp.
  change (String c pre +:+ p) with (String c (pre +:+ p)).
  change (String c pre +:+ name) with (String c (pre +:+ name)).
  cbn [glob_match]. rewrite E. by rewrite bool_decide_eq_true_2, IH.
Qed.

Lemma glob_match_star_skip p mid name :
  glob_match p name = true →
  glob_match (String "*" p) (mid +:+ name) = true.
Proof.
  intros H. induction mid as [|c mid IH].
  - change ("" +:+ name) with name.
    rewrite glob_match_star_unfold. by rewrite H.
  - change (String c mid +:+ name) with (String c (mid +:+ name)).
    rewrite glob_match_star_unfold. apply orb_true_iff. right. exact IH.
Qed.

(** A name made of a star-free prefix, anything, and a star-free suffix
    matches the pattern that puts [*] between the two. *)
Lemma glob_match_between pre suf mid :
  has_char "*" pre = false → has_char "*" suf = false →
  glob_match (pre +:+ String "*" suf) (pre +:+ mid +:+ suf) = true.
Proof.
  intros Hpre Hsuf. rewrite glob_match_prefix by done.
  by apply glob_match_star_skip, glob_match_literal.
Qed.

Lemma filter_head_elem {A} (P : A → Prop) `{!∀ x, Decision (P x)} l x :
  x ∈ l → P x → ∃ y, head (filter P l) = Some y ∧ P y ∧ y ∈ l.
Proof.
  intros Hin HP.
  assert (Hx : x ∈ filter P l) by (by apply list_elem_of_filter).
  destruct (filter P l) as [|y l'] eqn:E; [by apply elem_of_nil in Hx|].
  exists y. split; [done|]. apply (list_elem_of_filter P l y). rewrite E.
  apply elem_of_cons. by left.
Qed.

Lemma first_pattern_wins fs data_dir entries pat patterns name :
  fs data_dir = Some (Dir entries) →
  name ∈ entries → glob_match pat name = true →
  ∃ found,
    found ∈ entries ∧ glob_match pat found = true ∧
    first_hit fs data_dir (pat :: patterns)
    = Some (joinpath data_dir found).
Proof.
  intros Hdir Hin Hm. cbn [first_hit]. unfold glob. rewrite Hdir.
  destruct (filter_head_elem (λ n, glob_match pat n = true) entries name
              Hin Hm) as (found & Hhd & Hf & Hfin).
  exists found. split; [done|]. split; [done|].
  destruct (filter _ entries) as [|y l]; simplify_eq/=. done.
Qed.

(** X6.  The names of the docstring are found: in a directory that holds
    an entry named [benin...clean.csv], the label Benin is mapped to the
    path of an entry of that form, whatever else the directory holds, and
    likewise Togo for [togo...clean.csv]; with an entry named
    [sierra...clean.csv] the label Sierra Leone is mapped to the path of an
    entry that matches [sierraleone*clean.csv] or [sierra*clean.csv]. *)
Theorem find_country_files_clean (fs : filesystem) (data_dir : string)
    (entries : list string) :
  fs data_dir = Some (Dir entries) →
  (∀ mid, "benin" +:+ mid +:+ "clean.csv" ∈ entries →
     ∃ found,
       found ∈ entries ∧ glob_match "benin*clean.csv" found = true ∧
       Dict.get "Benin" (find_country_files fs data_dir)
       = Some (joinpath data_dir found)) ∧
  (∀ mid, "togo" +:+ mid +:+ "clean.csv" ∈ entries →
     ∃ found,
       found ∈ entries ∧ glob_match "togo*clean.csv" found = true ∧
       Dict.get "Togo" (find_country_files fs data_dir)
       = Some (joinpath data_dir found)) ∧
  (∀ mid, "sierra" +:+ mid +:+ "clean.csv" ∈ entries →
     ∃ found,
       found ∈ entries ∧
       (glob_match "sierraleone*clean.csv" found = true ∨
        glob_match "sierra*clean.csv" found = true) ∧
       Dict.get "Sierra Leone" (find_country_files fs data_dir)
       = Some (joinpath data_dir found)).
Proof.
  intros Hdir. split; [|split].
  - intros mid Hin. rewrite find_country_files_get.
    apply (first_pattern_wins fs data_dir entries "benin*clean.csv" _ _ Hdir Hin).
    by apply (glob_match_between "benin" "clean.csv" mid).
  - intros mid Hin. rewrite find_country_files_get.
    apply (first_pattern_wins fs data_dir entries "togo*clean.csv" _ _ Hdir Hin).
    by apply (glob_match_between "togo" "clean.csv" mid).
  - intros mid Hin. rewrite find_country_files_get.
    cbn [globs Dict.get]. rewrite !bool_decide_eq_false_2 by done.
    rewrite bool_decide_eq_true_2 by done.
    assert (Hm : glob_match "sierra*clean.csv"
                   ("sierra" +:+ mid +:+ "clean.csv") = true)
      by (by apply (glob_match_between "sierra" "clean.csv" mid)).
    cbn [first_hit].
    destruct (glob fs data_dir "sierraleone*clean.csv") as [|path found] eqn:Eg.
    + destruct (first_pattern_wins fs data_dir entries "sierra*clean.csv"
                  ["sierraleone.csv"] _ Hdir Hin Hm) as (f & ? & ? & E).
      exists f. split; [done|]. split; [by right|]. exact E.
    + assert (Hp : path ∈ glob fs data_dir "sierraleone*clean.csv")
        by (rewrite Eg; apply elem_of_cons; by left).
      apply glob_path in Hp as (entries' & name & Hdir' & ? & ? & ->).
      rewrite Hdir in Hdir'. injection Hdir' as <-.
      exists name. split; [done|]. split; [by left|done].
Qed.

Lemma find_country_files_clean_witness :
  data_holding ["benin.csv"; "benin-malanville_clean.csv"; "notes.txt"] "data"
  = Some (Dir ["benin.csv"; "benin-malanville_clean.csv"; "notes.txt"]) ∧
  "benin" +:+ "-malanville_" +:+ "clean.csv"
    ∈ ["benin.csv"; "benin-malanville_clean.csv"; "notes.txt"] ∧
  ∃ found,
    found ∈ ["benin.csv"; "benin-malanville_clean.csv"; "notes.txt"] ∧
    glob_match "benin*clean.csv" found = true ∧
    Dict.get "Benin"
      (find_country_files
         (data_holding ["benin.csv"; "benin-malanville_clean.csv"; "notes.txt"])
         "data")
    = Some (joinpath "data" found).
Proof.
  assert (Hin : "benin" +:+ "-malanville_" +:+ "clean.csv"
                  ∈ ["benin.csv"; "benin-malanville_clean.csv"; "notes.txt"])
    by (apply (bool_decide_unpack _); vm_compute; exact I).
  split; [reflexivity|]. split; [exact Hin|].
  exact (proj1 (find_country_files_clean
                  (data_holding ["benin.csv"; "benin-malanville_clean.csv";
                                 "notes.txt"])
                  "data" _ eq_refl) "-malanville_" Hin).
Defined.

End UtilsExtra.

(** ** Further properties of [app/main.py] *)
Module MainExtra.
Import Pandas Pathlib Utils Main Content Examples PandasFacts UtilsFacts
  MainFacts AggFacts ViewFacts.

(** *** Data input, any number of failures *)

(** X8.  Directory-scan ingestion, whatever the number of files that fail:
    it returns; the status log has one entry per detected file, and the
    failure entries and the files that parse add up to the number of files;
    no object of the store is changed.  With no file that parses there is
    no unified table.  Otherwise the unified table has the label column and
    the columns of the files that parse, as many rows as those files have
    together, and under [Country] every row holds the label of one of
    them. *)
Theorem ingest_local_general {U : Unicode} (disk : string → string + DataFrame)
    (text_input : string → string → string) (files : list uploaded)
    (σ : store) (detected : Dict.dict string) :
  ∃ result status σ',
    ingest UseLocal detected disk text_input files σ
    = (inr (result, status), σ') ∧
    length status = length detected ∧
    length (filter (λ e, is_failure e = true) status)
    + length (parsed_files disk detected)
    = length detected ∧
    (∀ l d0, σ !! l = Some d0 → σ' !! l = Some d0) ∧
    match result with
    | None => parsed_files disk detected = []
    | Some df_all =>
        parsed_files disk detected ≠ [] ∧
        ∃ u,
          σ' !! df_all = Some u ∧
          labelled_table u ∧
          (∀ c, c ∈ columns u ↔
                c = "Country" ∨
                ∃ p, p ∈ parsed_files disk detected ∧ c ∈ columns p.2) ∧
          length (rows u)
          = sum_list ((λ p, length (rows p.2)) <$> parsed_files disk detected) ∧
          (∀ r, r ∈ rows u →
                ∃ p, p ∈ parsed_files disk detected ∧
                     cell r "Country" = Str p.1)
    end.
Proof.
  pose proof (ingest_local_run detected disk text_input files σ) as E.
  cbn zeta in E. rewrite labelled_parsed_files in E.
  destruct (parsed_files disk detected) as [|p ps] eqn:Eps.
  - exists None, (status_of disk <$> detected), σ.
    split; [exact E|]. split; [by rewrite length_fmap|].
    split; [rewrite <- (failures_and_parsed disk detected), Eps; done|].
    split; done.
  - remember (p :: ps) as pps eqn:Epps.
    assert (Hne : pps ≠ []) by (by subst pps).
    set (frames := (λ p, tag p.1 p.2) <$> pps) in *.
    exists (Some (length σ + length frames)),
      (status_of disk <$> detected), (σ ++ frames ++ [concat_frames frames]).
    split.
    { rewrite E. unfold frames. subst pps. by rewrite fmap_cons. }
    split; [by rewrite length_fmap|].
    split; [rewrite <- (failures_and_parsed disk detected), Eps, Epps; done|].
    split; [intros l d0 Hl; by apply lookup_app_l_Some|].
    split; [done|]. exists (concat_frames frames). split.
    { rewrite app_assoc, lookup_app_r by (rewrite length_app; lia).
      by rewrite length_app, Nat.sub_diag. }
    destruct (concat_tagged_labelled pps Hne) as [Hlab Hrows].
    split; [exact Hlab|].
    split; [intros c; by apply concat_tagged_columns|].
    split; [apply concat_tagged_length|]. exact Hrows.
Qed.

(** *** Upload mode *)

(** X9.  Upload ingestion with any number of failures: it returns, with one
    status entry per uploaded file, and leaves the objects of the store as
    they were.  A file is loaded exactly when it parses and no earlier file
    that parses has its name (the key of its label box would be taken);
    every other file has a failure entry, so that failure entries and
    loaded files add up to the number of files.  With no file loaded there
    is no unified table.  Otherwise the unified table has the label column
    and the columns of the loaded files, as many rows as those files have
    together, and every row holds, under [Country], the label of a loaded
    file: what its label box holds, which is the guess from the file name
    unless the user typed a label. *)
Theorem ingest_upload_general {U : Unicode} (disk : string → string + DataFrame)
    (text_input : string → string → string) (files : list uploaded)
    (σ : store) (detected : Dict.dict string) :
  ∃ result status σ' loaded,
    ingest Upload detected disk text_input files σ
    = (inr (result, status), σ') ∧
    (∀ p, p ∈ loaded ↔
       ∃ i f d,
         files !! i = Some f ∧ content f = inr d ∧
         (∀ j g, j < i → files !! j = Some g → parses g →
                 name g ≠ name f) ∧
         p = (text_input (name f) (guess (name f)), d)) ∧
    length status = length files ∧
    length (filter (λ e, is_failure e = true) status) + length loaded
    = length files ∧
    (∀ l d0, σ !! l = Some d0 → σ' !! l = Some d0) ∧
    match result with
    | None => loaded = []
    | Some df_all =>
        loaded ≠ [] ∧
        ∃ u,
          σ' !! df_all = Some u ∧
          labelled_table u ∧
          (∀ c, c ∈ columns u ↔
                c = "Country" ∨ ∃ p, p ∈ loaded ∧ c ∈ columns p.2) ∧
          length (rows u)
          = sum_list ((λ p, length (rows p.2)) <$> loaded) ∧
          (∀ r, r ∈ rows u → ∃ p, p ∈ loaded ∧ cell r "Country" = Str p.1)
    end.
Proof.
  pose proof (ingest_upload_run detected disk text_input files σ) as E.
  cbn zeta in E.
  set (objects := upload_objects text_input [] files) in *.
  set (loaded := loaded_uploads text_input [] files) in *.
  assert (Hl : ∀ p, p ∈ loaded ↔
       ∃ i f d,
         files !! i = Some f ∧ content f = inr d ∧
         (∀ j g, j < i → files !! j = Some g → parses g →
                 name g ≠ name f) ∧
         p = (text_input (name f) (guess (name f)), d)).
  { intros p. unfold loaded. rewrite loaded_uploads_elem. split.
    - intros (i & f & d & ? & ? & _ & ? & ?). by exists i, f, d.
    - intros (i & f & d & ? & ? & ? & ?). exists i, f, d.
      repeat split; try done. apply not_elem_of_nil. }
  destruct loaded as [|p ps] eqn:El.
  - exists None, (upload_log text_input [] files), (σ ++ objects), [].
    split; [exact E|]. split; [exact Hl|].
    split; [apply upload_log_length|].
    split.
    { rewrite <- (upload_failures_and_loaded text_input [] files).
      fold loaded. by rewrite El. }
    split; [intros l d0 Hl0; by apply lookup_app_l_Some|]. done.
  - remember (p :: ps) as pps eqn:Epps.
    assert (Hne : pps ≠ []) by (by subst pps).
    set (frames := (λ p, tag p.1 p.2) <$> pps) in *.
    exists (Some (length σ + length objects)),
      (upload_log text_input [] files),
      (σ ++ objects ++ [concat_frames frames]), pps.
    split.
    { rewrite E. unfold frames. by subst pps. }
    split; [exact Hl|].
    split; [apply upload_log_length|].
    split.
    { rewrite <- (upload_failures_and_loaded text_input [] files).
      fold loaded. by rewrite El, Epps. }
    split; [intros l d0 Hl0; by apply lookup_app_l_Some|].
    split; [done|]. exists (concat_frames frames). split.
    { rewrite app_assoc, lookup_app_r by (rewrite length_app; lia).
      by rewrite length_app, Nat.sub_diag. }
    destruct (concat_tagged_labelled pps Hne) as [Hlab Hrows].
    split; [exact Hlab|].
    split; [intros c; by apply concat_tagged_columns|].
    split; [apply concat_tagged_length|]. exact Hrows.
Qed.

(** *** The options of the selectors *)

#[export] Instance string_leb_total :
  Total (λ a b : string, String.leb a b = true).
Proof. intros a b. apply String.leb_total. Qed.

Lemma first_seen_NoDup (seen cs : list string) :
  NoDup seen →
  NoDup (foldl (λ seen c, if bool_decide (c ∈ seen) then seen else seen ++ [c])
               seen cs).
Proof.
  revert seen. induction cs as [|c cs IH]; intros seen Hnd; [done|].
  simpl. apply IH. destruct (decide (c ∈ seen)) as [Hc|Hc].
  - by rewrite bool_decide_eq_true_2.
  - rewrite bool_decide_eq_false_2 by done. apply NoDup_app.
    split; [done|]. split; [|apply NoDup_singleton].
    intros x Hx ->%list_elem_of_singleton. done.
Qed.

Lemma existsb_value_eqb s (seen : list string) :
  existsb (value_eqb (Str s)) (Str <$> seen) = bool_decide (s ∈ seen).
Proof.
  induction seen as [|x seen IH].
  - symmetry. apply bool_decide_eq_false_2, not_elem_of_nil.
  - rewrite fmap_cons. cbn [existsb value_eqb]. rewrite IH.
    destruct (decide (s = x)) as [->|Hne].
    + rewrite (bool_decide_eq_true_2 (x = x)) by done.
      rewrite (bool_decide_eq_true_2 (x ∈ x :: seen)); [done|].
      apply elem_of_cons. by left.
    + rewrite (bool_decide_eq_false_2 (s = x)) by done. cbn [orb].
      apply bool_decide_ext. rewrite elem_of_cons. tauto.
Qed.

Lemma unique_loop_strings (seen ss : list string) :
  foldl (λ seen v, if existsb (value_eqb v) seen then seen else seen ++ [v])
        (Str <$> seen) (Str <$> ss)
  = Str <$> foldl (λ seen c, if bool_decide (c ∈ seen) then seen
                             else seen ++ [c]) seen ss.
Proof.
  revert seen. induction ss as [|s ss IH]; intros seen; [done|].
  rewrite fmap_cons. cbn [foldl]. rewrite existsb_value_eqb.
  destruct (bool_decide (s ∈ seen)); [apply IH|].
  rewrite <- IH. by rewrite fmap_app.
Qed.

Lemma mapM_string_of (ss : list string) : mapM string_of (Str <$> ss) = Some ss.
Proof.
  apply mapM_Some. induction ss as [|s ss IH]; [constructor|].
  rewrite fmap_cons. by constructor.
Qed.

Lemma labelled_column d :
  labelled_table d →
  column "Country" d = Str <$> omap (key_of "Country") (rows d).
Proof.
  intros [_ Hrows]. unfold column.
  induction Hrows as [|r rs [k Hk] _ IH]; [done|].
  rewrite fmap_cons. cbn [omap list_omap]. unfold key_of at 1.
  rewrite Hk. rewrite fmap_cons. f_equal. exact IH.
Qed.

Lemma dropna_strings (ss : list string) :
  dropna_values (Str <$> ss) = Str <$> ss.
Proof.
  unfold dropna_values. induction ss as [|s ss IH]; [done|].
  rewrite fmap_cons, filter_cons_True by done. by rewrite IH.
Qed.

Lemma countries_run (σ : store) (df_all : ref) (d : DataFrame) :
  σ !! df_all = Some d →
  labelled_table d →
  ∃ labels,
    countries df_all σ = (inr (Str <$> labels), σ) ∧
    NoDup labels ∧
    Sorted (λ a b, String.leb a b = true) labels ∧
    (∀ k, k ∈ labels ↔ ∃ r, r ∈ rows d ∧ cell r "Country" = Str k) ∧
    (labels = [] ↔ rows d = []).
Proof.
  intros H Hlab.
  set (seen := foldl (λ seen c, if bool_decide (c ∈ seen) then seen
                                else seen ++ [c])
                     [] (omap (key_of "Country") (rows d))).
  exists (merge_sort (λ a b, String.leb a b = true) seen).
  assert (Hmem : ∀ k, k ∈ merge_sort (λ a b, String.leb a b = true) seen ↔
                      ∃ r, r ∈ rows d ∧ cell r "Country" = Str k).
  { intros k. rewrite merge_sort_Permutation. unfold seen.
    rewrite union_loop_elem, list_elem_of_omap. split.
    - intros [?%elem_of_nil|(r & Hr & Hk)]; [done|].
      exists r. split; [done|]. unfold key_of in Hk.
      by destruct (cell r "Country"); simplify_eq.
    - intros (r & Hr & Hk). right. exists r. split; [done|].
      unfold key_of. by rewrite Hk. }
  split.
  { unfold countries. destruct Hlab as [Hc Hrows].
    rewrite (bind_ok _ _ _ _ _ (getitem_ok _ _ _ _ H Hc)).
    rewrite (labelled_column d (conj Hc Hrows)), dropna_strings.
    unfold unique. rewrite (unique_loop_strings [] _). fold seen.
    unfold sorted. by rewrite mapM_string_of. }
  split.
  { rewrite merge_sort_Permutation. apply first_seen_NoDup, NoDup_nil_2. }
  split; [apply Sorted_merge_sort; apply _|].
  split; [exact Hmem|].
  split.
  - intros E. destruct (rows d) as [|r rs] eqn:Er; [done|].
    destruct Hlab as [_ Hrows]. rewrite Er in Hrows.
    apply Forall_cons in Hrows as [[k Hk] _].
    assert (Hin : k ∈ merge_sort (λ a b, String.leb a b = true) seen).
    { apply Hmem. exists r. split; [apply elem_of_cons; by left|done]. }
    rewrite E in Hin. by apply elem_of_nil in Hin.
  - intros Er.
    destruct (merge_sort (λ a b, String.leb a b = true) seen) as [|k ks] eqn:E;
      [done|].
    assert (Hin : k ∈ k :: ks) by (apply elem_of_cons; by left).
    apply Hmem in Hin as (r & Hr & _). rewrite Er in Hr.
    by apply elem_of_nil in Hr.
Qed.

(** X10.  On a table whose rows all carry a label, the options of the
    country selector are the labels that occur in the table: each once, in
    ascending order; there is none exactly when the table has no row. *)
Theorem countries_labelled (σ : store) (df_all : ref) (d : DataFrame) :
  σ !! df_all = Some d →
  labelled_table d →
  ∃ labels,
    countries df_all σ = (inr (Str <$> labels), σ) ∧
    NoDup labels ∧
    Sorted (λ a b, String.leb a b = true) labels ∧
    (∀ k, k ∈ labels ↔ ∃ r, r ∈ rows d ∧ cell r "Country" = Str k) ∧
    (labels = [] ↔ rows d = []).
Proof. apply countries_run. Qed.

Lemma countries_labelled_witness :
  [ranking_sample] !! 0 = Some ranking_sample ∧
  labelled_table ranking_sample ∧
  countries 0 [ranking_sample]
  = (inr [Str "A"; Str "B"; Str "C"], [ranking_sample]) ∧
  ∃ labels,
    countries 0 [ranking_sample] = (inr (Str <$> labels), [ranking_sample]) ∧
    NoDup labels ∧
    Sorted (λ a b, String.leb a b = true) labels ∧
    (∀ k, k ∈ labels ↔
          ∃ r, r ∈ rows ranking_sample ∧ cell r "Country" = Str k) ∧
    (labels = [] ↔ rows ranking_sample = []).
Proof.
  assert (Hlab : labelled_table ranking_sample).
  { split; [apply (bool_decide_unpack _); vm_compute; exact I|].
    repeat constructor; eexists; vm_compute; reflexivity. }
  split; [reflexivity|]. split; [exact Hlab|].
  split; [vm_compute; reflexivity|].
  exact (countries_labelled [ranking_sample] 0 ranking_sample eq_refl Hlab).
Defined.

(** X11.  On a table whose rows all carry a label the script takes one of
    three ways.  It stops for lack of metrics exactly when the table has
    none of the columns GHI, DNI, DHI.  With a metric column it stops for
    lack of country labels exactly when the table has no row.  Otherwise
    the metric selector offers the metric columns the table has, in the
    order GHI, DNI, DHI, and the country selector the labels that occur. *)
Theorem options_labelled (σ : store) (df_all : ref) (d : DataFrame) :
  σ !! df_all = Some d →
  labelled_table d →
  (options df_all σ = (inr (inl NoMetrics), σ) ∧
   ("GHI" ∉ columns d) ∧ ("DNI" ∉ columns d) ∧ ("DHI" ∉ columns d)) ∨
  (options df_all σ = (inr (inl NoCountries), σ) ∧
   metrics_available (columns d) ≠ [] ∧ rows d = []) ∨
  (∃ labels,
     options df_all σ
     = (inr (inr (metrics_available (columns d), Str <$> labels)), σ) ∧
     metrics_available (columns d) ≠ [] ∧
     metrics_available (columns d) `sublist_of` ["GHI"; "DNI"; "DHI"] ∧
     (∀ m, m ∈ metrics_available (columns d) ↔
           m ∈ columns d ∧ m ∈ ["GHI"; "DNI"; "DHI"]) ∧
     rows d ≠ [] ∧
     labels ≠ [] ∧
     (∀ k, k ∈ labels ↔ ∃ r, r ∈ rows d ∧ cell r "Country" = Str k)).
Proof.
  intros H Hlab. unfold options.
  rewrite (bind_ok _ _ _ _ _ (get_columns_ok _ _ _ H)).
  destruct (metrics_available (columns d)) as [|m ms] eqn:Em.
  - left. split; [done|].
    assert (Hno : ∀ c, c ∈ ["GHI"; "DNI"; "DHI"] → c ∉ columns d).
    { intros c Hc Hd.
      assert (Hin : c ∈ metrics_available (columns d))
        by (by apply metrics_available_elem).
      rewrite Em in Hin. by apply elem_of_nil in Hin. }
    split; [|split]; apply Hno; set_solver.
  - right.
    destruct (countries_run σ df_all d H Hlab)
      as (labels & E & _ & _ & Hmem & Hempty).
    rewrite (bind_ok _ _ _ _ _ E).
    destruct labels as [|k ks].
    + left. split; [done|]. split; [done|]. by apply Hempty.
    + right. exists (k :: ks). rewrite fmap_cons. split; [done|].
      split; [done|]. split.
      { rewrite <- Em. unfold metrics_available. apply sublist_filter. }
      split; [intros c; rewrite <- Em; apply metrics_available_elem|].
      split; [|split; [done|exact Hmem]].
      intros Er. by apply Hempty in Er.
Qed.

Lemma options_labelled_witness :
  [ranking_sample] !! 0 = Some ranking_sample ∧
  labelled_table ranking_sample ∧
  options 0 [ranking_sample]
  = (inr (inr (["GHI"], [Str "A"; Str "B"; Str "C"])), [ranking_sample]) ∧
  ((options 0 [ranking_sample] = (inr (inl NoMetrics), [ranking_sample]) ∧
    ("GHI" ∉ columns ranking_sample) ∧ ("DNI" ∉ columns ranking_sample) ∧
    ("DHI" ∉ columns ranking_sample)) ∨
   (options 0 [ranking_sample] = (inr (inl NoCountries), [ranking_sample]) ∧
    metrics_available (columns ranking_sample) ≠ [] ∧
    rows ranking_sample = []) ∨
   (∃ labels,
      options 0 [ranking_sample]
      = (inr (inr (metrics_available (columns ranking_sample),
                   Str <$> labels)), [ranking_sample]) ∧
      metrics_available (columns ranking_sample) ≠ [] ∧
      metrics_available (columns ranking_sample)
        `sublist_of` ["GHI"; "DNI"; "DHI"] ∧
      (∀ m, m ∈ metrics_available (columns ranking_sample) ↔
            m ∈ columns ranking_sample ∧ m ∈ ["GHI"; "DNI"; "DHI"]) ∧
      rows ranking_sample ≠ [] ∧
      labels ≠ [] ∧
      (∀ k, k ∈ labels ↔
            ∃ r, r ∈ rows ranking_sample ∧ cell r "Country" = Str k))).
Proof.
  assert (Hlab : labelled_table ranking_sample).
  { split; [apply (bool_decide_unpack _); vm_compute; exact I|].
    repeat constructor; eexists; vm_compute; reflexivity. }
  split; [reflexivity|]. split; [exact Hlab|].
  split; [vm_compute; reflexivity|].
  exact (options_labelled [ranking_sample] 0 ranking_sample eq_refl Hlab).
Defined.

(** *** The filtered view *)

Lemma mask_rows_isin selected_countries (rs : list row) :
  mask_rows rs (isin selected_countries ((λ r, cell r "Country") <$> rs))
  = filter (in_selection selected_countries) rs.
Proof.
  induction rs as [|r rs IH]; [done|].
  unfold isin in *. rewrite !fmap_cons, filter_cons. cbn [mask_rows].
  rewrite IH.
  destruct (decide (in_selection selected_countries r)) as [H|H];
    unfold in_selection in H; destruct (cell r "Country") as [q|k|];
    try done.
  - by rewrite bool_decide_eq_true_2.
  - by rewrite bool_decide_eq_false_2.
Qed.

Lemma select_countries_rows selected_countries d :
  rows (select_countries selected_countries d)
  = filter (in_selection selected_countries) (rows d).
Proof. unfold select_countries, column. simpl. apply mask_rows_isin. Qed.

Section ViewMore.
Context (parse : string → option Q).

(** The names the view coerces: the metric columns of the table. *)
Lemma view_names_elem cols c :
  c ∈ filter (.∈ cols) (metrics_available cols ++ ["GHI"]) ↔
  c ∈ cols ∧ c ∈ ["GHI"; "DNI"; "DHI"].
Proof.
  rewrite list_elem_of_filter, elem_of_app, metrics_available_elem,
    list_elem_of_singleton.
  split.
  - intros [Hc [[_ Hm]| ->]]; split; try done. set_solver.
  - intros [Hc Hm]. split; [done|]. by left.
Qed.

Lemma view_frame_rows selected_countries daylight_only ghi_thr d :
  rows (view_frame parse selected_countries daylight_only ghi_thr d)
  = let coerced :=
      coerce_row parse (filter (.∈ columns d)
                               (metrics_available (columns d) ++ ["GHI"]))
        <$> filter (in_selection selected_countries) (rows d) in
    if daylight_only && bool_decide ("GHI" ∈ columns d)
    then filter (greater ghi_thr "GHI") coerced
    else coerced.
Proof.
  cbn zeta. unfold view_frame. rewrite coerce_frame_columns.
  change (columns (select_countries selected_countries d)) with (columns d).
  rewrite coerce_frame_eq.
  change (columns (select_countries selected_countries d)) with (columns d).
  rewrite select_countries_rows.
  by destruct (daylight_only && bool_decide ("GHI" ∈ columns d)).
Qed.

Lemma view_explicit σ df_all d selected_countries daylight_only ghi_thr :
  σ !! df_all = Some d →
  "Country" ∈ columns d →
  ∃ out σ',
    view parse df_all selected_countries daylight_only ghi_thr σ
    = (inr out, σ') ∧
    σ !! out = None ∧
    σ' !! out
    = Some (view_frame parse selected_countries daylight_only ghi_thr d) ∧
    (∀ l d0, σ !! l = Some d0 → σ' !! l = Some d0).
Proof.
  intros H Hc. unfold view.
  set (sub := select_countries selected_countries d).
  set (cols := metrics_available (columns d) ++ ["GHI"]).
  set (coerced := coerce_frame parse cols sub).
  set (σ3 := σ ++ [sub; sub; coerced]).
  assert (Hlen : length σ3 = S (S (S (length σ)))).
  { unfold σ3. rewrite length_app. simpl. lia. }
  assert (Hcoerced : σ3 !! S (S (length σ)) = Some coerced).
  { unfold σ3. rewrite lookup_app_r by lia.
    by replace (S (S (length σ)) - length σ) with 2 by lia. }
  assert (Hold : ∀ τ l d0, σ !! l = Some d0 → (σ ++ τ) !! l = Some d0).
  { intros τ l d0 Hl. by apply lookup_app_l_Some. }
  assert (Hsteps :
    ∀ k : ref → M ref,
      (cols ← get_columns df_all;
       country ← getitem df_all "Country";
       sub ← select df_all (isin selected_countries country);
       df_view ← copy sub;
       df_view ← coerce_numeric parse df_view
                   (metrics_available cols ++ ["GHI"]);
       k df_view) σ
      = k (S (S (length σ))) σ3).
  { intros k.
    rewrite (bind_ok _ _ _ _ _ (get_columns_ok _ _ _ H)).
    rewrite (bind_ok _ _ _ _ _ (getitem_ok _ _ _ _ H Hc)).
    erewrite bind_ok.
    2:{ apply select_ok; [exact H|]. unfold isin, column.
        by rewrite !length_fmap. }
    erewrite bind_ok; [|apply copy_ok, lookup_snoc].
    erewrite bind_ok.
    2:{ apply coerce_numeric_run.
        rewrite length_app, Nat.add_1_r.
        rewrite lookup_app_r by (rewrite length_app; simpl; lia).
        rewrite length_app, Nat.add_1_r, Nat.sub_diag. reflexivity. }
    rewrite !length_app. cbn [length]. rewrite !Nat.add_1_r.
    unfold σ3. by rewrite <- !app_assoc. }
  rewrite Hsteps.
  rewrite (bind_ok _ _ _ _ _ (get_columns_ok _ _ _ Hcoerced)).
  unfold view_frame. fold sub cols coerced.
  destruct (daylight_only && bool_decide ("GHI" ∈ columns coerced)) eqn:Eb.
  - apply andb_true_iff in Eb as [_ Hg%bool_decide_eq_true_1].
    exists (S (length σ3)),
      (σ3 ++ [filter_frame ghi_thr "GHI" coerced;
              filter_frame ghi_thr "GHI" coerced]).
    split.
    { apply daylight_filter_numeric; [exact Hcoerced|exact Hg|].
      apply coerce_frame_numeric;
        [|unfold coerced in Hg; by rewrite coerce_frame_columns in Hg].
      unfold cols. apply elem_of_app. right. by apply list_elem_of_singleton. }
    split; [apply lookup_ge_None; lia|].
    split.
    { rewrite lookup_app_r by lia.
      by replace (S (length σ3) - length σ3) with 1 by lia. }
    intros l d0 Hl. unfold σ3. rewrite <- app_assoc. by apply Hold.
  - exists (S (S (length σ))), σ3. split; [done|].
    split; [apply lookup_ge_None; lia|]. split; [exact Hcoerced|].
    intros l d0 Hl. by apply Hold.
Qed.

Lemma view_no_country σ df_all d selected_countries daylight_only ghi_thr :
  σ !! df_all = Some d →
  "Country" ∉ columns d →
  view parse df_all selected_countries daylight_only ghi_thr σ
  = (inl (KeyError "Country"), σ).
Proof.
  intros H Hc. unfold view.
  rewrite (bind_ok _ _ _ _ _ (get_columns_ok _ _ _ H)).
  erewrite bind_raise; [done|]. unfold getitem.
  rewrite (bind_ok _ _ _ _ _ (deref_ok _ _ _ H)).
  unfold has_column. by rewrite bool_decide_eq_false_2.
Qed.

End ViewMore.

Lemma view_row_cells parse d r :
  let r' := coerce_row parse (filter (.∈ columns d)
                                (metrics_available (columns d) ++ ["GHI"])) r in
  (∀ c, c ∉ ["GHI"; "DNI"; "DHI"] → r' !! c = r !! c) ∧
  (∀ m, m ∈ ["GHI"; "DNI"; "DHI"] → m ∈ columns d →
        cell r' m = to_numeric_value parse (cell r m)).
Proof.
  cbn zeta. split.
  - intros c Hc. rewrite coerce_row_lookup, decide_False; [done|].
    intros [_ ?]%view_names_elem. done.
  - intros m Hm Hd. rewrite coerce_row_cell, decide_True; [done|].
    by apply view_names_elem.
Qed.

(** X12.  On a unified table with a label column, lines 100-103 return
    the view without raising, whatever the cells of the table hold: the
    view is a new object, the unified table and every other object are left
    as they were, and the view has the columns of the table, no more rows
    than the table, and numbers or missing cells only in each of its metric
    columns.  Without a label column the lines raise a key error. *)
Theorem view_returns (parse : string → option Q) (σ : store) (df_all : ref)
    (d : DataFrame) (selected_countries : list string) (daylight_only : bool)
    (ghi_thr : Q) :
  σ !! df_all = Some d →
  ("Country" ∈ columns d →
   ∃ out σ' v,
     view parse df_all selected_countries daylight_only ghi_thr σ
     = (inr out, σ') ∧
     σ !! out = None ∧
     σ' !! out = Some v ∧
     (∀ l d0, σ !! l = Some d0 → σ' !! l = Some d0) ∧
     columns v = columns d ∧
     length (rows v) ≤ length (rows d) ∧
     Forall (λ m, m ∈ columns v ∧ Forall numeric (column m v))
            (metrics_available (columns d))) ∧
  ("Country" ∉ columns d →
   view parse df_all selected_countries daylight_only ghi_thr σ
   = (inl (KeyError "Country"), σ)).
Proof.
  intros H. split; [|by apply view_no_country].
  intros Hc.
  destruct (view_explicit parse σ df_all d selected_countries daylight_only
              ghi_thr H Hc) as (out & σ' & E & Hfresh & Hout & Hold).
  destruct (view_frame_ready parse selected_countries daylight_only ghi_thr d)
    as (Hcols & Hnum & _).
  exists out, σ', (view_frame parse selected_countries daylight_only ghi_thr d).
  split; [exact E|]. split; [exact Hfresh|]. split; [exact Hout|].
  split; [exact Hold|]. split; [exact Hcols|]. split; [|exact Hnum].
  rewrite view_frame_rows. cbn zeta.
  assert (Hle : length (coerce_row parse
                          (filter (.∈ columns d)
                                  (metrics_available (columns d) ++ ["GHI"]))
                        <$> filter (in_selection selected_countries) (rows d))
                ≤ length (rows d)).
  { rewrite length_fmap. apply length_filter. }
  destruct (daylight_only && bool_decide ("GHI" ∈ columns d)); [|exact Hle].
  etrans; [apply length_filter|exact Hle].
Qed.

Lemma view_returns_witness :
  [two_countries] !! 0 = Some two_countries ∧
  ("Country" ∈ columns two_countries →
   ∃ out σ' v,
     view parse_digits 0 ["A"; "B"] true 20 [two_countries] = (inr out, σ') ∧
     [two_countries] !! out = None ∧
     σ' !! out = Some v ∧
     (∀ l d0, [two_countries] !! l = Some d0 → σ' !! l = Some d0) ∧
     columns v = columns two_countries ∧
     length (rows v) ≤ length (rows two_countries) ∧
     Forall (λ m, m ∈ columns v ∧ Forall numeric (column m v))
            (metrics_available (columns two_countries))) ∧
  ("Country" ∉ columns two_countries →
   view parse_digits 0 ["A"; "B"] true 20 [two_countries]
   = (inl (KeyError "Country"), [two_countries])).
Proof.
  split; [reflexivity|].
  exact (view_returns parse_digits [two_countries] 0 two_countries
           ["A"; "B"] true 20 eq_refl).
Defined.

(** X13.  The rows of the view are the rows of the unified table whose
    label is among the selected countries, in their order, with each metric
    cell replaced by its numeric version and every other cell as it was;
    with the daylight toggle on and a GHI column present, only the rows
    whose GHI is a number strictly above the threshold are kept, and every
    row that passes is kept. *)
Theorem view_rows (parse : string → option Q) (σ : store) (df_all : ref)
    (d : DataFrame) (selected_countries : list string) (daylight_only : bool)
    (ghi_thr : Q) :
  σ !! df_all = Some d →
  "Country" ∈ columns d →
  ∃ out σ' v,
    view parse df_all selected_countries daylight_only ghi_thr σ
    = (inr out, σ') ∧
    σ' !! out = Some v ∧
    (∀ r', r' ∈ rows v →
       ∃ r k,
         r ∈ rows d ∧ cell r "Country" = Str k ∧ k ∈ selected_countries ∧
         (∀ c, c ∉ ["GHI"; "DNI"; "DHI"] → r' !! c = r !! c) ∧
         (∀ m, m ∈ ["GHI"; "DNI"; "DHI"] → m ∈ columns d →
               cell r' m = to_numeric_value parse (cell r m)) ∧
         (daylight_only = true → "GHI" ∈ columns d →
          ∃ q, cell r' "GHI" = Num q ∧ (ghi_thr < q)%Q)) ∧
    (∀ r k,
       r ∈ rows d → cell r "Country" = Str k → k ∈ selected_countries →
       (daylight_only = false ∨ "GHI" ∉ columns d ∨
        ∃ q, to_numeric_value parse (cell r "GHI") = Num q ∧ (ghi_thr < q)%Q) →
       ∃ r',
         r' ∈ rows v ∧
         (∀ c, c ∉ ["GHI"; "DNI"; "DHI"] → r' !! c = r !! c) ∧
         (∀ m, m ∈ ["GHI"; "DNI"; "DHI"] → m ∈ columns d →
               cell r' m = to_numeric_value parse (cell r m))).
Proof.
  intros H Hc.
  destruct (view_explicit parse σ df_all d selected_countries daylight_only
              ghi_thr H Hc) as (out & σ' & E & _ & Hout & _).
  exists out, σ', (view_frame parse selected_countries daylight_only ghi_thr d).
  split; [exact E|]. split; [exact Hout|].
  rewrite view_frame_rows. cbn zeta.
  set (cs := filter (.∈ columns d) (metrics_available (columns d) ++ ["GHI"])).
  assert (Hsel : ∀ r, in_selection selected_countries r ↔
                      ∃ k, cell r "Country" = Str k ∧ k ∈ selected_countries).
  { intros r. unfold in_selection. destruct (cell r "Country") as [q|k|].
    - split; [done|]. by intros (? & ? & _).
    - split; [eauto|]. by intros (k' & [= ->] & ?).
    - split; [done|]. by intros (? & ? & _). }
  assert (Hcoerced : ∀ r', r' ∈ coerce_row parse cs
                             <$> filter (in_selection selected_countries) (rows d)
            ↔ ∃ r, r ∈ rows d ∧ in_selection selected_countries r ∧
                   r' = coerce_row parse cs r).
  { intros r'. rewrite list_elem_of_fmap. split.
    - intros (r & -> & [? ?]%list_elem_of_filter). eauto.
    - intros (r & ? & ? & ->). exists r. split; [done|].
      by apply list_elem_of_filter. }
  split.
  - intros r' Hr'.
    assert (Hin : r' ∈ coerce_row parse cs
                    <$> filter (in_selection selected_countries) (rows d) ∧
                  (daylight_only = true → "GHI" ∈ columns d →
                   greater ghi_thr "GHI" r')).
    { destruct daylight_only; [|done].
      destruct (decide ("GHI" ∈ columns d)) as [Hg|Hg].
      - rewrite bool_decide_eq_true_2 in Hr' by done. cbn [andb] in Hr'.
        apply list_elem_of_filter in Hr' as [? ?]. done.
      - rewrite bool_decide_eq_false_2 in Hr' by done. done. }
    destruct Hin as [Hin Hday].
    apply Hcoerced in Hin as (r & Hr & Hs & ->).
    apply Hsel in Hs as (k & Hk & Hks).
    destruct (view_row_cells parse d r) as [Hkeep Hnum].
    exists r, k. repeat split; try done.
    intros Hd Hg. by apply greater_iff, Hday.
  - intros r k Hr Hk Hks Hpass.
    destruct (view_row_cells parse d r) as [Hkeep Hnum].
    exists (coerce_row parse cs r). split; [|done].
    assert (Hin : coerce_row parse cs r ∈ coerce_row parse cs
                    <$> filter (in_selection selected_countries) (rows d)).
    { apply Hcoerced. exists r. split; [done|]. split; [|done].
      apply Hsel. eauto. }
    destruct daylight_only; [|done].
    destruct (decide ("GHI" ∈ columns d)) as [Hg|Hg].
    + rewrite bool_decide_eq_true_2 by done. cbn [andb].
      apply list_elem_of_filter. split; [|done].
      destruct Hpass as [?|[?|(q & Hq & Hlt)]]; [done..|].
      apply greater_iff. exists q. split; [|done].
      rewrite <- Hq. apply Hnum; [|done]. apply elem_of_cons. by left.
    + by rewrite bool_decide_eq_false_2.
Qed.

Lemma view_rows_witness :
  [two_countries] !! 0 = Some two_countries ∧
  "Country" ∈ columns two_countries ∧
  ∃ out σ' v,
    view parse_digits 0 ["A"; "B"] true 20 [two_countries] = (inr out, σ') ∧
    σ' !! out = Some v ∧
    (∀ r', r' ∈ rows v →
       ∃ r k,
         r ∈ rows two_countries ∧ cell r "Country" = Str k ∧
         k ∈ ["A"; "B"] ∧
         (∀ c, c ∉ ["GHI"; "DNI"; "DHI"] → r' !! c = r !! c) ∧
         (∀ m, m ∈ ["GHI"; "DNI"; "DHI"] → m ∈ columns two_countries →
               cell r' m = to_numeric_value parse_digits (cell r m)) ∧
         (true = true → "GHI" ∈ columns two_countries →
          ∃ q, cell r' "GHI" = Num q ∧ (20 < q)%Q)) ∧
    (∀ r k,
       r ∈ rows two_countries → cell r "Country" = Str k → k ∈ ["A"; "B"] →
       (true = false ∨ "GHI" ∉ columns two_countries ∨
        ∃ q, to_numeric_value parse_digits (cell r "GHI") = Num q ∧ (20 < q)%Q) →
       ∃ r',
         r' ∈ rows v ∧
         (∀ c, c ∉ ["GHI"; "DNI"; "DHI"] → r' !! c = r !! c) ∧
         (∀ m, m ∈ ["GHI"; "DNI"; "DHI"] → m ∈ columns two_countries →
               cell r' m = to_numeric_value parse_digits (cell r m))).
Proof.
  assert (Hc : "Country" ∈ columns two_countries)
    by (apply (bool_decide_unpack _); vm_compute; exact I).
  split; [reflexivity|]. split; [exact Hc|].
  exact (view_rows parse_digits [two_countries] 0 two_countries
           ["A"; "B"] true 20 eq_refl Hc).
Defined.

(** X14.  With every label of the table selected and the daylight toggle
    off, the view loses no row: it has exactly as many rows as the unified
    table. *)
Theorem view_keeps_all (parse : string → option Q) (σ : store) (df_all : ref)
    (d : DataFrame) (selected_countries : list string) (ghi_thr : Q) :
  σ !! df_all = Some d →
  "Country" ∈ columns d →
  Forall (λ r, ∃ k, cell r "Country" = Str k ∧ k ∈ selected_countries)
         (rows d) →
  ∃ out σ' v,
    view parse df_all selected_countries false ghi_thr σ = (inr out, σ') ∧
    σ' !! out = Some v ∧
    length (rows v) = length (rows d).
Proof.
  intros H Hc Hall.
  destruct (view_explicit parse σ df_all d selected_countries false
              ghi_thr H Hc) as (out & σ' & E & _ & Hout & _).
  exists out, σ', (view_frame parse selected_countries false ghi_thr d).
  split; [exact E|]. split; [exact Hout|].
  rewrite view_frame_rows. cbn zeta. cbn [andb]. rewrite length_fmap.
  f_equal. clear -Hall. induction Hall as [|r rs (k & Hk & Hks) _ IH]; [done|].
  rewrite filter_cons_True; [by rewrite IH|].
  unfold in_selection. by rewrite Hk.
Qed.

Lemma view_keeps_all_witness :
  [two_countries] !! 0 = Some two_countries ∧
  "Country" ∈ columns two_countries ∧
  Forall (λ r, ∃ k, cell r "Country" = Str k ∧ k ∈ ["A"; "B"])
         (rows two_countries) ∧
  ∃ out σ' v,
    view parse_digits 0 ["A"; "B"] false 20 [two_countries] = (inr out, σ') ∧
    σ' !! out = Some v ∧
    length (rows v) = length (rows two_countries).
Proof.
  assert (Hc : "Country" ∈ columns two_countries)
    by (apply (bool_decide_unpack _); vm_compute; exact I).
  assert (Hall : Forall (λ r, ∃ k, cell r "Country" = Str k ∧ k ∈ ["A"; "B"])
                        (rows two_countries)).
  { repeat constructor.
    - exists "A". split; [vm_compute; reflexivity|].
      apply (bool_decide_unpack _); vm_compute; exact I.
    - exists "B". split; [vm_compute; reflexivity|].
      apply (bool_decide_unpack _); vm_compute; exact I.
    - exists "A". split; [vm_compute; reflexivity|].
      apply (bool_decide_unpack _); vm_compute; exact I.
    - exists "B". split; [vm_compute; reflexivity|].
      apply (bool_decide_unpack _); vm_compute; exact I. }
  split; [reflexivity|]. split; [exact Hc|]. split; [exact Hall|].
  exact (view_keeps_all parse_digits [two_countries] 0 two_countries
           ["A"; "B"] 20 eq_refl Hc Hall).
Defined.

(** *** The aggregations on the view *)

Lemma group_keys_sorted by_col d :
  Sorted (λ a b, String.leb a b = true) (group_keys by_col d).
Proof. unfold group_keys. apply Sorted_merge_sort. apply _. Qed.

(** X15.  From any unified table with a label column, the view and the two
    aggregations on it never raise: the summary over the available metrics
    is returned, with its rows in ascending order of country label, and the
    ranking is returned when the table has a GHI column, every country of
    the ranking having a row in the summary; without a GHI column the
    ranking is reported as not available. *)
Theorem aggregations_return {N : Numerics} (parse : string → option Q)
    (σ : store) (df_all : ref) (d : DataFrame) (selected_countries : list string)
    (daylight_only : bool) (ghi_thr : Q) :
  σ !! df_all = Some d →
  "Country" ∈ columns d →
  ∃ out σ' v t,
    view parse df_all selected_countries daylight_only ghi_thr σ
    = (inr out, σ') ∧
    σ' !! out = Some v ∧
    summary v (metrics_available (columns d)) = inr t ∧
    Sorted (λ a b, String.leb a b = true) t.*1 ∧
    (("GHI" ∈ columns d ∧
      ∃ ranking, rank v = inr (Some ranking) ∧
                 ∀ k, k ∈ ranking.*1 → k ∈ t.*1) ∨
     (("GHI" ∉ columns d) ∧ rank v = inr None)).
Proof.
  intros H Hc.
  destruct (view_explicit parse σ df_all d selected_countries daylight_only
              ghi_thr H Hc) as (out & σ' & E & _ & Hout & _).
  destruct (view_frame_ready parse selected_countries daylight_only ghi_thr d)
    as (Hcols & Hnum & Hghi).
  set (v := view_frame parse selected_countries daylight_only ghi_thr d) in *.
  assert (Hcv : "Country" ∈ columns v) by (by rewrite Hcols).
  pose proof (summary_run v _ Hcv Hnum) as Esum.
  eexists out, σ', v, _.
  split; [exact E|]. split; [exact Hout|]. split; [exact Esum|].
  assert (Hkeys : ∀ A (f : string → A),
            ((λ k, (k, f k)) <$> group_keys "Country" v).*1
            = group_keys "Country" v).
  { intros A f. rewrite <- list_fmap_compose.
    rewrite <- (list_fmap_id (group_keys "Country" v)) at 2.
    by apply list_fmap_ext. }
  split; [rewrite Hkeys; apply group_keys_sorted|].
  destruct (decide ("GHI" ∈ columns d)) as [Hg|Hg].
  - left. split; [done|]. eexists. split.
    { apply rank_run; [done|by rewrite Hcols|by apply Hghi]. }
    intros k ([k' x] & -> & Hin)%list_elem_of_fmap. cbn [fst].
    apply ranking_elem in Hin as [Hk _]. by rewrite Hkeys.
  - right. split; [done|]. unfold rank, has_column.
    by rewrite bool_decide_eq_false_2 by (by rewrite Hcols).
Qed.

Lemma aggregations_return_witness :
  [two_countries] !! 0 = Some two_countries ∧
  "Country" ∈ columns two_countries ∧
  ∃ out σ' v t,
    view parse_digits 0 ["A"; "B"] true 20 [two_countries] = (inr out, σ') ∧
    σ' !! out = Some v ∧
    summary (N := Float64.numerics) v (metrics_available (columns two_countries))
    = inr t ∧
    Sorted (λ a b, String.leb a b = true) t.*1 ∧
    (("GHI" ∈ columns two_countries ∧
      ∃ ranking, rank (N := Float64.numerics) v = inr (Some ranking) ∧
                 ∀ k, k ∈ ranking.*1 → k ∈ t.*1) ∨
     (("GHI" ∉ columns two_countries) ∧
      rank (N := Float64.numerics) v = inr None)).
Proof.
  assert (Hc : "Country" ∈ columns two_countries)
    by (apply (bool_decide_unpack _); vm_compute; exact I).
  split; [reflexivity|]. split; [exact Hc|].
  exact (aggregations_return (N := Float64.numerics) parse_digits
           [two_countries] 0 two_countries ["A"; "B"] true 20 eq_refl Hc).
Defined.

(** X16.  The ranking and the summary agree: a country is ranked with a
    value exactly when its summary row shows that value as the mean of
    GHI. *)
Theorem rank_matches_summary {N : Numerics} (df_view : DataFrame)
    (metrics : list string) :
  "Country" ∈ columns df_view →
  "GHI" ∈ metrics →
  Forall (λ m, m ∈ columns df_view ∧ Forall numeric (column m df_view))
         metrics →
  ∃ t ranking,
    summary df_view metrics = inr t ∧
    rank df_view = inr (Some ranking) ∧
    ∀ k x,
      (k, x) ∈ ranking ↔
      ∃ blocks med sd,
        (k, blocks) ∈ t ∧ ("GHI", (Some x, med, sd)) ∈ blocks.
Proof.
  intros Hc Hin Hm.
  assert (Hg : "GHI" ∈ columns df_view ∧ Forall numeric (column "GHI" df_view)).
  { rewrite Forall_forall in Hm. by apply Hm. }
  destruct Hg as [Hg Hnum].
  eexists _, _. split; [by apply summary_run|].
  split; [by apply rank_run|].
  intros k x. rewrite ranking_elem. split.
  - intros (Hk & m & E & ->). eexists _, _, _. split.
    + apply list_elem_of_fmap. exists k. split; [reflexivity|done].
    + apply list_elem_of_fmap. exists "GHI". split; [|done].
      by rewrite E.
  - intros (blocks & med & sd & Hb & Hs).
    apply list_elem_of_fmap in Hb as (k' & [= Ek ->] & Hk). subst k'.
    apply list_elem_of_fmap in Hs as (m' & [= <- Hmean _ _] & _).
    split; [done|].
    destruct (mean (group_numbers "GHI" k df_view)) as [m|]; [|done].
    exists m. split; [done|]. by injection Hmean.
Qed.

Lemma rank_matches_summary_witness :
  "Country" ∈ columns ranking_sample ∧
  "GHI" ∈ ["GHI"] ∧
  Forall (λ m, m ∈ columns ranking_sample ∧
               Forall numeric (column m ranking_sample)) ["GHI"] ∧
  ∃ t ranking,
    summary (N := Float64.numerics) ranking_sample ["GHI"] = inr t ∧
    rank (N := Float64.numerics) ranking_sample = inr (Some ranking) ∧
    ∀ k x,
      (k, x) ∈ ranking ↔
      ∃ blocks med sd,
        (k, blocks) ∈ t ∧ ("GHI", (Some x, med, sd)) ∈ blocks.
Proof.
  assert (Hc : "Country" ∈ columns ranking_sample)
    by (apply (bool_decide_unpack _); vm_compute; exact I).
  assert (Hin : "GHI" ∈ ["GHI"])
    by (apply (bool_decide_unpack _); vm_compute; exact I).
  assert (Hm : Forall (λ m, m ∈ columns ranking_sample ∧
                            Forall numeric (column m ranking_sample)) ["GHI"])
    by (apply (bool_decide_unpack _); vm_compute; exact I).
  split; [exact Hc|]. split; [exact Hin|]. split; [exact Hm|].
  exact (rank_matches_summary (N := Float64.numerics) ranking_sample ["GHI"]
           Hc Hin Hm).
Defined.

Lemma group_numbers_nil c k d :
  group_numbers c k d = [] ↔
  ∀ r q, r ∈ rows d → cell r "Country" = Str k → cell r c ≠ Num q.
Proof.
  unfold group_numbers, group_rows. split.
  - intros E r q Hr Hk Hq.
    assert (Hin : q ∈ omap (λ r, number_of (cell r c))
              (filter (λ r, key_of "Country" r = Some k) (rows d))).
    { apply list_elem_of_omap. exists r. split.
      - apply list_elem_of_filter. split; [|done].
        unfold key_of. by rewrite Hk.
      - by rewrite Hq. }
    rewrite E in Hin. by apply elem_of_nil in Hin.
  - intros Hno.
    destruct (omap _ _) as [|q qs] eqn:E; [done|]. exfalso.
    assert (Hin : q ∈ q :: qs) by (apply elem_of_cons; by left).
    rewrite <- E in Hin.
    apply list_elem_of_omap in Hin as (r & [Hk Hr]%list_elem_of_filter & Hq).
    apply (Hno r q Hr).
    + unfold key_of in Hk. by destruct (cell r "Country"); simplify_eq.
    + unfold number_of in Hq. by destruct (cell r c); simplify_eq.
Qed.

(** X17.  When the view has a GHI column but no labelled row with a GHI
    number, the ranking is empty rather than unavailable.  Conversely an
    empty ranking means that no labelled row holds a GHI number, provided
    no group that holds a number has a mean that is NaN, which in floating
    point only an overflow of the sum brings about. *)
Theorem rank_empty {N : Numerics} (df_view : DataFrame) :
  "Country" ∈ columns df_view →
  "GHI" ∈ columns df_view →
  Forall numeric (column "GHI" df_view) →
  ((∀ r k q, r ∈ rows df_view → cell r "Country" = Str k →
             cell r "GHI" ≠ Num q) →
   rank df_view = inr (Some [])) ∧
  (Forall (λ k, group_numbers "GHI" k df_view = [] ∨
                is_Some (float_mean (group_numbers "GHI" k df_view)))
          (group_keys "Country" df_view) →
   rank df_view = inr (Some []) →
   ∀ r k q, r ∈ rows df_view → cell r "Country" = Str k →
            cell r "GHI" ≠ Num q).
Proof.
  intros Hc Hg Hnum. rewrite rank_run by done.
  set (ranking := (λ kv : string * float, (kv.1, round 2 kv.2)) <$> _).
  assert (Hmem : ∀ k x, (k, x) ∈ ranking ↔
            k ∈ group_keys "Country" df_view ∧
            ∃ m, mean (group_numbers "GHI" k df_view) = Some m ∧
                 x = round 2 m) by (intros; apply ranking_elem).
  split.
  - intros Hno. do 2 f_equal.
    destruct ranking as [|[k x] rest] eqn:E; [done|]. exfalso.
    assert (Hin : (k, x) ∈ (k, x) :: rest) by (apply elem_of_cons; by left).
    apply Hmem in Hin as (Hk & m & [Hne _]%mean_Some & _).
    apply Hne, group_numbers_nil. intros r q Hr Hrk. by apply (Hno r k q).
  - intros Hsome [= E] r k q Hr Hk Hq.
    assert (Hkey : k ∈ group_keys "Country" df_view).
    { apply group_keys_elem. exists r. split; [done|].
      unfold key_of. by rewrite Hk. }
    assert (Hne : group_numbers "GHI" k df_view ≠ []).
    { intros Hnil.
      by apply (proj1 (group_numbers_nil "GHI" k df_view) Hnil r q). }
    rewrite Forall_forall in Hsome.
    destruct (Hsome k Hkey) as [Hnil|[m Hm]]; [done|].
    assert (Hin : (k, round 2 m) ∈ ranking).
    { apply Hmem. split; [done|]. exists m. split; [|done].
      by apply mean_Some. }
    rewrite E in Hin. by apply elem_of_nil in Hin.
Qed.

Lemma rank_empty_witness :
  "Country" ∈ columns ranking_sample ∧
  "GHI" ∈ columns ranking_sample ∧
  Forall numeric (column "GHI" ranking_sample) ∧
  Forall (λ k, group_numbers "GHI" k ranking_sample = [] ∨
               is_Some (Float64.of_spec
                          (Float64.group_mean
                             (group_numbers "GHI" k ranking_sample))))
         (group_keys "Country" ranking_sample) ∧
  ((∀ r k q, r ∈ rows ranking_sample → cell r "Country" = Str k →
             cell r "GHI" ≠ Num q) →
   rank (N := Float64.numerics) ranking_sample = inr (Some [])) ∧
  (rank (N := Float64.numerics) ranking_sample = inr (Some []) →
   ∀ r k q, r ∈ rows ranking_sample → cell r "Country" = Str k →
            cell r "GHI" ≠ Num q).
Proof.
  assert (Hc : "Country" ∈ columns ranking_sample)
    by (apply (bool_decide_unpack _); vm_compute; exact I).
  assert (Hg : "GHI" ∈ columns ranking_sample)
    by (apply (bool_decide_unpack _); vm_compute; exact I).
  assert (Hn : Forall numeric (column "GHI" ranking_sample))
    by (apply (bool_decide_unpack _); vm_compute; exact I).
  assert (Hs : Forall (λ k, group_numbers "GHI" k ranking_sample = [] ∨
                 is_Some (Float64.of_spec
                            (Float64.group_mean
                               (group_numbers "GHI" k ranking_sample))))
                (group_keys "Country" ranking_sample)).
  { assert (Ek : group_keys "Country" ranking_sample = ["A"; "B"; "C"])
      by (vm_compute; reflexivity).
    rewrite Ek.
    repeat (apply Forall_cons; split;
            [first [ left; vm_compute; reflexivity
                   | right; eexists; vm_compute; reflexivity ]|]).
    apply Forall_nil_2. }
  split; [exact Hc|]. split; [exact Hg|]. split; [exact Hn|].
  split; [exact Hs|].
  destruct (rank_empty (N := Float64.numerics) ranking_sample Hc Hg Hn)
    as [H1 H2].
  split; [exact H1|exact (H2 Hs)].
Defined.

(** *** The label guess *)

Lemma lower_to_upper c :
  is_lower c = true →
  is_lower (to_upper c) = false ∧ is_upper (to_upper c) = true.
Proof.
  destruct c as [b0 b1 b2 b3 b4 b5 b6 b7].
  destruct b0, b1, b2, b3, b4, b5, b6, b7; vm_compute; by intros.
Qed.

Lemma upper_to_lower c :
  is_lower c = false → is_upper c = true → is_lower (to_lower c) = true.
Proof.
  destruct c as [b0 b1 b2 b3 b4 b5 b6 b7].
  destruct b0, b1, b2, b3, b4, b5, b6, b7; vm_compute; by intros.
Qed.

Lemma title_from_idem b s :
  title_from b (title_from b s) = title_from b s.
Proof.
  revert b. induction s as [|c s IH]; intros b; [done|].
  cbn [title_from].
  destruct (is_lower c) eqn:El.
  - destruct b.
    + cbn [title_from]. rewrite El. by rewrite IH.
    + destruct (lower_to_upper c El) as [E1 E2].
      cbn [title_from]. rewrite E1, E2. by rewrite IH.
  - destruct (is_upper c) eqn:Eu.
    + destruct b.
      * cbn [title_from]. rewrite (upper_to_lower c El Eu). by rewrite IH.
      * cbn [title_from]. rewrite El, Eu. by rewrite IH.
    + cbn [title_from]. rewrite El, Eu. by rewrite IH.
Qed.

(** Title-casing maps letters to letters and leaves the rest alone, so it
    neither makes nor removes a character that is not a letter. *)
Lemma title_from_has_char a b s :
  is_lower a = false → is_upper a = false →
  has_char a (title_from b s) = has_char a s.
Proof.
  intros Hl Hu. revert b. induction s as [|c s IH]; intros b; [done|].
  assert (Hne : ∀ x, (is_lower x = true ∨ is_upper x = true) →
                     bool_decide (x = a) = false).
  { intros x Hx. apply bool_decide_eq_false_2. intros ->.
    destruct Hx as [Hx|Hx]; congruence. }
  cbn [title_from].
  destruct (is_lower c) eqn:El.
  - cbn [has_char]. rewrite IH. f_equal.
    rewrite (Hne c) by auto.
    destruct b; [by apply Hne; auto|].
    apply Hne. right. by apply lower_to_upper.
  - destruct (is_upper c) eqn:Eu.
    + cbn [has_char]. rewrite IH. f_equal.
      rewrite (Hne c) by auto.
      destruct b; [|by apply Hne; auto].
      apply Hne. left. by apply upper_to_lower.
    + cbn [has_char]. by rewrite IH.
Qed.

Lemma replace_other a x y s :
  a ≠ x → a ≠ y → has_char a (replace x y s) = has_char a s.
Proof.
  intros Hx Hy. induction s as [|c s IH]; [done|].
  cbn [replace has_char]. rewrite IH. f_equal.
  destruct (decide (c = x)) as [->|Hc].
  - rewrite (bool_decide_eq_true_2 (x = x)) by done.
    rewrite !bool_decide_eq_false_2; [done|congruence|congruence].
  - by rewrite (bool_decide_eq_false_2 (c = x)) by done.
Qed.

Lemma replace_gone x y s : x ≠ y → has_char x (replace x y s) = false.
Proof.
  intros Hne. induction s as [|c s IH]; [done|].
  cbn [replace has_char]. rewrite IH, orb_false_r.
  destruct (decide (c = x)) as [->|Hc].
  - rewrite (bool_decide_eq_true_2 (x = x)) by done.
    apply bool_decide_eq_false_2. congruence.
  - rewrite (bool_decide_eq_false_2 (c = x)) by done.
    by apply bool_decide_eq_false_2.
Qed.

Lemma replace_absent x y s : has_char x s = false → replace x y s = s.
Proof.
  induction s as [|c s IH]; [done|]. cbn [has_char replace].
  destruct (bool_decide (c = x)); [done|]. cbn [orb]. intros H.
  by rewrite IH.
Qed.

Lemma split_head_gone sep s : has_char sep (split_head sep s) = false.
Proof.
  induction s as [|c s IH]; [done|]. cbn [split_head].
  destruct (bool_decide (c = sep)) eqn:E; [done|].
  cbn [has_char]. by rewrite E, IH.
Qed.

Lemma ascii_cases c :
  (nat_of_ascii c <? 128)%nat = true →
  (nat_of_ascii (to_upper c) <? 128)%nat = true ∧
  (nat_of_ascii (to_lower c) <? 128)%nat = true.
Proof.
  destruct c as [b0 b1 b2 b3 b4 b5 b6 b7].
  destruct b0, b1, b2, b3, b4, b5, b6, b7; vm_compute; by intros.
Qed.

Lemma title_from_ascii b s :
  ascii_text s = true → ascii_text (title_from b s) = true.
Proof.
  revert b. induction s as [|c s IH]; intros b; [done|].
  cbn [ascii_text title_from]. intros [Hc Hs]%andb_true_iff.
  destruct (ascii_cases c Hc) as [Hup Hlow].
  destruct (is_lower c); [|destruct (is_upper c)]; cbn [ascii_text];
    rewrite IH by done; destruct b; by rewrite ?Hc, ?Hup, ?Hlow.
Qed.

Lemma split_head_ascii sep s :
  ascii_text s = true → ascii_text (split_head sep s) = true.
Proof.
  induction s as [|c s IH]; [done|]. cbn [ascii_text split_head].
  intros [Hc Hs]%andb_true_iff. destruct (bool_decide (c = sep)); [done|].
  cbn [ascii_text]. by rewrite Hc, IH.
Qed.

Lemma replace_ascii a b s :
  (nat_of_ascii b <? 128)%nat = true →
  ascii_text s = true → ascii_text (replace a b s) = true.
Proof.
  intros Hb. induction s as [|c s IH]; [done|]. cbn [ascii_text replace].
  intros [Hc Hs]%andb_true_iff. rewrite IH by done.
  destruct (bool_decide (c = a)); by rewrite ?Hb, ?Hc.
Qed.

(** On an ASCII name the guess is the ASCII title-casing, and is ASCII. *)
Lemma guess_ascii {U : Unicode} name :
  ascii_text name = true →
  guess name = title_from false (replace "_" " " (split_head "." name)) ∧
  ascii_text (guess name) = true.
Proof.
  intros Hname.
  assert (H : ascii_text (replace "_" " " (split_head "." name)) = true)
    by (by apply replace_ascii, split_head_ascii).
  unfold guess, title. rewrite H. split; [done|]. by apply title_from_ascii.
Qed.

(** X18.  On a file name of ASCII characters the guessed label never holds
    a dot or an underscore, and it is stable: guessing again from a guessed
    label gives the same label. *)
Theorem guess_stable {U : Unicode} (name : string) :
  ascii_text name = true →
  has_char "." (guess name) = false ∧
  has_char "_" (guess name) = false ∧
  guess (guess name) = guess name.
Proof.
  intros Hname. destruct (guess_ascii name Hname) as [E Ha].
  assert (Hdot : has_char "." (guess name) = false).
  { rewrite E, title_from_has_char by done.
    rewrite replace_other by done. apply split_head_gone. }
  assert (Hus : has_char "_" (guess name) = false).
  { rewrite E, title_from_has_char by done. by apply replace_gone. }
  split; [exact Hdot|]. split; [exact Hus|].
  destruct (guess_ascii (guess name) Ha) as [E' _]. rewrite E'.
  rewrite split_head_no_sep by exact Hdot.
  rewrite replace_absent by exact Hus.
  rewrite E. apply title_from_idem.
Qed.

Lemma guess_stable_witness :
  ascii_text "sierra_leone_clean.csv" = true ∧
  guess (U := no_database) "sierra_leone_clean.csv" = "Sierra Leone Clean" ∧
  has_char "." (guess (U := no_database) "sierra_leone_clean.csv") = false ∧
  has_char "_" (guess (U := no_database) "sierra_leone_clean.csv") = false ∧
  guess (U := no_database) (guess (U := no_database) "sierra_leone_clean.csv")
  = guess (U := no_database) "sierra_leone_clean.csv".
Proof.
  split; [reflexivity|]. split; [reflexivity|].
  exact (guess_stable (U := no_database) "sierra_leone_clean.csv" eq_refl).
Defined.

(** *** The data input from its start *)

Lemma find_country_files_short fs data_dir :
  length (find_country_files fs data_dir) ≤ 3.
Proof.
  assert (Hkeys : Dict.keys (find_country_files fs data_dir)
                    `sublist_of` ["Benin"; "Togo"; "Sierra Leone"]).
  { unfold find_country_files. destruct (negb _); [apply sublist_nil_l|].
    rewrite UtilsExtra.locate_loop_keys.
    - apply (UtilsExtra.omap_hit_sublist fs data_dir globs).
    - unfold Dict.keys, globs. simpl.
      repeat (apply NoDup_cons; split; [set_solver|]). apply NoDup_nil_2.
    - intros k _. apply not_elem_of_nil. }
  apply sublist_length in Hkeys. unfold Dict.keys in Hkeys.
  by rewrite length_fmap in Hkeys.
Qed.

Lemma find_country_files_nothing fs data_dir :
  fs data_dir = None ∨ fs data_dir = Some File ∨ fs data_dir = Some (Dir []) →
  find_country_files fs data_dir = [].
Proof.
  intros H. unfold find_country_files. destruct (negb _); [done|].
  assert (Hg : ∀ pat, glob fs data_dir pat = []).
  { intros pat. unfold glob. by destruct H as [-> | [-> | ->]]. }
  unfold globs. cbn [foldl try_patterns]. by rewrite !Hg.
Qed.

(** X19.  In directory-scan mode the script reads at most three files,
    whatever [./data] holds: the status log has one entry per detected
    file and at most three.  When [./data] is missing, is a regular file
    or is an empty directory, nothing is read: the log is empty, no
    unified table is built and the store is left as it was. *)
Theorem data_input_local {U : Unicode} (fs : filesystem)
    (disk : string → string + DataFrame)
    (text_input : string → string → string) (files : list uploaded)
    (σ : store) :
  ∃ result status σ',
    data_input fs UseLocal disk text_input files σ
    = (inr (result, status), σ') ∧
    length status = length (find_country_files fs "data") ∧
    length status ≤ 3 ∧
    (fs "data" = None ∨ fs "data" = Some File ∨ fs "data" = Some (Dir []) →
     result = None ∧ status = [] ∧ σ' = σ).
Proof.
  unfold data_input. rewrite ingest_local_run. cbn zeta.
  pose proof (find_country_files_short fs "data") as Hlen.
  destruct (omap (labelled disk) (find_country_files fs "data")) eqn:E.
  - eexists _, _, _. split; [done|]. rewrite length_fmap.
    split; [done|]. split; [done|].
    intros H. by rewrite (find_country_files_nothing fs "data" H).
  - eexists _, _, _. split; [done|]. rewrite length_fmap.
    split; [done|]. split; [done|].
    intros H. rewrite (find_country_files_nothing fs "data" H) in E. done.
Qed.

End MainExtra.
